(** * Level Zero kernel collector and PTI trace adapter: a shallow embedding

    The development follows two translation units of the repository:

    - [samples/ze_hot_kernels/ze_kernel_collector.h]: class
      [ZeKernelCollector], the callback driven tracker that keeps the
      in-flight kernel instances, converts device timestamps to
      nanoseconds and folds the durations into a per-kernel table;
    - [tools/ptitrace/pti-adapter.cc]: the consumer side of the buffer
      protocol ([BufferRequested] / [BufferReturned]).

    Integers of the source are [Z] with the 64-bit wrap-around written
    out, handles are [Z] with [nullptr = 0], [std::map] is [gmap],
    [std::list] and [std::vector] are [list].  A failed [PTI_ASSERT]
    stops the process: every operation runs in a state-and-fault monad. *)

From Stdlib Require Import ZArith String List Lia.
From stdpp Require Import base option gmap strings list.

Local Open Scope Z_scope.

(** ** Machine integers and handles *)

Definition u64 (z : Z) : Z := z mod 2 ^ 64.

Definition nullptr : Z := 0.

(** Modelled from the spec: the macro [NSEC_IN_SEC] comes from [utils.h],
    which is not part of the sources at hand; the spec converts with
    [ticks * 1e9 / timer_frequency], and [ze_utilities.h] has the same
    value as [kNSecInSecond]. *)
Definition NSEC_IN_SEC : Z := 1000000000.

(** Result codes of the driver ([ze_api.h]); the collector only ever
    distinguishes success, not-ready and everything else. *)
Inductive ze_result_t :=
| ZE_RESULT_SUCCESS
| ZE_RESULT_NOT_READY
| ZE_RESULT_ERROR (code : Z).

Definition is_success (r : ze_result_t) : bool :=
  match r with ZE_RESULT_SUCCESS => true | _ => false end.

Definition is_not_ready (r : ze_result_t) : bool :=
  match r with ZE_RESULT_NOT_READY => true | _ => false end.

(** ** Data of the collector *)

Record ZeKernelInstance := mkInstance {
  name : string;
  simd_width : Z;
  event_pool : Z;
  event : Z
}.

(** The aggregate keeps the source's field names; its [simd_width] is
    [info_simd_width] here because the instance record owns the name. *)
Record ZeKernelInfo := mkInfo {
  total_time : Z;
  min_time : Z;
  max_time : Z;
  call_count : Z;
  info_simd_width : Z
}.

Record ZeKernelInterval := mkInterval {
  interval_name : string;
  interval_start : Z;
  interval_end : Z
}.

(** Calls into the driver that change driver state; they are logged in
    the order the collector issues them. *)
Inductive ZeCall :=
| CallEventPoolCreate (context : Z)
| CallEventCreate (pool : Z)
| CallEventDestroy (ev : Z)
| CallEventPoolDestroy (pool : Z).

(** What the driver answers during one callback.  [zeEventCreate] and
    [zeEventPoolCreate] give the status together with the content of the
    out parameter after the call. *)
Record ZeDriver := mkDriver {
  zeEventQueryStatus : Z -> ze_result_t;
  zeEventQueryKernelTimestamp : Z -> ze_result_t * (Z * Z);
  zeEventPoolCreate : Z -> ze_result_t * Z;
  zeEventCreate : Z -> ze_result_t * Z;
  zeEventDestroy : Z -> ze_result_t;
  zeEventPoolDestroy : Z -> ze_result_t
}.

Record ZeKernelCollector := mkCollector {
  timer_frequency_ : Z;
  kernel_info_map_ : gmap string ZeKernelInfo;
  kernel_interval_list_ : list ZeKernelInterval;
  kernel_instance_list_ : list ZeKernelInstance;
  command_list_map_ : gmap Z Z;
  driver_log : list ZeCall
}.

Definition set_info_map (m : gmap string ZeKernelInfo) (c : ZeKernelCollector) :=
  mkCollector (timer_frequency_ c) m (kernel_interval_list_ c)
    (kernel_instance_list_ c) (command_list_map_ c) (driver_log c).

Definition set_interval_list (l : list ZeKernelInterval) (c : ZeKernelCollector) :=
  mkCollector (timer_frequency_ c) (kernel_info_map_ c) l
    (kernel_instance_list_ c) (command_list_map_ c) (driver_log c).

Definition set_instance_list (l : list ZeKernelInstance) (c : ZeKernelCollector) :=
  mkCollector (timer_frequency_ c) (kernel_info_map_ c) (kernel_interval_list_ c)
    l (command_list_map_ c) (driver_log c).

Definition set_command_list_map (m : gmap Z Z) (c : ZeKernelCollector) :=
  mkCollector (timer_frequency_ c) (kernel_info_map_ c) (kernel_interval_list_ c)
    (kernel_instance_list_ c) m (driver_log c).

Definition log_call (k : ZeCall) (c : ZeKernelCollector) :=
  mkCollector (timer_frequency_ c) (kernel_info_map_ c) (kernel_interval_list_ c)
    (kernel_instance_list_ c) (command_list_map_ c) (driver_log c ++ [k]).

(** ** The fault monad *)

Inductive Fault :=
| AssertFailed      (* a PTI_ASSERT did not hold *)
| DivideByZero      (* integer division by zero traps *)
| Thrown.           (* a C++ exception left the function *)

Inductive Outcome (A : Type) :=
| Done (a : A)
| Fatal (f : Fault).
Arguments Done {A} a.
Arguments Fatal {A} f.

Definition M (S A : Type) : Type := S -> Outcome (A * S).

Definition ret {S A} (a : A) : M S A := fun s => Done (a, s).

Definition bind {S A B} (m : M S A) (k : A -> M S B) : M S B :=
  fun s => match m s with
           | Done (a, s') => k a s'
           | Fatal f => Fatal f
           end.

Definition modify {S} (f : S -> S) : M S unit := fun s => Done (tt, f s).
Definition get {S} : M S S := fun s => Done (s, s).
Definition fail {S A} (f : Fault) : M S A := fun _ => Fatal f.

Declare Scope cb_scope.
Delimit Scope cb_scope with cb.
Notation "x <~ m ;; k" := (bind m (fun x => k))
  (at level 100, m at level 99, k at level 200, right associativity) : cb_scope.
Notation "m ;;; k" := (bind m (fun _ => k))
  (at level 100, k at level 200, right associativity) : cb_scope.
Local Open Scope cb_scope.

(** Modelled from the spec: [PTI_ASSERT] is defined in [utils.h], which is
    not part of the sources at hand; the spec treats a violated
    precondition as a fatal failure, not a recoverable error.  (The one
    definition among the sources, in [dpc_gemm/main.cc], throws; either
    way control does not go on behind a failed assertion.) *)
Definition PTI_ASSERT {S} (b : bool) : M S unit :=
  if b then ret tt else fail AssertFailed.

(** Unsigned 64-bit division; the divisor zero traps. *)
Definition udiv {S} (a b : Z) : M S Z :=
  if b =? 0 then fail DivideByZero else ret (a / b).

(** ** ZeKernelCollector: bookkeeping *)

Definition Cb := M ZeKernelCollector.

Definition nonempty (s : string) : bool :=
  match s with EmptyString => false | _ => true end.

Definition AddKernelInstance (command_list : Z) (instance : ZeKernelInstance)
  : Cb unit :=
  PTI_ASSERT (negb (command_list =? nullptr)) ;;;
  modify (fun c => set_instance_list (kernel_instance_list_ c ++ [instance]) c).

(** The update of an existing entry, in the order of the source. *)
Definition update_info (kernel : ZeKernelInfo) (time width : Z) : ZeKernelInfo :=
  let total := u64 (total_time kernel + time) in
  let mx := if max_time kernel <? time then time else max_time kernel in
  let mn := if time <? min_time kernel then time else min_time kernel in
  mkInfo total mn mx (u64 (call_count kernel + 1))
         (Z.max (info_simd_width kernel) width).

Definition AddKernelInfo (nm : string) (time width : Z) : Cb unit :=
  PTI_ASSERT (nonempty nm) ;;;
  modify (fun c =>
    match kernel_info_map_ c !! nm with
    | None =>
        set_info_map (<[nm := mkInfo time time time 1 width]> (kernel_info_map_ c)) c
    | Some kernel =>
        set_info_map (<[nm := update_info kernel time width]> (kernel_info_map_ c)) c
    end).

Definition AddKernelInterval (nm : string) (start finish : Z) : Cb unit :=
  PTI_ASSERT (nonempty nm) ;;;
  PTI_ASSERT (start <? finish) ;;;
  modify (fun c =>
    set_interval_list (kernel_interval_list_ c ++ [mkInterval nm start finish]) c).

Definition AddCommandList (command_list context : Z) : Cb unit :=
  PTI_ASSERT (negb (command_list =? nullptr)) ;;;
  PTI_ASSERT (negb (context =? nullptr)) ;;;
  c <~ get ;;
  PTI_ASSERT (bool_decide (command_list_map_ c !! command_list = None)) ;;;
  modify (fun c => set_command_list_map (<[command_list := context]> (command_list_map_ c)) c).

Definition RemoveCommandList (command_list : Z) : Cb unit :=
  PTI_ASSERT (negb (command_list =? nullptr)) ;;;
  c <~ get ;;
  PTI_ASSERT (bool_decide (is_Some (command_list_map_ c !! command_list))) ;;;
  modify (fun c => set_command_list_map (delete command_list (command_list_map_ c)) c).

Definition GetCommandListContext (command_list : Z) : Cb Z :=
  PTI_ASSERT (negb (command_list =? nullptr)) ;;;
  c <~ get ;;
  match command_list_map_ c !! command_list with
  | Some context => ret context
  | None => fail AssertFailed
  end.

(** ** ZeKernelCollector: resolving instances *)

(** Lines 239-253 of [ProcessInstance]: both ends are converted on their
    own; when [start < end] does not hold the end is taken to lie one
    32-bit period later.  The result is [(start_ns, end_ns, time)]. *)
Definition timestamps_to_ns {S} (freq start finish : Z) : M S (Z * Z * Z) :=
  start_ns <~ udiv (u64 (start * NSEC_IN_SEC)) freq ;;
  end_ns <~ (if start <? finish
             then udiv (u64 (finish * NSEC_IN_SEC)) freq
             else (PTI_ASSERT (start <? 2 ^ 32) ;;;
                   udiv (u64 (u64 (2 ^ 32 + finish) * NSEC_IN_SEC)) freq)) ;;
  ret (start_ns, end_ns, u64 (end_ns - start_ns)).

Definition call_zeEventDestroy (drv : ZeDriver) (ev : Z) : Cb unit :=
  modify (log_call (CallEventDestroy ev)) ;;;
  PTI_ASSERT (is_success (zeEventDestroy drv ev)).

Definition call_zeEventPoolDestroy (drv : ZeDriver) (pool : Z) : Cb unit :=
  modify (log_call (CallEventPoolDestroy pool)) ;;;
  PTI_ASSERT (is_success (zeEventPoolDestroy drv pool)).

(** Teardown of a tracker-owned signal: the instance owns its event
    exactly when [event_pool] is not null. *)
Definition release_owned_event (drv : ZeDriver) (instance : ZeKernelInstance)
  : Cb unit :=
  if negb (event_pool instance =? nullptr)
  then (call_zeEventDestroy drv (event instance) ;;;
        call_zeEventPoolDestroy drv (event_pool instance))
  else ret tt.

(** [ProcessInstance(const ZeKernelInstance&)] *)
Definition ProcessInstance (drv : ZeDriver) (instance : ZeKernelInstance)
  : Cb unit :=
  PTI_ASSERT (is_success (zeEventQueryStatus drv (event instance))) ;;;
  let '(status, (start, finish)) :=
    zeEventQueryKernelTimestamp drv (event instance) in
  PTI_ASSERT (is_success status) ;;;
  c <~ get ;;
  t <~ timestamps_to_ns (timer_frequency_ c) start finish ;;
  let '(start_ns, end_ns, time) := t in
  AddKernelInfo (name instance) time (simd_width instance) ;;;
  AddKernelInterval (name instance) start_ns end_ns ;;;
  release_owned_event drv instance.

(** The loop of [ProcessInstance(ze_event_handle_t)]: the first instance
    with the event is processed and erased, the others are kept. *)
Fixpoint process_first (drv : ZeDriver) (ev : Z) (l : list ZeKernelInstance)
  : Cb (list ZeKernelInstance) :=
  match l with
  | [] => ret []
  | it :: rest =>
      if event it =? ev
      then (ProcessInstance drv it ;;; ret rest)
      else (rest' <~ process_first drv ev rest ;; ret (it :: rest'))
  end.

(** [ProcessInstance(ze_event_handle_t)] *)
Definition ProcessInstanceOfEvent (drv : ZeDriver) (ev : Z) : Cb unit :=
  PTI_ASSERT (negb (ev =? nullptr)) ;;;
  c <~ get ;;
  l <~ process_first drv ev (kernel_instance_list_ c) ;;
  modify (set_instance_list l).

(** The loop of [ProcessInstances]: one status query per instance. *)
Fixpoint poll_all (drv : ZeDriver) (l : list ZeKernelInstance)
  : Cb (list ZeKernelInstance) :=
  match l with
  | [] => ret []
  | it :: rest =>
      PTI_ASSERT (negb (event it =? nullptr)) ;;;
      match zeEventQueryStatus drv (event it) with
      | ZE_RESULT_NOT_READY =>
          rest' <~ poll_all drv rest ;; ret (it :: rest')
      | ZE_RESULT_SUCCESS =>
          ProcessInstance drv it ;;; poll_all drv rest
      | ZE_RESULT_ERROR _ => fail AssertFailed
      end
  end.

Definition ProcessInstances (drv : ZeDriver) : Cb unit :=
  c <~ get ;;
  l <~ poll_all drv (kernel_instance_list_ c) ;;
  modify (set_instance_list l).

(** ** ZeKernelCollector: callbacks *)

Definition OnEnterEventDestroy (drv : ZeDriver) (hEvent : Z) : Cb unit :=
  if negb (hEvent =? nullptr) then ProcessInstanceOfEvent drv hEvent else ret tt.

Definition OnEnterEventHostReset (drv : ZeDriver) (hEvent : Z) : Cb unit :=
  if negb (hEvent =? nullptr) then ProcessInstanceOfEvent drv hEvent else ret tt.

(** [CreateEvent]: the status of [zeEventCreate] is dropped by the source,
    the second assertion looks at the status of the pool creation again. *)
Definition CreateEvent (drv : ZeDriver) (context : Z) : Cb (Z * Z) :=
  PTI_ASSERT (negb (context =? nullptr)) ;;;
  modify (log_call (CallEventPoolCreate context)) ;;;
  let '(status, pool) := zeEventPoolCreate drv context in
  PTI_ASSERT (is_success status) ;;;
  modify (log_call (CallEventCreate pool)) ;;;
  let '(_, ev) := zeEventCreate drv pool in
  PTI_ASSERT (is_success status) ;;;
  ret (pool, ev).

(** [OnEnterKernelAppend] gives back the signal event the driver call will
    use and the content of the per-call slot [*instance_data] (empty when
    the hook left it untouched). *)
Definition OnEnterKernelAppend (drv : ZeDriver) (nm : string) (width : Z)
    (signal_event command_list : Z) : Cb (Z * option ZeKernelInstance) :=
  PTI_ASSERT (nonempty nm) ;;;
  if command_list =? nullptr then ret (signal_event, None)
  else if signal_event =? nullptr then
    (context <~ GetCommandListContext command_list ;;
     pe <~ CreateEvent drv context ;;
     ret (snd pe, Some (mkInstance nm width (fst pe) (snd pe))))
  else ret (signal_event, Some (mkInstance nm width nullptr signal_event)).

Definition OnExitKernelAppend (drv : ZeDriver) (command_list : Z)
    (instance_data : option ZeKernelInstance) (result : ze_result_t) : Cb unit :=
  PTI_ASSERT (negb (command_list =? nullptr)) ;;;
  match instance_data with
  | None => ret tt
  | Some instance =>
      if negb (is_success result)
      then release_owned_event drv instance
      else AddKernelInstance command_list instance
  end.

Definition OnExitCommandListAppendLaunchKernel (drv : ZeDriver)
    (signal_event command_list : Z) (instance_data : option ZeKernelInstance)
    (result : ze_result_t) : Cb unit :=
  PTI_ASSERT (negb (signal_event =? nullptr)) ;;;
  OnExitKernelAppend drv command_list instance_data result.

Definition OnExitCommandListCreate (command_list context : Z)
    (result : ze_result_t) : Cb unit :=
  if is_success result
  then (PTI_ASSERT (negb (command_list =? nullptr)) ;;;
        AddCommandList command_list context)
  else ret tt.

Definition OnExitCommandListCreateImmediate (command_list context : Z)
    (result : ze_result_t) : Cb unit :=
  if is_success result
  then (PTI_ASSERT (negb (command_list =? nullptr)) ;;;
        AddCommandList command_list context)
  else ret tt.

Definition OnExitCommandListDestroy (drv : ZeDriver) (command_list : Z)
    (result : ze_result_t) : Cb unit :=
  if is_success result
  then (PTI_ASSERT (negb (command_list =? nullptr)) ;;;
        ProcessInstances drv ;;;
        RemoveCommandList command_list)
  else ret tt.

Definition OnExitCommandQueueSynchronize (drv : ZeDriver)
    (result : ze_result_t) : Cb unit :=
  if is_success result then ProcessInstances drv else ret tt.

Definition OnExitCommandQueueDestroy (drv : ZeDriver)
    (result : ze_result_t) : Cb unit :=
  if is_success result then ProcessInstances drv else ret tt.

(** One traced [zeCommandListAppendLaunchKernel]: the tracing layer runs
    the prologue, the driver call yields [result], and the epilogue sees
    the slot the prologue filled and the signal event it may have set. *)
Definition traced_append_launch (drv : ZeDriver) (nm : string) (width : Z)
    (signal_event command_list : Z) (result : ze_result_t) : Cb unit :=
  r <~ OnEnterKernelAppend drv nm width signal_event command_list ;;
  OnExitCommandListAppendLaunchKernel drv (fst r) command_list (snd r) result.

(** ** The trace adapter ([pti-adapter.cc]) *)

Module PtiAdapter.

(** Values of [pti_view_kind] as the repository declares them. *)
Inductive pti_view_kind :=
| PTI_VIEW_INVALID
| PTI_VIEW_DEVICE_GPU_KERNEL
| PTI_VIEW_DEVICE_CPU_KERNEL
| PTI_VIEW_LEVEL_ZERO_CALLS
| PTI_VIEW_OPENCL_CALLS
| PTI_VIEW_COLLECTION_OVERHEAD
| PTI_VIEW_SYCL_RUNTIME_CALLS
| PTI_VIEW_EXTERNAL_CORRELATION
| PTI_VIEW_DEVICE_GPU_MEM_COPY
| PTI_VIEW_DEVICE_GPU_MEM_FILL.

(** A decoded record as [AddRecord] reads it: the kind tag of the base
    and the fields the four casts access. *)
Record pti_view_record := mkRecord {
  _view_kind : pti_view_kind;
  _process_id : Z;
  _thread_id : Z;
  _name : string;
  _start_timestamp : Z;
  _end_timestamp : Z;
  _correlation_id : Z;
  _kernel_id : Z;
  _mem_op_id : Z;
  _bytes : Z;
  _value_for_set : Z
}.

(** One element of [chrome_log_["traceEvents"]]. *)
Record trace_obj := mkTrace {
  ph : string;
  pid : Z;
  tid : Z;
  trace_name : string;
  ts : Z;
  dur : Z;
  args : list (string * Z)
}.

(** How a decoding run over a buffer ends. *)
Inductive decode_end :=
| PTI_STATUS_END_OF_BUFFER
| PTI_BAD_STATUS (code : Z).

(** Modelled from the spec: [ptiViewGetNextRecord] belongs to the PTI
    library and is not part of the sources at hand.  The spec gives
    decoding as a finite sequence of records that is closed by the
    end-of-buffer mark or by an error; the decoder maps a buffer and its
    valid length to that sequence. *)
Definition decoder := Z -> Z -> list pti_view_record * decode_end.

(** The process as the adapter sees it: the trace events collected so
    far, the pointers handed to [operator delete], the lines written to
    [std::cout] and the process id. *)
Record Process := mkProcess {
  traceEvents : list trace_obj;
  released : list Z;
  console : list string;
  process_pid : Z
}.

Definition print (line : string) : M Process unit :=
  modify (fun p => mkProcess (traceEvents p) (released p)
                     (console p ++ [line]) (process_pid p)).

Definition push_trace (t : trace_obj) : M Process unit :=
  modify (fun p => mkProcess (traceEvents p ++ [t]) (released p)
                     (console p) (process_pid p)).

(** [PtiSettings::DeleteBuffer]; deleting the null pointer does nothing. *)
Definition DeleteBuffer (buffer : Z) : M Process unit :=
  if buffer =? nullptr then ret tt
  else modify (fun p => mkProcess (traceEvents p) (released p ++ [buffer])
                          (console p) (process_pid p)).

Definition duration (rec : pti_view_record) : Z :=
  u64 (_end_timestamp rec - _start_timestamp rec).

(** [PtiSettings::AddRecord] *)
Definition AddRecord (view : pti_view_kind) (base : option pti_view_record)
  : M Process unit :=
  match base with
  | None => ret tt
  | Some rec =>
      p <~ get ;;
      match view with
      | PTI_VIEW_INVALID => fail Thrown
      | PTI_VIEW_SYCL_RUNTIME_CALLS =>
          push_trace (mkTrace "X" (_process_id rec) (_thread_id rec) (_name rec)
            (_start_timestamp rec) (duration rec)
            [("correlation_id"%string, _correlation_id rec)])
      | PTI_VIEW_DEVICE_GPU_KERNEL =>
          push_trace (mkTrace "X" (process_pid p) (_thread_id rec) (_name rec)
            (_start_timestamp rec) (duration rec)
            [("id"%string, _kernel_id rec);
             ("correlation_id"%string, _correlation_id rec)])
      | PTI_VIEW_DEVICE_GPU_MEM_COPY =>
          push_trace (mkTrace "X" (process_pid p) (_thread_id rec) (_name rec)
            (_start_timestamp rec) (duration rec)
            [("id"%string, _mem_op_id rec);
             ("correlation_id"%string, _correlation_id rec);
             ("bytes_copied"%string, _bytes rec)])
      | PTI_VIEW_DEVICE_GPU_MEM_FILL =>
          push_trace (mkTrace "X" (process_pid p) (_thread_id rec) (_name rec)
            (_start_timestamp rec) (duration rec)
            [("id"%string, _mem_op_id rec);
             ("correlation_id"%string, _correlation_id rec);
             ("value_for_set"%string, _value_for_set rec);
             ("bytes_copied"%string, _bytes rec)])
      | _ => ret tt
      end
  end.

(** The [while (true)] loop of [BufferReturned] over the decoded
    sequence. *)
Fixpoint drain (recs : list pti_view_record) (last : decode_end)
  : M Process unit :=
  match recs with
  | [] =>
      match last with
      | PTI_STATUS_END_OF_BUFFER => print "Reached End of buffer"
      | PTI_BAD_STATUS _ => print "bad record found"
      end
  | rec :: rest =>
      AddRecord (_view_kind rec) (Some rec) ;;; drain rest last
  end.

Definition BufferReturned (decode : decoder)
    (buffer buf_size valid_buf_size : Z) : M Process unit :=
  print "Buffer returned" ;;;
  if (buffer =? nullptr) || (valid_buf_size =? 0) || (buf_size =? 0)
  then (if negb (valid_buf_size =? 0) then DeleteBuffer buffer else ret tt)
  else (let '(recs, last) := decode buffer valid_buf_size in
        drain recs last ;;; DeleteBuffer buffer).

End PtiAdapter.

(** ** Notions the statements use *)

(** The instances of the in-flight table that carry a given event. *)
Definition instances_of_event (ev : Z) (l : list ZeKernelInstance)
  : list ZeKernelInstance :=
  List.filter (fun it => event it =? ev) l.

(** The instances a poll leaves behind: those whose signal is not ready. *)
Definition not_ready (drv : ZeDriver) (l : list ZeKernelInstance)
  : list ZeKernelInstance :=
  List.filter (fun it => is_not_ready (zeEventQueryStatus drv (event it))) l.

(** The aggregate a sequence of durations should give when nothing
    wraps: first duration, then the running sums and extrema. *)
Definition sum_durations (ds : list (Z * Z)) : Z :=
  foldr (fun d acc => fst d + acc) 0 ds.

(** Calls [AddKernelInfo] for one name with each (duration, width) in turn. *)
Fixpoint add_all (nm : string) (ds : list (Z * Z)) : Cb unit :=
  match ds with
  | [] => ret tt
  | d :: rest => AddKernelInfo nm (fst d) (snd d) ;;; add_all nm rest
  end.

(** ** Concrete inputs used by the examples *)

(** A driver whose events are all signalled and carry the timestamp pair
    [ts]; every call succeeds. *)
Definition driver_ready (ts : Z * Z) : ZeDriver :=
  mkDriver (fun _ => ZE_RESULT_SUCCESS) (fun _ => (ZE_RESULT_SUCCESS, ts))
           (fun _ => (ZE_RESULT_SUCCESS, 700)) (fun _ => (ZE_RESULT_SUCCESS, 800))
           (fun _ => ZE_RESULT_SUCCESS) (fun _ => ZE_RESULT_SUCCESS).

(** A driver whose events are all still pending. *)
Definition driver_pending : ZeDriver :=
  mkDriver (fun _ => ZE_RESULT_NOT_READY) (fun _ => (ZE_RESULT_NOT_READY, (0, 0)))
           (fun _ => (ZE_RESULT_SUCCESS, 700)) (fun _ => (ZE_RESULT_SUCCESS, 800))
           (fun _ => ZE_RESULT_SUCCESS) (fun _ => ZE_RESULT_SUCCESS).

(** A fresh collector with the given timer frequency. *)
Definition fresh_collector (freq : Z) : ZeKernelCollector :=
  mkCollector freq ∅ [] [] ∅ [].

(** A launch of kernel [gemm] that signals the user's event 41. *)
Definition gemm_instance : ZeKernelInstance := mkInstance "gemm" 16 nullptr 41.

(** The state [AddKernelInfo] leaves for a name that passes the guard. *)
Definition info_after (nm : string) (time width : Z) (c : ZeKernelCollector)
  : ZeKernelCollector :=
  match kernel_info_map_ c !! nm with
  | None => set_info_map (<[nm := mkInfo time time time 1 width]> (kernel_info_map_ c)) c
  | Some kernel =>
      set_info_map (<[nm := update_info kernel time width]> (kernel_info_map_ c)) c
  end.

(** The entry after a run of further updates. *)
Definition fold_info (e : ZeKernelInfo) (ds : list (Z * Z)) : ZeKernelInfo :=
  fold_left (fun acc d => update_info acc (fst d) (snd d)) ds e.

(** Durations are [uint64_t] values. *)
Definition durations_in_range (ds : list (Z * Z)) : Prop :=
  Forall (fun d => 0 <= fst d < 2 ^ 64) ds.

(** The instances a poll resolves: those whose signal is ready. *)
Definition ready (drv : ZeDriver) (l : list ZeKernelInstance)
  : list ZeKernelInstance :=
  List.filter (fun it => is_success (zeEventQueryStatus drv (event it))) l.

(** What one poll can go through without stopping: a signal that is
    not null and answers ready or not ready. *)
Definition pollable (drv : ZeDriver) (it : ZeKernelInstance) : Prop :=
  event it <> nullptr
  /\ (zeEventQueryStatus drv (event it) = ZE_RESULT_NOT_READY
      \/ zeEventQueryStatus drv (event it) = ZE_RESULT_SUCCESS).

(** A driver for which event 42 is signalled with the timestamp pair
    (100, 200) and every other event is still pending. *)
Definition driver_mixed : ZeDriver :=
  mkDriver (fun ev => if ev =? 42 then ZE_RESULT_SUCCESS else ZE_RESULT_NOT_READY)
           (fun ev => if ev =? 42 then (ZE_RESULT_SUCCESS, (100, 200))
                      else (ZE_RESULT_NOT_READY, (0, 0)))
           (fun _ => (ZE_RESULT_SUCCESS, 700)) (fun _ => (ZE_RESULT_SUCCESS, 800))
           (fun _ => ZE_RESULT_SUCCESS) (fun _ => ZE_RESULT_SUCCESS).

(** A launch of kernel [copy] that signals the user's event 42. *)
Definition copy_instance : ZeKernelInstance := mkInstance "copy" 8 nullptr 42.

(** A collector at 1 GHz with both launches in flight on command list 7,
    and what a synchronize under [driver_mixed] makes of it. *)
Definition two_in_flight : ZeKernelCollector :=
  mkCollector 1000000000 ∅ [] [gemm_instance; copy_instance] {[ 7 := 3 ]} [].

Definition one_resolved : ZeKernelCollector :=
  mkCollector 1000000000 {[ "copy"%string := mkInfo 100 100 100 1 8 ]}
              [mkInterval "copy" 100 200] [gemm_instance] {[ 7 := 3 ]} [].

(** The states of a short run on command list 7 (context 3): the list is
    created, [gemm] is launched on it with the user's event 41, the list
    is destroyed while event 41 is pending, and event 41 is destroyed
    later, once it carries the timestamp pair (100, 200). *)
Definition after_create : ZeKernelCollector :=
  mkCollector 1000000000 ∅ [] [] {[ 7 := 3 ]} [].

Definition after_launch : ZeKernelCollector :=
  mkCollector 1000000000 ∅ [] [gemm_instance] {[ 7 := 3 ]} [].

Definition after_destroy : ZeKernelCollector :=
  mkCollector 1000000000 ∅ [] [gemm_instance] ∅ [].

Definition after_late_signal : ZeKernelCollector :=
  mkCollector 1000000000 {[ "gemm"%string := mkInfo 100 100 100 1 16 ]}
              [mkInterval "gemm" 100 200] [] ∅ [].

(** A launch on list 7 without a signal of the caller: the collector
    creates pool 700 and event 800 and owns them. *)
Definition owned_instance : ZeKernelInstance := mkInstance "gemm" 16 700 800.


(** A collector at a one-hertz timer with two launches of [gemm] in
    flight, and the same collector after a synchronize that found both
    signalled with the timestamp pair (0, 18446744073). *)
Definition slow_timer_in_flight : ZeKernelCollector :=
  mkCollector 1 ∅ [] [gemm_instance; mkInstance "gemm" 16 nullptr 43] ∅ [].

Definition slow_timer_resolved : ZeKernelCollector :=
  mkCollector 1
    {[ "gemm"%string :=
         mkInfo 18446744072290448384 18446744073000000000
                18446744073000000000 2 16 ]}
    [mkInterval "gemm" 0 18446744073000000000;
     mkInterval "gemm" 0 18446744073000000000]
    [] ∅ [].

(** ** The hooks of [EnableTracing] as events *)

Definition OnExitCommandListAppendLaunchCooperativeKernel (drv : ZeDriver)
    (signal_event command_list : Z) (instance_data : option ZeKernelInstance)
    (result : ze_result_t) : Cb unit :=
  PTI_ASSERT (negb (signal_event =? nullptr)) ;;;
  OnExitKernelAppend drv command_list instance_data result.

Definition OnExitCommandListAppendLaunchKernelIndirect (drv : ZeDriver)
    (signal_event command_list : Z) (instance_data : option ZeKernelInstance)
    (result : ze_result_t) : Cb unit :=
  PTI_ASSERT (negb (signal_event =? nullptr)) ;;;
  OnExitKernelAppend drv command_list instance_data result.

(** The three kinds of launch [EnableTracing] hooks; their prologues all
    call [OnEnterKernelAppend]. *)
Inductive LaunchKind := LaunchKernel | LaunchCooperativeKernel | LaunchKernelIndirect.

Definition launch_epilogue (k : LaunchKind) :=
  match k with
  | LaunchKernel => OnExitCommandListAppendLaunchKernel
  | LaunchCooperativeKernel => OnExitCommandListAppendLaunchCooperativeKernel
  | LaunchKernelIndirect => OnExitCommandListAppendLaunchKernelIndirect
  end.

(** One traced driver call that reaches the collector: the call with the
    arguments the hooks read and the result the driver gave.  For a
    launch [nm] and [width] are what [GetKernelName] and
    [GetKernelMaxSubgroupSize] gave for the kernel handle. *)
Inductive Callback :=
| EventDestroy (hEvent : Z)
| EventHostReset (hEvent : Z)
| AppendLaunch (k : LaunchKind) (nm : string) (width signal_event command_list : Z)
               (result : ze_result_t)
| CommandListCreate (command_list context : Z) (result : ze_result_t)
| CommandListCreateImmediate (command_list context : Z) (result : ze_result_t)
| CommandListDestroy (command_list : Z) (result : ze_result_t)
| CommandQueueSynchronize (result : ze_result_t)
| CommandQueueDestroy (result : ze_result_t).

(** The table of [EnableTracing]: which hooks run for which call. *)
Definition dispatch (drv : ZeDriver) (cb : Callback) : Cb unit :=
  match cb with
  | EventDestroy hEvent => OnEnterEventDestroy drv hEvent
  | EventHostReset hEvent => OnEnterEventHostReset drv hEvent
  | AppendLaunch k nm width signal_event command_list result =>
      r <~ OnEnterKernelAppend drv nm width signal_event command_list ;;
      launch_epilogue k drv (fst r) command_list (snd r) result
  | CommandListCreate command_list context result =>
      OnExitCommandListCreate command_list context result
  | CommandListCreateImmediate command_list context result =>
      OnExitCommandListCreateImmediate command_list context result
  | CommandListDestroy command_list result =>
      OnExitCommandListDestroy drv command_list result
  | CommandQueueSynchronize result => OnExitCommandQueueSynchronize drv result
  | CommandQueueDestroy result => OnExitCommandQueueDestroy drv result
  end.

(** A traced program: the calls in order, each with the answers the
    driver gives while its hooks run.  The calls are taken one after the
    other: the hooks of one call are not interleaved with those of
    another. *)
Fixpoint run_trace (t : list (ZeDriver * Callback)) : Cb unit :=
  match t with
  | [] => ret tt
  | (drv, cb) :: rest => dispatch drv cb ;;; run_trace rest
  end.

(** The intervals recorded under a name and their durations. *)
Definition intervals_of (nm : string) (l : list ZeKernelInterval)
  : list ZeKernelInterval :=
  List.filter (fun iv => String.eqb (interval_name iv) nm) l.

Definition interval_duration (iv : ZeKernelInterval) : Z :=
  interval_end iv - interval_start iv.

Definition durations_of (nm : string) (l : list ZeKernelInterval) : list Z :=
  map interval_duration (intervals_of nm l).

Definition sum_list (l : list Z) : Z := fold_right Z.add 0 l.

(** ** Ordering and printing the aggregate *)

(** [ZeKernelInfo::operator>] *)
Definition ZeKernelInfo_gt (l r : ZeKernelInfo) : bool :=
  if negb (total_time l =? total_time r)
  then total_time r <? total_time l
  else call_count r <? call_count l.

(** [ZeKernelInfo::operator!=] *)
Definition ZeKernelInfo_ne (l r : ZeKernelInfo) : bool :=
  if total_time l =? total_time r
  then negb (call_count l =? call_count r)
  else true.

(** The average of a table row, [duration / call_count] in
    [PrintKernelsTable]. *)
Definition avg_duration {S} (e : ZeKernelInfo) : M S Z :=
  udiv (total_time e) (call_count e).

(** The loop of [LzCollector::PrintResults] and the first loop of
    [PrintKernelsTable]: the 64-bit sum of the totals. *)
Definition total_duration (m : gmap string ZeKernelInfo) : Z :=
  map_fold (fun _ e acc => u64 (acc + total_time e)) 0 m.

(** An interval as [AddKernelInterval] accepts it, within 64 bits. *)
Definition interval_ok (iv : ZeKernelInterval) : Prop :=
  interval_name iv <> EmptyString
  /\ 0 <= interval_start iv /\ interval_start iv < interval_end iv
  /\ interval_end iv < 2 ^ 64.

(** An instance the poll can take: named, with a signal. *)
Definition instance_ok (it : ZeKernelInstance) : Prop :=
  name it <> EmptyString /\ event it <> nullptr.

(** The aggregate entry of a name against the intervals of that name. *)
Definition entry_agrees (o : option ZeKernelInfo) (ds : list Z) : Prop :=
  match o with
  | None => ds = []
  | Some e =>
      ds <> []
      /\ call_count e = u64 (Z.of_nat (length ds))
      /\ total_time e = u64 (sum_list ds)
      /\ In (min_time e) ds /\ In (max_time e) ds
      /\ Forall (fun d => min_time e <= d <= max_time e) ds
  end.

(** What holds of every collector the hooks can build. *)
Record collector_inv (c : ZeKernelCollector) : Prop := mkInv {
  inv_frequency : 0 <= timer_frequency_ c < 2 ^ 64;
  inv_intervals : Forall interval_ok (kernel_interval_list_ c);
  inv_instances : Forall instance_ok (kernel_instance_list_ c);
  inv_agree : forall nm,
      entry_agrees (kernel_info_map_ c !! nm)
                   (durations_of nm (kernel_interval_list_ c));
  inv_lists : forall command_list context,
      command_list_map_ c !! command_list = Some context ->
      command_list <> nullptr /\ context <> nullptr;
  inv_total :
      total_duration (kernel_info_map_ c)
      = u64 (sum_list (map interval_duration (kernel_interval_list_ c)))
}.

(** The launches of a trace whose driver call succeeded. *)
Definition launched (t : list (ZeDriver * Callback)) : nat :=
  length (List.filter
            (fun dc => match snd dc with
                       | AppendLaunch _ _ _ _ _ result => is_success result
                       | _ => false
                       end) t).

(** The command-list map a trace leads to: a successful create enters
    the list, a successful destroy removes it. *)
Fixpoint lists_after (t : list (ZeDriver * Callback)) (m : gmap Z Z) : gmap Z Z :=
  match t with
  | [] => m
  | (_, CommandListCreate command_list context result) :: rest
  | (_, CommandListCreateImmediate command_list context result) :: rest =>
      lists_after rest
        (if is_success result then <[command_list := context]> m else m)
  | (_, CommandListDestroy command_list result) :: rest =>
      lists_after rest (if is_success result then delete command_list m else m)
  | _ :: rest => lists_after rest m
  end.

(** ** Signals the collector owns *)

Definition is_owned (it : ZeKernelInstance) : bool :=
  negb (event_pool it =? nullptr).

(** The driver calls that give an owned signal back. *)
Definition teardown (it : ZeKernelInstance) : list ZeCall :=
  if is_owned it
  then [CallEventDestroy (event it); CallEventPoolDestroy (event_pool it)]
  else [].

Definition owned (l : list ZeKernelInstance) : Z :=
  Z.of_nat (length (List.filter is_owned l)).

Definition count_calls (p : ZeCall -> bool) (log : list ZeCall) : Z :=
  Z.of_nat (length (List.filter p log)).

Definition is_pool_create (k : ZeCall) : bool :=
  match k with CallEventPoolCreate _ => true | _ => false end.
Definition is_pool_destroy (k : ZeCall) : bool :=
  match k with CallEventPoolDestroy _ => true | _ => false end.
Definition is_event_create (k : ZeCall) : bool :=
  match k with CallEventCreate _ => true | _ => false end.
Definition is_event_destroy (k : ZeCall) : bool :=
  match k with CallEventDestroy _ => true | _ => false end.

(** Pools and events the collector has created and not yet destroyed,
    by its own log. *)
Definition open_pools (log : list ZeCall) : Z :=
  count_calls is_pool_create log - count_calls is_pool_destroy log.
Definition open_events (log : list ZeCall) : Z :=
  count_calls is_event_create log - count_calls is_event_destroy log.

(** A driver that hands out a pool that is not null whenever the pool
    creation succeeds. *)
Definition pools_not_null (drv : ZeDriver) : Prop :=
  forall context, fst (zeEventPoolCreate drv context) = ZE_RESULT_SUCCESS ->
                  snd (zeEventPoolCreate drv context) <> nullptr.

(** What a pass over part of the table keeps: the invariant, the
    command-list map, the number of instances and intervals taken
    together, and the balance of owned signals. *)
Definition pass_keeps (c c' : ZeKernelCollector) (l l' : list ZeKernelInstance)
  : Prop :=
  collector_inv c'
  /\ kernel_instance_list_ c' = kernel_instance_list_ c
  /\ command_list_map_ c' = command_list_map_ c
  /\ (length (kernel_interval_list_ c') + length l'
      = length (kernel_interval_list_ c) + length l)%nat
  /\ open_pools (driver_log c') - owned l' = open_pools (driver_log c) - owned l
  /\ open_events (driver_log c') - owned l' = open_events (driver_log c) - owned l
  /\ (forall P : ZeKernelInstance -> Prop, Forall P l -> Forall P l').

(** What one hook keeps; [n] is 1 for a launch whose driver call
    succeeded and 0 otherwise, [m] the command-list map afterwards.  The
    balance of owned signals needs a driver whose pools are not null. *)
Definition step_keeps (drv : ZeDriver) (c c' : ZeKernelCollector) (n : nat)
    (m : gmap Z Z) : Prop :=
  collector_inv c'
  /\ command_list_map_ c' = m
  /\ (length (kernel_interval_list_ c') + length (kernel_instance_list_ c')
      = length (kernel_interval_list_ c) + length (kernel_instance_list_ c) + n)%nat
  /\ (pools_not_null drv ->
      open_pools (driver_log c') - owned (kernel_instance_list_ c')
        = open_pools (driver_log c) - owned (kernel_instance_list_ c)
      /\ open_events (driver_log c') - owned (kernel_instance_list_ c')
         = open_events (driver_log c) - owned (kernel_instance_list_ c)).

(** The collector with [log] appended to its driver log. *)
Definition with_log (log : list ZeCall) (c : ZeKernelCollector) : ZeKernelCollector :=
  mkCollector (timer_frequency_ c) (kernel_info_map_ c) (kernel_interval_list_ c)
    (kernel_instance_list_ c) (command_list_map_ c) (driver_log c ++ log).

(** One step of [launched] and of [lists_after]. *)
Definition launch_count (cb : Callback) : nat :=
  match cb with
  | AppendLaunch _ _ _ _ _ result => if is_success result then 1 else 0
  | _ => 0
  end.

Definition lists_step (cb : Callback) (m : gmap Z Z) : gmap Z Z :=
  match cb with
  | CommandListCreate command_list context result
  | CommandListCreateImmediate command_list context result =>
      if is_success result then <[command_list := context]> m else m
  | CommandListDestroy command_list result =>
      if is_success result then delete command_list m else m
  | _ => m
  end.

(** A traced program: list 7 is created in context 3, [gemm] is launched
    on it once with the caller's event 41 and once without a signal (the
    collector creates pool 700 and event 800), and a queue synchronize
    finds both signalled with the timestamp pair (100, 200). *)
Definition sample_trace : list (ZeDriver * Callback) :=
  [(driver_pending, CommandListCreate 7 3 ZE_RESULT_SUCCESS);
   (driver_pending, AppendLaunch LaunchKernel "gemm" 16 41 7 ZE_RESULT_SUCCESS);
   (driver_pending,
    AppendLaunch LaunchCooperativeKernel "gemm" 16 nullptr 7 ZE_RESULT_SUCCESS);
   (driver_ready (100, 200), CommandQueueSynchronize ZE_RESULT_SUCCESS)].

Definition sample_final : ZeKernelCollector :=
  mkCollector 1000000000
    {[ "gemm"%string := mkInfo 200 100 100 2 16 ]}
    [mkInterval "gemm" 100 200; mkInterval "gemm" 100 200]
    [] {[ 7 := 3 ]}
    [CallEventPoolCreate 3; CallEventCreate 700;
     CallEventDestroy 800; CallEventPoolDestroy 700].

(** ** Printing the results ([LzCollector::PrintResults]) *)

(** What goes to [std::cerr]: text, an unsigned number, a line end, or
    the table [PrintKernelsTable] prints for a map (its order and layout
    depend on [utils::Comparator] and on stream formatting, which are
    not part of the sources at hand). *)
Inductive Printed :=
| Text (s : string)
| Number (n : Z)
| Endl
| KernelsTable (m : gmap string ZeKernelInfo).

Definition cerr (items : list Printed) : M (list Printed) unit :=
  modify (fun out => out ++ items).

(** [handle_] is the collector or null. *)
Definition PrintResults (handle_ : option ZeKernelCollector)
  : M (list Printed) unit :=
  match handle_ with
  | None => fail Thrown
  | Some collector =>
      let kernel_info_map := kernel_info_map_ collector in
      if bool_decide (size kernel_info_map = 0%nat) then ret tt
      else
        let total := total_duration kernel_info_map in
        cerr [Endl; Text "=== Device Timing Results: ==="; Endl; Endl;
              Text "Total Device Time (ns): "; Number total; Endl; Endl] ;;;
        (if 0 <? total then cerr [KernelsTable kernel_info_map] else ret tt) ;;;
        cerr [Endl]
  end.

(** ** The event-pool hooks *)

Record ze_event_pool_desc_t := mkPoolDesc {
  stype : Z;
  pNext : Z;
  flags : Z;
  count : Z
}.

(** The three flag values of [ze_event_pool_flag_t] the hooks use; they
    come from [ze_api.h], which is not part of the sources at hand. *)
Record ZeEventPoolFlags := mkPoolFlags {
  ZE_EVENT_POOL_FLAG_HOST_VISIBLE : Z;
  ZE_EVENT_POOL_FLAG_IPC : Z;
  ZE_EVENT_POOL_FLAG_KERNEL_TIMESTAMP : Z
}.

Definition set_flags (f : Z) (d : ze_event_pool_desc_t) : ze_event_pool_desc_t :=
  mkPoolDesc (stype d) (pNext d) f (count d).

(** [OnEnterEventPoolCreate] of the kernel collector.  The state is the
    number of descriptors allocated by the hooks and not yet deleted;
    the result is the descriptor [*(params->pdesc)] points to afterwards
    and the content of [*instance_data].  Both flag assignments start
    from [desc->flags], as in the source. *)
Definition OnEnterEventPoolCreate (fl : ZeEventPoolFlags)
    (pdesc : option ze_event_pool_desc_t)
  : M nat (option ze_event_pool_desc_t * option ze_event_pool_desc_t) :=
  match pdesc with
  | None => ret (pdesc, None)
  | Some desc =>
      if negb (Z.land (flags desc) (ZE_EVENT_POOL_FLAG_IPC fl) =? 0)
      then ret (pdesc, None)
      else
        modify S ;;;
        let profiling_desc := mkPoolDesc (stype desc) (pNext desc) 0 0 in
        let profiling_desc :=
          set_flags (Z.lor (flags desc) (ZE_EVENT_POOL_FLAG_KERNEL_TIMESTAMP fl))
                    profiling_desc in
        let profiling_desc :=
          set_flags (Z.lor (flags desc) (ZE_EVENT_POOL_FLAG_HOST_VISIBLE fl))
                    profiling_desc in
        let profiling_desc :=
          mkPoolDesc (stype profiling_desc) (pNext profiling_desc)
                     (flags profiling_desc) (count desc) in
        ret (Some profiling_desc, Some profiling_desc)
  end.

Definition OnExitEventPoolCreate (instance_data : option ze_event_pool_desc_t)
  : M nat unit :=
  match instance_data with
  | Some _ => modify Nat.pred
  | None => ret tt
  end.

(** One traced [zeEventPoolCreate]: prologue, driver call, epilogue with
    the slot the prologue filled. *)
Definition traced_pool_create (fl : ZeEventPoolFlags)
    (pdesc : option ze_event_pool_desc_t)
  : M nat (option ze_event_pool_desc_t) :=
  r <~ OnEnterEventPoolCreate fl pdesc ;;
  OnExitEventPoolCreate (snd r) ;;;
  ret (fst r).

Definition level_zero_flags : ZeEventPoolFlags := mkPoolFlags 1 2 4.

(** ** The trace adapter: records kept, activation, clock *)

(** The kinds [AddRecord] turns into a trace event. *)
Definition is_traced_kind (k : PtiAdapter.pti_view_kind) : bool :=
  match k with
  | PtiAdapter.PTI_VIEW_DEVICE_GPU_KERNEL
  | PtiAdapter.PTI_VIEW_SYCL_RUNTIME_CALLS
  | PtiAdapter.PTI_VIEW_DEVICE_GPU_MEM_COPY
  | PtiAdapter.PTI_VIEW_DEVICE_GPU_MEM_FILL => true
  | _ => false
  end.

Definition is_invalid_kind (k : PtiAdapter.pti_view_kind) : bool :=
  match k with PtiAdapter.PTI_VIEW_INVALID => true | _ => false end.

(** What a trace event shows of its record. *)
Definition event_summary (ev : PtiAdapter.trace_obj) : string * string * Z * Z :=
  (PtiAdapter.ph ev, PtiAdapter.trace_name ev, PtiAdapter.ts ev, PtiAdapter.dur ev).

Definition record_summary (rec : PtiAdapter.pti_view_record)
  : string * string * Z * Z :=
  ("X"%string, PtiAdapter._name rec, PtiAdapter._start_timestamp rec,
   u64 (PtiAdapter._end_timestamp rec - PtiAdapter._start_timestamp rec)).

Definition decode_line (last : PtiAdapter.decode_end) : string :=
  match last with
  | PtiAdapter.PTI_STATUS_END_OF_BUFFER => "Reached End of buffer"
  | PtiAdapter.PTI_BAD_STATUS _ => "bad record found"
  end.





(** Calls into the PTI library, logged in order; the library answers
    with success or an error code. *)
Inductive PtiCall :=
| CallViewSetCallbacks
| CallViewEnable (k : PtiAdapter.pti_view_kind)
| CallViewDisable (k : PtiAdapter.pti_view_kind)
| CallFlushAllViews.

Inductive pti_result :=
| PTI_SUCCESS
| PTI_ERROR (code : Z).

Definition CheckPtiReturnValue {S} (result : pti_result) : M S unit :=
  match result with
  | PTI_SUCCESS => ret tt
  | PTI_ERROR _ => fail Thrown
  end.

Definition pti_call (pti : PtiCall -> pti_result) (k : PtiCall)
  : M (list PtiCall) unit :=
  modify (fun log => log ++ [k]) ;;;
  CheckPtiReturnValue (pti k).

(** The fold expressions of [EnableViews] and [DisableViews]. *)
Fixpoint EnableViews (pti : PtiCall -> pti_result)
    (view_kinds : list PtiAdapter.pti_view_kind) : M (list PtiCall) unit :=
  match view_kinds with
  | [] => ret tt
  | k :: rest => pti_call pti (CallViewEnable k) ;;; EnableViews pti rest
  end.

Fixpoint DisableViews (pti : PtiCall -> pti_result)
    (view_kinds : list PtiAdapter.pti_view_kind) : M (list PtiCall) unit :=
  match view_kinds with
  | [] => ret tt
  | k :: rest => pti_call pti (CallViewDisable k) ;;; DisableViews pti rest
  end.

Definition tracked_views : list PtiAdapter.pti_view_kind :=
  [PtiAdapter.PTI_VIEW_DEVICE_GPU_KERNEL; PtiAdapter.PTI_VIEW_DEVICE_GPU_MEM_COPY;
   PtiAdapter.PTI_VIEW_DEVICE_GPU_MEM_FILL; PtiAdapter.PTI_VIEW_SYCL_RUNTIME_CALLS].


Definition TracingLifeTimeTracker_dtor (pti : PtiCall -> pti_result)
  : M (list PtiCall) unit :=
  DisableViews pti tracked_views ;;;
  pti_call pti CallFlushAllViews.





(** [utilities::kNsecInSec] and [utilities::GetTime]; [clock_gettime]
    gives its status and the pair [(tv_sec, tv_nsec)].  The sum is
    computed in [long]; the theorems stay where it does not overflow. *)
Definition kNsecInSec : Z := 1000000000.

Definition GetTime (clock_gettime : Z -> Z * (Z * Z)) (id : Z) : Outcome Z :=
  let '(status, (tv_sec, tv_nsec)) := clock_gettime id in
  if status <? 0 then Fatal Thrown
  else Done (u64 (tv_sec * kNsecInSec + tv_nsec)).

(** A buffer with a kernel record, a record of a kind the adapter does
    not trace, and a memory copy; and a buffer with an invalid record. *)
Definition sample_records : list PtiAdapter.pti_view_record :=
  [PtiAdapter.mkRecord PtiAdapter.PTI_VIEW_DEVICE_GPU_KERNEL 0 5 "gemm" 100 250 9 1 0 0 0;
   PtiAdapter.mkRecord PtiAdapter.PTI_VIEW_LEVEL_ZERO_CALLS 0 5 "zeInit" 10 20 0 0 0 0 0;
   PtiAdapter.mkRecord PtiAdapter.PTI_VIEW_DEVICE_GPU_MEM_COPY 0 5 "copy" 300 340 9 0 2 64 0].

Definition sample_decoder : PtiAdapter.decoder :=
  fun _ _ => (sample_records, PtiAdapter.PTI_STATUS_END_OF_BUFFER).

Definition invalid_record : PtiAdapter.pti_view_record :=
  PtiAdapter.mkRecord PtiAdapter.PTI_VIEW_INVALID 0 0 EmptyString 0 0 0 0 0 0 0.

Definition invalid_decoder : PtiAdapter.decoder :=
  fun _ _ => (sample_records ++ [invalid_record], PtiAdapter.PTI_STATUS_END_OF_BUFFER).

Definition sample_process : PtiAdapter.Process := PtiAdapter.mkProcess [] [] [] 77.


Definition pti_no_fill : PtiCall -> pti_result :=
  fun k => match k with
           | CallViewEnable PtiAdapter.PTI_VIEW_DEVICE_GPU_MEM_FILL => PTI_ERROR 1
           | _ => PTI_SUCCESS
           end.

(** ** The sample's buffer store and argument handling ([dpc_gemm]) *)

(** [BufferStore]: the buffers it owns, the kernel records it keeps and
    what it wrote to [std::cerr]. *)
Record BufferStore := mkStore {
  buffer_store_ : list Z;
  kernel_record_store_ : list PtiAdapter.pti_view_record;
  store_cerr : list string
}.

Definition store_print (line : string) : M BufferStore unit :=
  modify (fun s => mkStore (buffer_store_ s) (kernel_record_store_ s)
                     (store_cerr s ++ [line])).

Definition keep_record (rec : PtiAdapter.pti_view_record) : M BufferStore unit :=
  modify (fun s => mkStore (buffer_store_ s) (kernel_record_store_ s ++ [rec])
                     (store_cerr s)).

(** The loop of [BufferStore::ParseBuffer] over the decoded records. *)
Fixpoint parse_records (recs : list PtiAdapter.pti_view_record)
    (last : PtiAdapter.decode_end) : M BufferStore unit :=
  match recs with
  | [] =>
      match last with
      | PtiAdapter.PTI_STATUS_END_OF_BUFFER => ret tt
      | PtiAdapter.PTI_BAD_STATUS _ =>
          store_print "Found Error Parsing Records from PTI"
      end
  | rec :: rest =>
      match PtiAdapter._view_kind rec with
      | PtiAdapter.PTI_VIEW_DEVICE_GPU_KERNEL => keep_record rec
      | _ => ret tt
      end ;;;
      parse_records rest last
  end.

Definition ParseBuffer (decode : PtiAdapter.decoder) (buf buf_size valid_size : Z)
  : M BufferStore unit :=
  if (buf =? nullptr) || (valid_size =? 0) || (buf_size =? 0)
  then store_print "Received empty buffer"
  else (let '(recs, last) := decode buf valid_size in parse_records recs last).

Definition is_kernel_record (rec : PtiAdapter.pti_view_record) : bool :=
  match PtiAdapter._view_kind rec with
  | PtiAdapter.PTI_VIEW_DEVICE_GPU_KERNEL => true
  | _ => false
  end.

Definition max_size : Z := 8192.
Definition min_size : Z := 32.

(** The size and the repeat count [main] takes from what [std::stoul]
    gave for an argument; [temp] is an [unsigned]. *)
Definition size_of_argument (parsed : Z) : Z :=
  let temp := parsed mod 2 ^ 32 in
  if temp <? min_size then min_size
  else if max_size <? temp then max_size else temp.

Definition repeat_count_of_argument (parsed : Z) : Z :=
  let temp := parsed mod 2 ^ 32 in
  if temp <? 1 then 1 else temp.

(** ** The view collector's command-list metadata and tick helpers *)

Record CommandListMetaData := mkMeta {
  ctx : Z;
  dev : Z;
  immediate : bool
}.

(** [StoreCommandListMetadata]: [emplace] leaves an entry that is there. *)
Definition StoreCommandListMetadata (list_ ctx_ dev_ : Z) (immediate_ : bool)
    (m : gmap Z CommandListMetaData) : gmap Z CommandListMetaData :=
  match m !! list_ with
  | Some _ => m
  | None => <[list_ := mkMeta ctx_ dev_ immediate_]> m
  end.

Definition GetCommandListMetadata (list_ : Z) (m : gmap Z CommandListMetaData)
  : CommandListMetaData :=
  match m !! list_ with
  | None => mkMeta nullptr nullptr false
  | Some info => info
  end.

Definition kNSecInSecond : Z := 1000000000.

(** [GetMask]; the shift is defined for fewer than 64 bits. *)
Definition GetMask (valid_bits : Z) : Z :=
  u64 (u64 (Z.shiftl 1 valid_bits) - 1).

Definition NSecPerCycle {S} (timer_resolution : Z) : M S Z :=
  udiv kNSecInSecond timer_resolution.

(** ** Drivers the poll gets along with *)

(** An instance the driver lets the collector resolve: the timestamp
    query succeeds with raw ticks [start < end] whose product with
    [NSEC_IN_SEC] fits 64 bits, and the destroy calls for an owned
    signal succeed. *)
Definition resolvable (drv : ZeDriver) (it : ZeKernelInstance) : Prop :=
  exists start finish,
    zeEventQueryKernelTimestamp drv (event it) = (ZE_RESULT_SUCCESS, (start, finish))
    /\ 0 <= start /\ start < finish /\ finish <= 18446744073
    /\ (is_owned it = true ->
        zeEventDestroy drv (event it) = ZE_RESULT_SUCCESS
        /\ zeEventPoolDestroy drv (event_pool it) = ZE_RESULT_SUCCESS).

Definition answers_well (drv : ZeDriver) (it : ZeKernelInstance) : Prop :=
  zeEventQueryStatus drv (event it) = ZE_RESULT_NOT_READY
  \/ (zeEventQueryStatus drv (event it) = ZE_RESULT_SUCCESS /\ resolvable drv it).

(** ** Waiting for the traced program ([utilities::CheckExitStatus]) *)

(** The status [waitpid] stores, as the [WIFEXITED], [WIFSIGNALED],
    [WIFSTOPPED] and [WIFCONTINUED] macros read it, with the value of
    [WEXITSTATUS], [WTERMSIG] and [WSTOPSIG]. *)
Inductive WaitStatus :=
| Exited (code : Z)
| Signaled (sig : Z)
| Stopped (sig : Z)
| Continued
| Unknown.

(** The lines [CheckExitStatus] writes to [std::cout]. *)
Inductive WaitLine :=
| ProcessedKilledBySignal (sig : Z)
| ProcessedStoppedBySignal (sig : Z)
| ContinuedLine.

(** [utilities::Wait]: a negative result of [waitpid] throws. *)
Definition Wait (report : Z * WaitStatus) : M (list WaitLine) WaitStatus :=
  let '(result, status) := report in
  if result <? 0 then fail Thrown else ret status.

(** The loop of [CheckExitStatus] over the reports [waitpid] gives one
    call after the other; [return_value] starts as 1.  The result is
    [None] when the reports at hand end before the child has exited or
    was killed: the loop is still waiting. *)
Fixpoint check_exit_loop (reports : list (Z * WaitStatus)) (return_value : Z)
  : M (list WaitLine) (option Z) :=
  match reports with
  | [] => ret None
  | report :: rest =>
      status <~ Wait report ;;
      match status with
      | Exited code => ret (Some code)
      | Signaled sig =>
          modify (fun out => out ++ [ProcessedKilledBySignal sig]) ;;;
          ret (Some sig)
      | Stopped sig =>
          modify (fun out => out ++ [ProcessedStoppedBySignal sig]) ;;;
          check_exit_loop rest return_value
      | Continued =>
          modify (fun out => out ++ [ContinuedLine]) ;;;
          check_exit_loop rest return_value
      | Unknown => check_exit_loop rest return_value
      end
  end.

Definition CheckExitStatus (reports : list (Z * WaitStatus))
  : M (list WaitLine) (option Z) :=
  check_exit_loop reports 1.

(** A report that ends the loop, and the value it makes the result. *)
Definition is_terminal (r : Z * WaitStatus) : bool :=
  match snd r with Exited _ | Signaled _ => true | _ => false end.

Definition terminal_value (r : Z * WaitStatus) : Z :=
  match snd r with Exited code => code | Signaled sig => sig | _ => 1 end.

(** The lines a run of reports leaves on [std::cout]. *)
Definition wait_lines (reports : list (Z * WaitStatus)) : list WaitLine :=
  flat_map (fun r => match snd r with
                     | Signaled sig => [ProcessedKilledBySignal sig]
                     | Stopped sig => [ProcessedStoppedBySignal sig]
                     | Continued => [ContinuedLine]
                     | _ => []
                     end) reports.

(** ** Further sample inputs *)




(** The first three calls of [sample_trace], and the collector they lead
    to: both launches are in flight. *)
Definition pending_trace : list (ZeDriver * Callback) :=
  [(driver_pending, CommandListCreate 7 3 ZE_RESULT_SUCCESS);
   (driver_pending, AppendLaunch LaunchKernel "gemm" 16 41 7 ZE_RESULT_SUCCESS);
   (driver_pending,
    AppendLaunch LaunchCooperativeKernel "gemm" 16 nullptr 7 ZE_RESULT_SUCCESS)].

Definition pending_final : ZeKernelCollector :=
  mkCollector 1000000000 ∅ [] [gemm_instance; owned_instance] {[ 7 := 3 ]}
              [CallEventPoolCreate 3; CallEventCreate 700].

(** A table where the signal 42 is carried twice, behind an instance
    with another signal; and the collector after one notification for
    signal 42 under [driver_mixed]. *)
Definition second_copy : ZeKernelInstance := mkInstance "copy2" 8 nullptr 42.

Definition three_in_flight : ZeKernelCollector :=
  mkCollector 1000000000 ∅ [] [gemm_instance; copy_instance; second_copy]
              {[ 7 := 3 ]} [].

Definition first_copy_taken : ZeKernelCollector :=
  mkCollector 1000000000 {[ "copy"%string := mkInfo 100 100 100 1 8 ]}
              [mkInterval "copy" 100 200] [gemm_instance; second_copy]
              {[ 7 := 3 ]} [].

(** * Properties *)

(** ** Arithmetic of the 64-bit wrap-around *)

Lemma u64_small (z : Z) : 0 <= z < 2 ^ 64 -> u64 z = z.
Proof. intros H. unfold u64. apply Z.mod_small. exact H. Qed.

Lemma u64_range (z : Z) : 0 <= u64 z < 2 ^ 64.
Proof. unfold u64. apply Z.mod_pos_bound. lia. Qed.

Lemma udiv_pos {S} (a b : Z) (s : S) : 0 < b -> udiv a b s = Done (a / b, s).
Proof.
  intros Hb. unfold udiv.
  destruct (Z.eqb_spec b 0) as [E | _]; [lia | reflexivity].
Qed.

Lemma ns_bounds (freq ticks : Z) :
  0 < freq -> 0 <= ticks -> 0 <= ticks * NSEC_IN_SEC / freq <= ticks * NSEC_IN_SEC.
Proof.
  intros Hf Ht. unfold NSEC_IN_SEC. split.
  - apply Z.div_pos; lia.
  - apply Z.div_le_upper_bound; nia.
Qed.

(** The overflow branch on ticks that fit 32 bits: nothing wraps. *)
Lemma overflow_branch_exact {S} (freq start finish : Z) (s : S) :
  0 < freq -> 0 <= finish -> finish <= start -> start < 2 ^ 32 ->
  timestamps_to_ns freq start finish s =
    Done ((start * NSEC_IN_SEC / freq,
           (2 ^ 32 + finish) * NSEC_IN_SEC / freq,
           (2 ^ 32 + finish) * NSEC_IN_SEC / freq - start * NSEC_IN_SEC / freq), s).
Proof.
  intros Hf Hfin Hle Hst.
  assert (Hs64 : u64 (start * NSEC_IN_SEC) = start * NSEC_IN_SEC)
    by (apply u64_small; unfold NSEC_IN_SEC; lia).
  assert (He64 : u64 (u64 (2 ^ 32 + finish) * NSEC_IN_SEC)
                 = (2 ^ 32 + finish) * NSEC_IN_SEC).
  { rewrite (u64_small (2 ^ 32 + finish)) by lia.
    apply u64_small; unfold NSEC_IN_SEC; lia. }
  pose proof (ns_bounds freq start Hf ltac:(lia)) as Bs.
  pose proof (ns_bounds freq (2 ^ 32 + finish) Hf ltac:(lia)) as Be.
  assert (Hmono : start * NSEC_IN_SEC / freq
                  <= (2 ^ 32 + finish) * NSEC_IN_SEC / freq)
    by (apply Z.div_le_mono; unfold NSEC_IN_SEC; lia).
  unfold timestamps_to_ns, bind.
  rewrite udiv_pos by exact Hf.
  destruct (Z.ltb_spec start finish) as [Hlt | _]; [lia |].
  unfold PTI_ASSERT.
  destruct (Z.ltb_spec start (2 ^ 32)) as [_ | Hge]; [| lia].
  unfold ret at 1. rewrite udiv_pos by exact Hf.
  unfold ret. rewrite Hs64, He64.
  rewrite u64_small; [reflexivity |].
  unfold NSEC_IN_SEC in *. lia.
Qed.

Lemma overflow_branch_fatal {S} (freq start finish : Z) (s : S) :
  0 < freq -> finish <= start -> 2 ^ 32 <= start ->
  timestamps_to_ns (S := S) freq start finish s = Fatal AssertFailed.
Proof.
  intros Hf Hle Hst. unfold timestamps_to_ns, bind.
  rewrite udiv_pos by exact Hf.
  destruct (Z.ltb_spec start finish) as [Hlt | _]; [lia |].
  unfold PTI_ASSERT.
  destruct (Z.ltb_spec start (2 ^ 32)) as [Hlt | _]; [lia | reflexivity].
Qed.

Lemma plain_branch {S} (freq start finish : Z) (s : S) :
  0 < freq -> start < finish ->
  timestamps_to_ns freq start finish s =
    Done ((u64 (start * NSEC_IN_SEC) / freq,
           u64 (finish * NSEC_IN_SEC) / freq,
           u64 (u64 (finish * NSEC_IN_SEC) / freq
                - u64 (start * NSEC_IN_SEC) / freq)), s).
Proof.
  intros Hf Hlt. unfold timestamps_to_ns, bind.
  rewrite udiv_pos by exact Hf.
  destruct (Z.ltb_spec start finish) as [_ | Hge]; [| lia].
  rewrite udiv_pos by exact Hf. reflexivity.
Qed.

(** What [ProcessInstance] does once the driver has answered: it hands
    the converted pair to the aggregate and to the interval list. *)
Lemma ProcessInstance_unfold (drv : ZeDriver) (it : ZeKernelInstance)
    (c : ZeKernelCollector) (start finish start_ns end_ns time : Z) :
  zeEventQueryStatus drv (event it) = ZE_RESULT_SUCCESS ->
  zeEventQueryKernelTimestamp drv (event it) = (ZE_RESULT_SUCCESS, (start, finish)) ->
  timestamps_to_ns (timer_frequency_ c) start finish c
    = Done ((start_ns, end_ns, time), c) ->
  ProcessInstance drv it c =
    (AddKernelInfo (name it) time (simd_width it) ;;;
     AddKernelInterval (name it) start_ns end_ns ;;;
     release_owned_event drv it) c.
Proof.
  intros Hq Hts Hns. unfold ProcessInstance.
  rewrite Hq, Hts. cbn [is_success PTI_ASSERT].
  unfold bind at 1. unfold ret at 1.
  unfold bind at 1. unfold ret at 1.
  unfold bind at 1. unfold get at 1.
  unfold bind at 1. rewrite Hns. reflexivity.
Qed.

(** ** C2: correction of a wrapped timestamp pair *)

(** C2.  When the raw pair has [end_ticks < start_ticks] and
    [start_ticks < 2^32], the end is taken as [2^32 + end_ticks], both
    ends are converted on their own by the truncating
    [ticks * 10^9 / timer_frequency], and the duration handed to the
    aggregate is [end_ns - start_ns], which is not negative; for
    frequency 10^9, start 4294967290 and end 10 it is 16 ns.  With
    [start_ticks >= 2^32] in that branch the assertion stops the process. *)
Theorem C2_overflow_correction (drv : ZeDriver) (it : ZeKernelInstance)
    (c : ZeKernelCollector) (start finish : Z) :
  0 < timer_frequency_ c ->
  0 <= finish -> finish < start -> start < 2 ^ 32 ->
  zeEventQueryStatus drv (event it) = ZE_RESULT_SUCCESS ->
  zeEventQueryKernelTimestamp drv (event it) = (ZE_RESULT_SUCCESS, (start, finish)) ->
  let freq := timer_frequency_ c in
  let start_ns := start * NSEC_IN_SEC / freq in
  let end_ns := (2 ^ 32 + finish) * NSEC_IN_SEC / freq in
  timestamps_to_ns freq start finish c
    = Done ((start_ns, end_ns, end_ns - start_ns), c)
  /\ ProcessInstance drv it c =
       (AddKernelInfo (name it) (end_ns - start_ns) (simd_width it) ;;;
        AddKernelInterval (name it) start_ns end_ns ;;;
        release_owned_event drv it) c
  /\ 0 <= end_ns - start_ns
  /\ timestamps_to_ns 1000000000 4294967290 10 c
       = Done ((4294967290, 4294967306, 16), c)
  /\ (forall start' finish', finish' <= start' -> 2 ^ 32 <= start' ->
        timestamps_to_ns freq start' finish' c = Fatal AssertFailed).
Proof.
  intros Hf Hfin Hlt Hst Hq Hts freq start_ns end_ns.
  assert (Hex : timestamps_to_ns freq start finish c
                = Done ((start_ns, end_ns, end_ns - start_ns), c))
    by (apply overflow_branch_exact; lia).
  split; [exact Hex |].
  split; [apply (ProcessInstance_unfold drv it c start finish); assumption |].
  split.
  { assert (start * NSEC_IN_SEC / freq <= (2 ^ 32 + finish) * NSEC_IN_SEC / freq)
      by (apply Z.div_le_mono; unfold NSEC_IN_SEC; lia).
    subst start_ns end_ns. lia. }
  split.
  { rewrite overflow_branch_exact by lia. reflexivity. }
  intros start' finish' Hle Hge. apply overflow_branch_fatal; assumption.
Qed.

(** ** C9: an equal timestamp pair *)

Lemma div_add_lower (a b f : Z) : 0 < f -> a / f + b / f <= (a + b) / f.
Proof.
  intros Hf. apply Z.div_le_lower_bound; [exact Hf |].
  pose proof (Z.mul_div_le a f Hf). pose proof (Z.mul_div_le b f Hf). lia.
Qed.


Lemma C2_overflow_correction_witness :
  timestamps_to_ns 1000000000 4294967290 10 (fresh_collector 1000000000)
    = Done ((4294967290, 4294967306, 16), fresh_collector 1000000000).
Proof.
  apply (C2_overflow_correction (driver_ready (4294967290, 10)) gemm_instance
           (fresh_collector 1000000000) 4294967290 10);
    first [reflexivity | simpl; lia].
Defined.



(** ** C6 and C7: the aggregate table *)

Lemma nonempty_true (nm : string) : nm <> EmptyString -> nonempty nm = true.
Proof. destruct nm; [congruence | reflexivity]. Qed.

Lemma AddKernelInfo_done (nm : string) (time width : Z) (c : ZeKernelCollector) :
  nm <> EmptyString ->
  AddKernelInfo nm time width c = Done (tt, info_after nm time width c).
Proof.
  intros Hnm. unfold AddKernelInfo, bind, PTI_ASSERT.
  rewrite (nonempty_true nm Hnm). reflexivity.
Qed.

Lemma AddKernelInfo_empty_name (time width : Z) (c : ZeKernelCollector) :
  AddKernelInfo EmptyString time width c = Fatal AssertFailed.
Proof. reflexivity. Qed.

Lemma info_after_fresh (nm : string) (time width : Z) (c : ZeKernelCollector) :
  kernel_info_map_ c !! nm = None ->
  kernel_info_map_ (info_after nm time width c) !! nm
    = Some (mkInfo time time time 1 width).
Proof.
  intros Hnone. unfold info_after. rewrite Hnone. cbn.
  apply lookup_insert_eq.
Qed.

Lemma info_after_known (nm : string) (time width : Z) (c : ZeKernelCollector)
    (e : ZeKernelInfo) :
  kernel_info_map_ c !! nm = Some e ->
  kernel_info_map_ (info_after nm time width c) !! nm
    = Some (update_info e time width).
Proof.
  intros Hsome. unfold info_after. rewrite Hsome. cbn.
  apply lookup_insert_eq.
Qed.

Lemma info_after_other (nm other : string) (time width : Z)
    (c : ZeKernelCollector) :
  other <> nm ->
  kernel_info_map_ (info_after nm time width c) !! other
    = kernel_info_map_ c !! other.
Proof.
  intros Hne. unfold info_after.
  destruct (kernel_info_map_ c !! nm); cbn; apply lookup_insert_ne; congruence.
Qed.

Lemma info_after_frame (nm : string) (time width : Z) (c : ZeKernelCollector) :
  let c' := info_after nm time width c in
  timer_frequency_ c' = timer_frequency_ c
  /\ kernel_interval_list_ c' = kernel_interval_list_ c
  /\ kernel_instance_list_ c' = kernel_instance_list_ c
  /\ command_list_map_ c' = command_list_map_ c
  /\ driver_log c' = driver_log c.
Proof.
  unfold info_after. destruct (kernel_info_map_ c !! nm); cbn; auto.
Qed.

(** [update_info] field by field. *)
Lemma update_info_fields (e : ZeKernelInfo) (time width : Z) :
  update_info e time width
    = mkInfo (u64 (total_time e + time)) (Z.min (min_time e) time)
             (Z.max (max_time e) time) (u64 (call_count e + 1))
             (Z.max (info_simd_width e) width).
Proof.
  unfold update_info. f_equal.
  - destruct (Z.ltb_spec time (min_time e)); lia.
  - destruct (Z.ltb_spec (max_time e) time); lia.
Qed.

(** C6 (names that are not empty).  For a name that is not empty, the first
    [AddKernelInfo] of the name inserts [{time, time, time, 1, width}];
    each later one updates the entry by [total += time] (64-bit),
    [min = min(min, time)], [max = max(max, time)], [count += 1] and
    [width = max(old width, width)] and leaves all other entries and the
    rest of the collector alone; durations [10, 30, 20] under a fresh
    name give [{60, 10, 30, 3}]. *)
Theorem C6_add_kernel_info (nm : string) (time width : Z) (c : ZeKernelCollector) :
  nm <> EmptyString ->
  exists c',
    AddKernelInfo nm time width c = Done (tt, c')
    /\ (kernel_info_map_ c !! nm = None ->
        kernel_info_map_ c' !! nm = Some (mkInfo time time time 1 width))
    /\ (forall e, kernel_info_map_ c !! nm = Some e ->
        kernel_info_map_ c' !! nm
          = Some (mkInfo (u64 (total_time e + time)) (Z.min (min_time e) time)
                         (Z.max (max_time e) time) (u64 (call_count e + 1))
                         (Z.max (info_simd_width e) width)))
    /\ (forall other, other <> nm ->
        kernel_info_map_ c' !! other = kernel_info_map_ c !! other)
    /\ kernel_instance_list_ c' = kernel_instance_list_ c
    /\ kernel_interval_list_ c' = kernel_interval_list_ c
    /\ (forall w1 w2 w3, kernel_info_map_ c !! nm = None ->
        exists c3,
          add_all nm [(10, w1); (30, w2); (20, w3)] c = Done (tt, c3)
          /\ kernel_info_map_ c3 !! nm
             = Some (mkInfo 60 10 30 3 (Z.max (Z.max w1 w2) w3))).
Proof.
  intros Hnm. exists (info_after nm time width c).
  split; [apply AddKernelInfo_done; exact Hnm |].
  split; [apply info_after_fresh |].
  split.
  { intros e He. rewrite (info_after_known nm time width c e He).
    rewrite update_info_fields. reflexivity. }
  split; [intros other Hne; apply info_after_other; exact Hne |].
  pose proof (info_after_frame nm time width c) as (_ & Hiv & Hin & _ & _).
  split; [exact Hin |]. split; [exact Hiv |].
  intros w1 w2 w3 Hnone.
  set (c1 := info_after nm 10 w1 c).
  set (c2 := info_after nm 30 w2 c1).
  exists (info_after nm 20 w3 c2).
  split.
  - cbn [add_all fst snd]. unfold bind.
    rewrite (AddKernelInfo_done nm 10 w1 c Hnm). fold c1.
    rewrite (AddKernelInfo_done nm 30 w2 c1 Hnm). fold c2.
    rewrite (AddKernelInfo_done nm 20 w3 c2 Hnm). reflexivity.
  - assert (H1 : kernel_info_map_ c1 !! nm = Some (mkInfo 10 10 10 1 w1))
      by (apply info_after_fresh; exact Hnone).
    assert (H2 : kernel_info_map_ c2 !! nm
                 = Some (update_info (mkInfo 10 10 10 1 w1) 30 w2))
      by (apply info_after_known; exact H1).
    rewrite (info_after_known nm 20 w3 c2 _ H2).
    reflexivity.
Qed.

Lemma C6_add_kernel_info_witness :
  exists c', AddKernelInfo "gemm" 10 16 (fresh_collector 1000000000) = Done (tt, c').
Proof.
  destruct (C6_add_kernel_info "gemm" 10 16 (fresh_collector 1000000000))
    as (c' & Hrun & _); [discriminate |].
  exists c'. exact Hrun.
Defined.

(** The insertion does not hold for every name: at the empty name the
    guard of [AddKernelInfo] stops the process and nothing is inserted. *)
Lemma C6_empty_name_counterexample :
  ~ (forall (nm : string) (time width : Z) (c : ZeKernelCollector),
       kernel_info_map_ c !! nm = None ->
       exists c', AddKernelInfo nm time width c = Done (tt, c')
                  /\ kernel_info_map_ c' !! nm = Some (mkInfo time time time 1 width)).
Proof.
  intros H.
  destruct (H EmptyString 10 16 (fresh_collector 1000000000)) as (c' & Hrun & _).
  - apply lookup_empty.
  - rewrite AddKernelInfo_empty_name in Hrun. discriminate Hrun.
Qed.

Lemma add_all_known (nm : string) (ds : list (Z * Z)) :
  nm <> EmptyString ->
  forall (c : ZeKernelCollector) (e : ZeKernelInfo),
    kernel_info_map_ c !! nm = Some e ->
    exists c', add_all nm ds c = Done (tt, c')
               /\ kernel_info_map_ c' !! nm = Some (fold_info e ds).
Proof.
  intros Hnm. induction ds as [| d ds IH]; intros c e He.
  - exists c. split; [reflexivity | exact He].
  - destruct (IH (info_after nm (fst d) (snd d) c) (update_info e (fst d) (snd d)))
      as (c' & Hrun & Hlook).
    { apply info_after_known. exact He. }
    exists c'. split; [| exact Hlook].
    cbn [add_all]. unfold bind.
    rewrite (AddKernelInfo_done nm (fst d) (snd d) c Hnm). exact Hrun.
Qed.

Lemma sum_durations_nonneg (ds : list (Z * Z)) :
  durations_in_range ds -> 0 <= sum_durations ds.
Proof.
  induction 1 as [| d ds Hd _ IH]; cbn; [lia |].
  unfold sum_durations in IH. lia.
Qed.

Lemma fold_info_total (ds : list (Z * Z)) (e : ZeKernelInfo) :
  0 <= total_time e < 2 ^ 64 ->
  total_time (fold_info e ds) = u64 (total_time e + sum_durations ds).
Proof.
  revert e. induction ds as [| d ds IH]; intros e He.
  - cbn. rewrite Z.add_0_r. symmetry. apply u64_small. exact He.
  - change (fold_info e (d :: ds))
      with (fold_info (update_info e (fst d) (snd d)) ds).
    rewrite IH by (cbn; apply u64_range).
    cbn [update_info total_time].
    change (sum_durations (d :: ds)) with (fst d + sum_durations ds).
    unfold u64. rewrite Zplus_mod_idemp_l. f_equal. ring.
Qed.

Lemma fold_info_count (ds : list (Z * Z)) (e : ZeKernelInfo) :
  0 <= call_count e < 2 ^ 64 ->
  call_count (fold_info e ds) = u64 (call_count e + Z.of_nat (length ds)).
Proof.
  revert e. induction ds as [| d ds IH]; intros e He.
  - cbn. rewrite Z.add_0_r. symmetry. apply u64_small. exact He.
  - change (fold_info e (d :: ds))
      with (fold_info (update_info e (fst d) (snd d)) ds).
    rewrite IH by (cbn; apply u64_range).
    cbn [update_info call_count length].
    unfold u64. rewrite Zplus_mod_idemp_l. f_equal. lia.
Qed.

(** A one-hertz timer turns the pair [(0, 18446744073)] into a duration
    just below [2^64] nanoseconds. *)
Lemma slow_timer_duration (c : ZeKernelCollector) :
  timestamps_to_ns 1 0 18446744073 c
    = Done ((0, 18446744073000000000, 18446744073000000000), c).
Proof. rewrite plain_branch by lia. reflexivity. Qed.

(** Two such records make the 64-bit total wrap: after the synchronize
    the entry's [total_time] is below the duration of either record. *)
Lemma slow_timer_total_wraps :
  OnExitCommandQueueSynchronize (driver_ready (0, 18446744073)) ZE_RESULT_SUCCESS
    slow_timer_in_flight
  = Done (tt, slow_timer_resolved).
Proof. vm_compute. reflexivity. Qed.

(** C7 (modulo [2^64]).  After a run of [AddKernelInfo] calls for a fresh
    name, the entry exists, its [total_time] is the sum of the durations
    modulo [2^64] and its [call_count] the number of calls modulo [2^64];
    both are exact while they stay below [2^64].  Under every further
    call [max_time] and the width never decrease, [min_time] never
    increases, and [total_time] and [call_count] do not decrease unless
    they wrap. *)
Theorem C7_aggregate_invariant (nm : string) (d0 : Z * Z) (ds : list (Z * Z))
    (c : ZeKernelCollector) :
  nm <> EmptyString ->
  kernel_info_map_ c !! nm = None ->
  durations_in_range (d0 :: ds) ->
  (exists c' e,
      add_all nm (d0 :: ds) c = Done (tt, c')
      /\ kernel_info_map_ c' !! nm = Some e
      /\ total_time e = u64 (sum_durations (d0 :: ds))
      /\ call_count e = u64 (Z.of_nat (length (d0 :: ds)))
      /\ (sum_durations (d0 :: ds) < 2 ^ 64 ->
          total_time e = sum_durations (d0 :: ds))
      /\ (Z.of_nat (length (d0 :: ds)) < 2 ^ 64 ->
          call_count e = Z.of_nat (length (d0 :: ds))))
  /\ (forall (c0 : ZeKernelCollector) (e : ZeKernelInfo) (time width : Z),
        kernel_info_map_ c0 !! nm = Some e ->
        0 <= time -> 0 <= total_time e -> 0 <= call_count e ->
        exists c1 e',
          AddKernelInfo nm time width c0 = Done (tt, c1)
          /\ kernel_info_map_ c1 !! nm = Some e'
          /\ max_time e <= max_time e'
          /\ min_time e' <= min_time e
          /\ info_simd_width e <= info_simd_width e'
          /\ (total_time e + time < 2 ^ 64 -> total_time e <= total_time e')
          /\ (call_count e + 1 < 2 ^ 64 -> call_count e < call_count e')).
Proof.
  intros Hnm Hnone Hrange. split.
  - pose proof (sum_durations_nonneg _ Hrange) as Hsum.
    inversion Hrange as [| d l Hd0 Hds]; subst.
    set (c1 := info_after nm (fst d0) (snd d0) c).
    assert (H1 : kernel_info_map_ c1 !! nm
                 = Some (mkInfo (fst d0) (fst d0) (fst d0) 1 (snd d0)))
      by (apply info_after_fresh; exact Hnone).
    destruct (add_all_known nm ds Hnm c1 _ H1) as (c' & Hrun & Hlook).
    exists c', (fold_info (mkInfo (fst d0) (fst d0) (fst d0) 1 (snd d0)) ds).
    assert (Htot : total_time
                     (fold_info (mkInfo (fst d0) (fst d0) (fst d0) 1 (snd d0)) ds)
                   = u64 (sum_durations (d0 :: ds)))
      by (rewrite fold_info_total by (cbn; lia); reflexivity).
    assert (Hcnt : call_count
                     (fold_info (mkInfo (fst d0) (fst d0) (fst d0) 1 (snd d0)) ds)
                   = u64 (Z.of_nat (length (d0 :: ds)))).
    { rewrite fold_info_count by (cbn; lia). cbn [call_count length].
      f_equal. lia. }
    split.
    { cbn [add_all]. unfold bind.
      rewrite (AddKernelInfo_done nm (fst d0) (snd d0) c Hnm). exact Hrun. }
    split; [exact Hlook |].
    split; [exact Htot |]. split; [exact Hcnt |].
    split.
    + intros Hlt. rewrite Htot. apply u64_small. lia.
    + intros Hlt. rewrite Hcnt. apply u64_small. lia.
  - intros c0 e time width He Ht Htot Hcnt.
    exists (info_after nm time width c0), (update_info e time width).
    split; [apply AddKernelInfo_done; exact Hnm |].
    split; [apply info_after_known; exact He |].
    rewrite update_info_fields. cbn.
    repeat split; try lia.
    + intros Hlt. rewrite u64_small by lia. lia.
    + intros Hlt. rewrite u64_small by lia. lia.
Qed.

Lemma C7_aggregate_invariant_witness :
  exists c' e,
    add_all "gemm" [(10, 16); (30, 16); (20, 16)] (fresh_collector 1000000000)
      = Done (tt, c')
    /\ kernel_info_map_ c' !! "gemm" = Some e
    /\ total_time e = 60 /\ call_count e = 3.
Proof.
  destruct (C7_aggregate_invariant "gemm" (10, 16) [(30, 16); (20, 16)]
              (fresh_collector 1000000000))
    as ((c' & e & Hrun & Hlook & Htot & Hcnt & _) & _).
  - discriminate.
  - apply lookup_empty.
  - repeat constructor; simpl; lia.
  - exists c', e. repeat split; assumption.
Defined.

(** The total is not the plain sum once the 64-bit total wraps: two durations
    of 18446744073000000000 ns (see [slow_timer_duration] and
    [slow_timer_total_wraps]) add up to more than [2^64], and the entry's
    total is then smaller than either. *)
Lemma C7_wraparound_counterexample :
  ~ (forall (nm : string) (ds : list (Z * Z)) (c : ZeKernelCollector),
       nm <> EmptyString -> kernel_info_map_ c !! nm = None ->
       ds <> [] -> durations_in_range ds ->
       exists c' e, add_all nm ds c = Done (tt, c')
                    /\ kernel_info_map_ c' !! nm = Some e
                    /\ total_time e = sum_durations ds).
Proof.
  intros H.
  set (big := 18446744073000000000).
  set (c := fresh_collector 1).
  destruct (H "gemm"%string [(big, 16); (big, 16)] c)
    as (c' & e & Hrun & Hlook & Htot).
  - discriminate.
  - apply lookup_empty.
  - discriminate.
  - subst big. repeat constructor; simpl; lia.
  - assert (H1 : kernel_info_map_ (info_after "gemm" big 16 c) !! "gemm"%string
                 = Some (mkInfo big big big 1 16))
      by (apply info_after_fresh, lookup_empty).
    destruct (add_all_known "gemm" [(big, 16)] ltac:(discriminate) _ _ H1)
      as (c2 & Hrun2 & Hlook2).
    cbn [add_all fst snd] in Hrun, Hrun2. unfold bind at 1 in Hrun.
    rewrite (AddKernelInfo_done "gemm" big 16 c ltac:(discriminate)) in Hrun.
    rewrite Hrun2 in Hrun. injection Hrun as <-.
    rewrite Hlook2 in Hlook. injection Hlook as <-.
    subst big. vm_compute in Htot. discriminate Htot.
Qed.

(** ** Inversion of monadic runs *)

Lemma bind_done {S A B} (m : M S A) (k : A -> M S B) (s s' : S) (b : B) :
  bind m k s = Done (b, s') ->
  exists a s1, m s = Done (a, s1) /\ k a s1 = Done (b, s').
Proof.
  unfold bind. destruct (m s) as [[a s1] | f]; [| discriminate].
  intros H. exists a, s1. split; [reflexivity | exact H].
Qed.

Lemma PTI_ASSERT_done {S} (b : bool) (s s' : S) (u : unit) :
  PTI_ASSERT b s = Done (u, s') -> b = true /\ s' = s.
Proof.
  unfold PTI_ASSERT. destruct b; cbn; [| discriminate].
  unfold ret. intros H. injection H as _ <-. split; reflexivity.
Qed.

Lemma ret_done {S A} (a a' : A) (s s' : S) :
  ret a s = Done (a', s') -> a' = a /\ s' = s.
Proof. unfold ret. intros H. injection H as <- <-. split; reflexivity. Qed.

Lemma modify_done {S} (f : S -> S) (s s' : S) (u : unit) :
  modify f s = Done (u, s') -> s' = f s.
Proof. unfold modify. intros H. injection H as _ <-. reflexivity. Qed.

Lemma get_done {S} (s s1 s' : S) :
  get s = Done (s1, s') -> s1 = s /\ s' = s.
Proof. unfold get. intros H. injection H as <- <-. split; reflexivity. Qed.

Lemma udiv_done {S} (a b q : Z) (s s' : S) :
  udiv a b s = Done (q, s') -> q = a / b /\ s' = s.
Proof.
  unfold udiv. destruct (b =? 0); [discriminate |].
  intros H. apply ret_done in H. exact H.
Qed.

(** Peels one layer off a hypothesis about a successful run. *)
Ltac run_inv H :=
  lazymatch type of H with
  | bind _ _ _ = Done _ =>
      let a := fresh "a" in let s := fresh "s" in
      let H1 := fresh "Hrun" in let H2 := fresh "Hrun" in
      apply bind_done in H; destruct H as (a & s & H1 & H2);
      run_inv H1; run_inv H2
  | PTI_ASSERT _ _ = Done _ =>
      let Hb := fresh "Hassert" in let He := fresh "Heq" in
      apply PTI_ASSERT_done in H; destruct H as [Hb He]; subst
  | ret _ _ = Done _ =>
      let H1 := fresh "Heq" in let H2 := fresh "Heq" in
      apply ret_done in H; destruct H as [H1 H2]; subst
  | modify _ _ = Done _ =>
      apply modify_done in H; subst
  | get _ = Done _ =>
      let H1 := fresh "Heq" in let H2 := fresh "Heq" in
      apply get_done in H; destruct H as [H1 H2]; subst
  | _ => idtac
  end.

Lemma set_instance_list_same (c : ZeKernelCollector) :
  set_instance_list (kernel_instance_list_ c) c = c.
Proof. destruct c; reflexivity. Qed.

(** ** What resolving one instance touches *)

Lemma timestamps_to_ns_state {S} (freq start finish : Z) (s s' : S) (t : Z * Z * Z) :
  timestamps_to_ns freq start finish s = Done (t, s') -> s' = s.
Proof.
  unfold timestamps_to_ns. intros H.
  apply bind_done in H. destruct H as (sn & s1 & H1 & H).
  apply udiv_done in H1. destruct H1 as [_ ->].
  apply bind_done in H. destruct H as (en & s2 & H2 & H).
  apply ret_done in H. destruct H as [_ ->].
  destruct (start <? finish).
  - apply udiv_done in H2. tauto.
  - apply bind_done in H2. destruct H2 as (u & s3 & H3 & H4).
    apply PTI_ASSERT_done in H3. destruct H3 as [_ ->].
    apply udiv_done in H4. tauto.
Qed.

Lemma release_owned_event_frame (drv : ZeDriver) (it : ZeKernelInstance)
    (c c' : ZeKernelCollector) :
  release_owned_event drv it c = Done (tt, c') ->
  kernel_instance_list_ c' = kernel_instance_list_ c
  /\ command_list_map_ c' = command_list_map_ c
  /\ kernel_info_map_ c' = kernel_info_map_ c
  /\ kernel_interval_list_ c' = kernel_interval_list_ c
  /\ driver_log c' =
       driver_log c ++
       (if negb (event_pool it =? nullptr)
        then [CallEventDestroy (event it); CallEventPoolDestroy (event_pool it)]
        else []).
Proof.
  unfold release_owned_event.
  destruct (negb (event_pool it =? nullptr)); intros H.
  - unfold call_zeEventDestroy, call_zeEventPoolDestroy in H. run_inv H.
    cbn. rewrite <- app_assoc. auto.
  - run_inv H. rewrite app_nil_r. auto.
Qed.

Lemma AddKernelInfo_inv (nm : string) (time width : Z)
    (c c' : ZeKernelCollector) (u : unit) :
  AddKernelInfo nm time width c = Done (u, c') ->
  nm <> EmptyString /\ c' = info_after nm time width c.
Proof.
  unfold AddKernelInfo. intros H. run_inv H.
  split; [intros -> ; discriminate | reflexivity].
Qed.

Lemma AddKernelInterval_inv (nm : string) (start finish : Z)
    (c c' : ZeKernelCollector) (u : unit) :
  AddKernelInterval nm start finish c = Done (u, c') ->
  start < finish
  /\ c' = set_interval_list
            (kernel_interval_list_ c ++ [mkInterval nm start finish]) c.
Proof.
  unfold AddKernelInterval. intros H. run_inv H.
  split; [apply Z.ltb_lt; assumption | reflexivity].
Qed.

(** A resolved instance adds one interval under its name and leaves the
    in-flight table and the command-list map as they are. *)
Lemma ProcessInstance_frame (drv : ZeDriver) (it : ZeKernelInstance)
    (c c' : ZeKernelCollector) :
  ProcessInstance drv it c = Done (tt, c') ->
  kernel_instance_list_ c' = kernel_instance_list_ c
  /\ command_list_map_ c' = command_list_map_ c
  /\ zeEventQueryStatus drv (event it) = ZE_RESULT_SUCCESS
  /\ exists iv, interval_name iv = name it
                /\ kernel_interval_list_ c' = kernel_interval_list_ c ++ [iv].
Proof.
  unfold ProcessInstance. intros H.
  apply bind_done in H. destruct H as (u & s1 & Hq & H).
  apply PTI_ASSERT_done in Hq. destruct Hq as [Hq ->].
  destruct (zeEventQueryKernelTimestamp drv (event it)) as [status [start finish]].
  apply bind_done in H. destruct H as (u1 & s2 & Ha & H).
  apply PTI_ASSERT_done in Ha. destruct Ha as [_ ->].
  apply bind_done in H. destruct H as (c1 & s3 & Hg & H).
  apply get_done in Hg. destruct Hg as [-> ->].
  apply bind_done in H. destruct H as ([[start_ns end_ns] time] & s4 & Hns & H).
  pose proof (timestamps_to_ns_state _ _ _ _ _ _ Hns) as ->.
  apply bind_done in H. destruct H as (u2 & s5 & Hinfo & H).
  apply bind_done in H. destruct H as (u3 & s6 & Hiv & H).
  apply release_owned_event_frame in H. destruct H as (Hl & Hm & _ & Hi & _).
  apply AddKernelInterval_inv in Hiv. destruct Hiv as [_ ->].
  apply AddKernelInfo_inv in Hinfo. destruct Hinfo as [_ ->].
  pose proof (info_after_frame (name it) time (simd_width it) c)
    as (_ & Fiv & Fin & Fcm & _).
  cbn in Hl, Hm, Hi. rewrite Hl, Hm, Hi, Fiv, Fin, Fcm.
  split; [reflexivity |]. split; [reflexivity |].
  split.
  - destruct (zeEventQueryStatus drv (event it)); [reflexivity | discriminate..].
  - exists (mkInterval (name it) start_ns end_ns). split; reflexivity.
Qed.

(** ** The poll over the in-flight table *)

Lemma poll_all_done (drv : ZeDriver) (l : list ZeKernelInstance) :
  forall (c c' : ZeKernelCollector) (l' : list ZeKernelInstance),
    poll_all drv l c = Done (l', c') ->
    l' = not_ready drv l
    /\ Forall (pollable drv) l
    /\ kernel_instance_list_ c' = kernel_instance_list_ c
    /\ command_list_map_ c' = command_list_map_ c
    /\ exists ivs, kernel_interval_list_ c' = kernel_interval_list_ c ++ ivs
                   /\ map interval_name ivs = map name (ready drv l).
Proof.
  induction l as [| it rest IH]; intros c c' l' H.
  - cbn in H. apply ret_done in H. destruct H as [-> ->].
    repeat split; [constructor |]. exists []. rewrite app_nil_r. split; reflexivity.
  - cbn [poll_all] in H.
    apply bind_done in H. destruct H as (u & s1 & Ha & H).
    apply PTI_ASSERT_done in Ha. destruct Ha as [Hnn ->].
    assert (Hev : event it <> nullptr).
    { intros E. rewrite E in Hnn. discriminate Hnn. }
    unfold not_ready, ready. cbn [List.filter].
    destruct (zeEventQueryStatus drv (event it)) as [| | code] eqn:Hst;
      cbn [is_not_ready is_success].
    + apply bind_done in H. destruct H as (u1 & s2 & Hp & H).
      destruct u1. apply ProcessInstance_frame in Hp.
      destruct Hp as (Hl & Hm & _ & iv & Hname & Hiv).
      apply IH in H. destruct H as (-> & Hall & Hl' & Hm' & ivs & Hivs & Hnames).
      split; [reflexivity |].
      split; [constructor; [split; [exact Hev | right; exact Hst] | exact Hall] |].
      split; [congruence |]. split; [congruence |].
      exists (iv :: ivs). split.
      * rewrite Hivs, Hiv, <- app_assoc. reflexivity.
      * cbn [map]. rewrite Hname. f_equal. exact Hnames.
    + apply bind_done in H. destruct H as (rest' & s2 & Hp & H).
      apply ret_done in H. destruct H as [-> ->].
      apply IH in Hp. destruct Hp as (-> & Hall & Hl' & Hm' & ivs & Hivs & Hnames).
      split; [reflexivity |].
      split; [constructor; [split; [exact Hev | left; exact Hst] | exact Hall] |].
      split; [exact Hl' |]. split; [exact Hm' |].
      exists ivs. split; assumption.
    + discriminate H.
Qed.

Lemma poll_all_pending (drv : ZeDriver) (l : list ZeKernelInstance)
    (c : ZeKernelCollector) :
  Forall (fun it => event it <> nullptr
                    /\ zeEventQueryStatus drv (event it) = ZE_RESULT_NOT_READY) l ->
  poll_all drv l c = Done (l, c).
Proof.
  induction 1 as [| it rest [Hev Hst] _ IH]; [reflexivity |].
  cbn [poll_all]. unfold bind at 1.
  destruct (Z.eqb_spec (event it) nullptr) as [E | _]; [contradiction |].
  cbn. rewrite Hst. unfold bind. rewrite IH. reflexivity.
Qed.

Lemma ProcessInstances_done (drv : ZeDriver) (c c' : ZeKernelCollector) :
  ProcessInstances drv c = Done (tt, c') ->
  kernel_instance_list_ c' = not_ready drv (kernel_instance_list_ c)
  /\ Forall (pollable drv) (kernel_instance_list_ c)
  /\ command_list_map_ c' = command_list_map_ c
  /\ exists ivs, kernel_interval_list_ c' = kernel_interval_list_ c ++ ivs
                 /\ map interval_name ivs
                    = map name (ready drv (kernel_instance_list_ c)).
Proof.
  unfold ProcessInstances. intros H.
  apply bind_done in H. destruct H as (c0 & s1 & Hg & H).
  apply get_done in Hg. destruct Hg as [-> ->].
  apply bind_done in H. destruct H as (l & s2 & Hp & H).
  apply modify_done in H. subst c'.
  apply poll_all_done in Hp.
  destruct Hp as (-> & Hall & _ & Hm & ivs & Hivs & Hnames).
  cbn. split; [reflexivity |]. split; [exact Hall |]. split; [exact Hm |].
  exists ivs. split; assumption.
Qed.

Lemma ProcessInstances_pending (drv : ZeDriver) (c : ZeKernelCollector) :
  Forall (fun it => event it <> nullptr
                    /\ zeEventQueryStatus drv (event it) = ZE_RESULT_NOT_READY)
         (kernel_instance_list_ c) ->
  ProcessInstances drv c = Done (tt, c).
Proof.
  intros Hall. unfold ProcessInstances, bind, get.
  rewrite (poll_all_pending drv _ c Hall). unfold modify.
  rewrite set_instance_list_same. reflexivity.
Qed.

Lemma not_ready_keeps (drv : ZeDriver) (l : list ZeKernelInstance)
    (it : ZeKernelInstance) :
  In it (not_ready drv l)
  <-> In it l /\ zeEventQueryStatus drv (event it) = ZE_RESULT_NOT_READY.
Proof.
  unfold not_ready. rewrite filter_In.
  destruct (zeEventQueryStatus drv (event it)); cbn; intuition congruence.
Qed.

(** ** C5: a synchronize leaves pending instances alone *)

(** C5.  A queue-synchronize callback that runs to its end leaves in the
    in-flight table exactly the instances whose signal polled not ready,
    unchanged and in their order; the instances it removed are those
    whose signal polled ready, and one interval was recorded for each of
    them.  A later synchronize goes over the instances left again: while
    they all still poll not ready it changes nothing.  A synchronize
    whose own result is not success does not poll at all. *)
Theorem C5_sync_leaves_pending (drv : ZeDriver) (c c' : ZeKernelCollector) :
  OnExitCommandQueueSynchronize drv ZE_RESULT_SUCCESS c = Done (tt, c') ->
  kernel_instance_list_ c' = not_ready drv (kernel_instance_list_ c)
  /\ (forall it, In it (kernel_instance_list_ c) ->
        zeEventQueryStatus drv (event it) = ZE_RESULT_NOT_READY ->
        In it (kernel_instance_list_ c'))
  /\ (forall it, In it (kernel_instance_list_ c) ->
        ~ In it (kernel_instance_list_ c') ->
        zeEventQueryStatus drv (event it) = ZE_RESULT_SUCCESS)
  /\ (exists ivs, kernel_interval_list_ c' = kernel_interval_list_ c ++ ivs
                  /\ map interval_name ivs
                     = map name (ready drv (kernel_instance_list_ c)))
  /\ (forall drv',
        (forall it, In it (kernel_instance_list_ c') ->
           zeEventQueryStatus drv' (event it) = ZE_RESULT_NOT_READY) ->
        OnExitCommandQueueSynchronize drv' ZE_RESULT_SUCCESS c' = Done (tt, c'))
  /\ (forall result, is_success result = false ->
        OnExitCommandQueueSynchronize drv result c = Done (tt, c)).
Proof.
  intros H.
  assert (Hskip : forall result, is_success result = false ->
            OnExitCommandQueueSynchronize drv result c = Done (tt, c))
    by (intros result Hr; unfold OnExitCommandQueueSynchronize; rewrite Hr;
        reflexivity).
  cbn [OnExitCommandQueueSynchronize is_success] in H |- *.
  apply ProcessInstances_done in H. destruct H as (Hl & Hall & _ & Hivs).
  split; [exact Hl |].
  split.
  { intros it Hin Hst. rewrite Hl. apply not_ready_keeps. split; assumption. }
  split.
  { intros it Hin Hout.
    rewrite List.Forall_forall in Hall. destruct (Hall it Hin) as [_ [Hnr | Hok]].
    - exfalso. apply Hout. rewrite Hl. apply not_ready_keeps. split; assumption.
    - exact Hok. }
  split; [exact Hivs |].
  split; [| exact Hskip].
  intros drv' Hpending. apply ProcessInstances_pending.
  apply List.Forall_forall. intros it Hin. split.
  - rewrite Hl in Hin. apply not_ready_keeps in Hin. destruct Hin as [Hin _].
    rewrite List.Forall_forall in Hall. destruct (Hall it Hin) as [Hev _]. exact Hev.
  - apply Hpending. exact Hin.
Qed.

Lemma sync_two_in_flight :
  OnExitCommandQueueSynchronize driver_mixed ZE_RESULT_SUCCESS two_in_flight
    = Done (tt, one_resolved).
Proof. vm_compute. reflexivity. Qed.

Lemma C5_sync_leaves_pending_witness :
  kernel_instance_list_ one_resolved = not_ready driver_mixed [gemm_instance; copy_instance]
  /\ In gemm_instance (kernel_instance_list_ one_resolved).
Proof.
  destruct (C5_sync_leaves_pending driver_mixed two_in_flight one_resolved)
    as (Hl & Hkeep & _).
  - vm_compute. reflexivity.
  - split; [exact Hl |].
    apply Hkeep; [left; reflexivity | reflexivity].
Defined.

(** ** C3: a notification for a signal without instance *)

Lemma process_first_absent (drv : ZeDriver) (ev : Z) (l : list ZeKernelInstance)
    (c : ZeKernelCollector) :
  instances_of_event ev l = [] -> process_first drv ev l c = Done (l, c).
Proof.
  unfold instances_of_event.
  induction l as [| it rest IH]; intros Habs; [reflexivity |].
  cbn [List.filter] in Habs. cbn [process_first].
  destruct (event it =? ev); [discriminate Habs |].
  unfold bind. rewrite (IH Habs). reflexivity.
Qed.

Lemma ProcessInstanceOfEvent_absent (drv : ZeDriver) (ev : Z)
    (c : ZeKernelCollector) :
  ev <> nullptr ->
  instances_of_event ev (kernel_instance_list_ c) = [] ->
  ProcessInstanceOfEvent drv ev c = Done (tt, c).
Proof.
  intros Hev Habs. unfold ProcessInstanceOfEvent, bind.
  destruct (Z.eqb_spec ev nullptr) as [E | _]; [contradiction |].
  cbn. rewrite (process_first_absent drv ev _ c Habs).
  unfold modify. rewrite set_instance_list_same. reflexivity.
Qed.

(** The first notification for a signal with at most one instance leaves
    the table without an instance of that signal. *)
Lemma process_first_removes (drv : ZeDriver) (ev : Z) (l : list ZeKernelInstance) :
  forall (c c' : ZeKernelCollector) (l' : list ZeKernelInstance),
    process_first drv ev l c = Done (l', c') ->
    (length (instances_of_event ev l) <= 1)%nat ->
    instances_of_event ev l' = [].
Proof.
  unfold instances_of_event.
  induction l as [| it rest IH]; intros c c' l' H Hone.
  - cbn in H. apply ret_done in H. destruct H as [-> _]. reflexivity.
  - cbn [process_first] in H. cbn [List.filter] in Hone.
    destruct (event it =? ev) eqn:E.
    + apply bind_done in H. destruct H as (u & s1 & _ & H).
      apply ret_done in H. destruct H as [-> _].
      cbn [length] in Hone.
      destruct (List.filter (fun it0 => event it0 =? ev) rest);
        [reflexivity | cbn in Hone; lia].
    + apply bind_done in H. destruct H as (rest' & s1 & Hp & H).
      apply ret_done in H. destruct H as [-> _].
      cbn [List.filter]. rewrite E. apply (IH _ _ _ Hp Hone).
Qed.

Lemma notification_resolves_once (drv : ZeDriver) (ev : Z)
    (c c' : ZeKernelCollector) :
  (length (instances_of_event ev (kernel_instance_list_ c)) <= 1)%nat ->
  ProcessInstanceOfEvent drv ev c = Done (tt, c') ->
  instances_of_event ev (kernel_instance_list_ c') = [].
Proof.
  intros Hone H. unfold ProcessInstanceOfEvent in H.
  apply bind_done in H. destruct H as (u & s1 & Ha & H).
  apply PTI_ASSERT_done in Ha. destruct Ha as [_ ->].
  apply bind_done in H. destruct H as (c0 & s2 & Hg & H).
  apply get_done in Hg. destruct Hg as [-> ->].
  apply bind_done in H. destruct H as (l & s3 & Hp & H).
  apply modify_done in H. subst c'. cbn.
  apply (process_first_removes drv ev _ _ _ _ Hp Hone).
Qed.

(** C3.  When the in-flight table holds no instance for a signal (its
    instance was resolved and removed before, see
    [notification_resolves_once]), a completion notification for that
    signal, be it an event destroy or a host reset, returns normally and
    leaves the whole collector as it was: the table, the aggregate map
    and the interval list are unchanged and no record is added. *)
Theorem C3_late_notification_is_noop (drv : ZeDriver) (ev : Z)
    (c : ZeKernelCollector) :
  instances_of_event ev (kernel_instance_list_ c) = [] ->
  OnEnterEventDestroy drv ev c = Done (tt, c)
  /\ OnEnterEventHostReset drv ev c = Done (tt, c).
Proof.
  intros Habs. unfold OnEnterEventDestroy, OnEnterEventHostReset.
  destruct (Z.eqb_spec ev nullptr) as [E | Hev]; cbn [negb].
  - split; reflexivity.
  - split; apply ProcessInstanceOfEvent_absent; assumption.
Qed.

Lemma C3_late_notification_is_noop_witness :
  OnEnterEventDestroy (driver_ready (100, 200)) 41 after_late_signal
    = Done (tt, after_late_signal).
Proof.
  apply (C3_late_notification_is_noop (driver_ready (100, 200)) 41 after_late_signal).
  reflexivity.
Defined.

(** ** C1: destroying a command list *)

Lemma RemoveCommandList_done (command_list : Z) (c c' : ZeKernelCollector) :
  RemoveCommandList command_list c = Done (tt, c') ->
  command_list <> nullptr
  /\ is_Some (command_list_map_ c !! command_list)
  /\ c' = set_command_list_map (delete command_list (command_list_map_ c)) c.
Proof.
  unfold RemoveCommandList. intros H.
  apply bind_done in H. destruct H as (u & s1 & Ha & H).
  apply PTI_ASSERT_done in Ha. destruct Ha as [Hnn ->].
  apply bind_done in H. destruct H as (c0 & s2 & Hg & H).
  apply get_done in Hg. destruct Hg as [-> ->].
  apply bind_done in H. destruct H as (u1 & s3 & Ha & H).
  apply PTI_ASSERT_done in Ha. destruct Ha as [Hin ->].
  apply modify_done in H.
  split; [intros E; rewrite E in Hnn; discriminate Hnn |].
  split; [apply bool_decide_eq_true in Hin; exact Hin | exact H].
Qed.

(** C1 (one poll, nothing abandoned).  A successful command-list destroy polls the whole
    in-flight table once: every instance whose signal polls ready, of
    whatever list, is resolved (one interval each) and removed, every
    instance whose signal polls not ready stays in the table; then the
    list's entry, which must exist, is removed from the metadata map.
    When no signal polls not ready the table is empty afterwards and no
    later notification finds an instance. *)
Theorem C1_destroy_polls_once (drv : ZeDriver) (command_list : Z)
    (c c' : ZeKernelCollector) :
  OnExitCommandListDestroy drv command_list ZE_RESULT_SUCCESS c = Done (tt, c') ->
  kernel_instance_list_ c' = not_ready drv (kernel_instance_list_ c)
  /\ (exists ivs, kernel_interval_list_ c' = kernel_interval_list_ c ++ ivs
                  /\ map interval_name ivs
                     = map name (ready drv (kernel_instance_list_ c)))
  /\ is_Some (command_list_map_ c !! command_list)
  /\ command_list_map_ c' = delete command_list (command_list_map_ c)
  /\ command_list_map_ c' !! command_list = None
  /\ (not_ready drv (kernel_instance_list_ c) = [] ->
      kernel_instance_list_ c' = []
      /\ forall drv' ev, OnEnterEventDestroy drv' ev c' = Done (tt, c')).
Proof.
  cbn [OnExitCommandListDestroy is_success]. intros H.
  apply bind_done in H. destruct H as (u & s1 & Ha & H).
  apply PTI_ASSERT_done in Ha. destruct Ha as [_ ->].
  apply bind_done in H. destruct H as (u1 & c1 & Hp & H).
  destruct u1. apply ProcessInstances_done in Hp.
  destruct Hp as (Hl & _ & Hm & Hivs).
  apply RemoveCommandList_done in H. destruct H as (_ & Hin & ->).
  cbn. rewrite Hm in *.
  split; [exact Hl |]. split; [exact Hivs |]. split; [exact Hin |].
  split; [reflexivity |]. split; [apply lookup_delete_eq |].
  intros Hnone. split; [congruence |].
  intros drv' ev. unfold OnEnterEventDestroy.
  destruct (Z.eqb_spec ev nullptr) as [E | Hev]; cbn [negb]; [reflexivity |].
  apply ProcessInstanceOfEvent_absent; [exact Hev |].
  cbn. rewrite Hl, Hnone. reflexivity.
Qed.

Lemma C1_destroy_polls_once_witness :
  kernel_instance_list_ after_destroy = not_ready driver_pending [gemm_instance]
  /\ command_list_map_ after_destroy !! 7 = None.
Proof.
  destruct (C1_destroy_polls_once driver_pending 7 after_launch after_destroy)
    as (Hl & _ & _ & _ & Hgone & _).
  - vm_compute. reflexivity.
  - split; [exact Hl | exact Hgone].
Defined.

(** A destroy does not clear the table of the list's instances when a
    signal is still pending: the instance launched on list 7 is still in the
    table after the destroy callback, and the later notification for its
    signal finds and resolves it. *)
Lemma C1_pending_instance_outlives_list :
  OnExitCommandListCreate 7 3 ZE_RESULT_SUCCESS (fresh_collector 1000000000)
    = Done (tt, after_create)
  /\ traced_append_launch driver_pending "gemm" 16 41 7 ZE_RESULT_SUCCESS after_create
     = Done (tt, after_launch)
  /\ OnExitCommandListDestroy driver_pending 7 ZE_RESULT_SUCCESS after_launch
     = Done (tt, after_destroy)
  /\ kernel_instance_list_ after_destroy = [gemm_instance]
  /\ OnEnterEventDestroy (driver_ready (100, 200)) 41 after_destroy
     = Done (tt, after_late_signal)
  /\ kernel_interval_list_ after_late_signal = [mkInterval "gemm" 100 200].
Proof. repeat split; vm_compute; reflexivity. Qed.

(** ** C4: the outcome of the submission decides about the instance *)

Lemma GetCommandListContext_done (command_list context : Z)
    (c c' : ZeKernelCollector) :
  GetCommandListContext command_list c = Done (context, c') ->
  c' = c /\ command_list_map_ c !! command_list = Some context.
Proof.
  unfold GetCommandListContext. intros H.
  apply bind_done in H. destruct H as (u & s1 & Ha & H).
  apply PTI_ASSERT_done in Ha. destruct Ha as [_ ->].
  apply bind_done in H. destruct H as (c0 & s2 & Hg & H).
  apply get_done in Hg. destruct Hg as [-> ->].
  destruct (command_list_map_ c !! command_list) as [ctx |]; [| discriminate H].
  apply ret_done in H. destruct H as [-> ->]. split; reflexivity.
Qed.






Lemma failed_owned_launch_log :
  traced_append_launch driver_pending "gemm" 16 nullptr 7 (ZE_RESULT_ERROR 1)
    after_create
  = Done (tt, mkCollector 1000000000 ∅ [] [] {[ 7 := 3 ]}
               [CallEventPoolCreate 3; CallEventCreate 700;
                CallEventDestroy 800; CallEventPoolDestroy 700]).
Proof. vm_compute. reflexivity. Qed.

(** ** C10: the command-list map guards the submission *)

Lemma AddCommandList_known (command_list context : Z) (c : ZeKernelCollector) :
  is_Some (command_list_map_ c !! command_list) ->
  AddCommandList command_list context c = Fatal AssertFailed.
Proof.
  intros [ctx Hctx]. unfold AddCommandList, bind, PTI_ASSERT.
  destruct (negb (command_list =? nullptr)); [| reflexivity].
  destruct (negb (context =? nullptr)); [| reflexivity].
  cbn. rewrite Hctx. reflexivity.
Qed.

Lemma AddCommandList_fresh (command_list context : Z) (c : ZeKernelCollector) :
  command_list <> nullptr -> context <> nullptr ->
  command_list_map_ c !! command_list = None ->
  AddCommandList command_list context c
    = Done (tt, set_command_list_map
                  (<[command_list := context]> (command_list_map_ c)) c).
Proof.
  intros Hcl Hctx Hnone. unfold AddCommandList, bind, PTI_ASSERT.
  destruct (Z.eqb_spec command_list nullptr) as [E | _]; [contradiction |].
  destruct (Z.eqb_spec context nullptr) as [E | _]; [contradiction |].
  cbn. rewrite Hnone. reflexivity.
Qed.

Lemma launch_on_unknown_list (drv : ZeDriver) (nm : string)
    (width command_list : Z) (c : ZeKernelCollector) :
  nm <> EmptyString -> command_list <> nullptr ->
  command_list_map_ c !! command_list = None ->
  OnEnterKernelAppend drv nm width nullptr command_list c = Fatal AssertFailed.
Proof.
  intros Hnm Hcl Hnone.
  unfold OnEnterKernelAppend, bind, PTI_ASSERT.
  rewrite (nonempty_true nm Hnm). cbn [ret].
  destruct (Z.eqb_spec command_list nullptr) as [E | _]; [contradiction |].
  cbn [Z.eqb nullptr].
  unfold GetCommandListContext, bind, PTI_ASSERT.
  destruct (Z.eqb_spec command_list nullptr) as [E | _]; [contradiction |].
  cbn. rewrite Hnone. reflexivity.
Qed.

(** C10.  A launch without a signal of the caller looks the list up in
    the command-list map under an assertion: on a list that is not in
    the map, because its creation was never seen or because it was
    destroyed in between, the prologue stops the process.  Registering a
    list that is already in the map stops the process too, for
    [zeCommandListCreate] and [zeCommandListCreateImmediate] alike. *)
Theorem C10_unknown_list_is_fatal (drv : ZeDriver) (nm : string)
    (width command_list : Z) (c : ZeKernelCollector) :
  nm <> EmptyString -> command_list <> nullptr ->
  (command_list_map_ c !! command_list = None ->
   OnEnterKernelAppend drv nm width nullptr command_list c = Fatal AssertFailed)
  /\ (forall drv' c',
        OnExitCommandListDestroy drv' command_list ZE_RESULT_SUCCESS c = Done (tt, c') ->
        OnEnterKernelAppend drv nm width nullptr command_list c' = Fatal AssertFailed)
  /\ (forall context,
        is_Some (command_list_map_ c !! command_list) ->
        OnExitCommandListCreate command_list context ZE_RESULT_SUCCESS c
          = Fatal AssertFailed
        /\ OnExitCommandListCreateImmediate command_list context ZE_RESULT_SUCCESS c
           = Fatal AssertFailed)
  /\ (forall context context',
        context <> nullptr ->
        command_list_map_ c !! command_list = None ->
        exists c',
          OnExitCommandListCreate command_list context ZE_RESULT_SUCCESS c
            = Done (tt, c')
          /\ command_list_map_ c' !! command_list = Some context
          /\ OnExitCommandListCreate command_list context' ZE_RESULT_SUCCESS c'
             = Fatal AssertFailed).
Proof.
  intros Hnm Hcl.
  assert (Hcreate : forall context c0,
            OnExitCommandListCreate command_list context ZE_RESULT_SUCCESS c0
            = AddCommandList command_list context c0).
  { intros context c0. unfold OnExitCommandListCreate, bind, PTI_ASSERT.
    cbn [is_success].
    destruct (Z.eqb_spec command_list nullptr) as [E | _]; [contradiction |].
    reflexivity. }
  split; [apply launch_on_unknown_list; assumption |].
  split.
  { intros drv' c' Hd. apply launch_on_unknown_list; [assumption.. |].
    cbn [OnExitCommandListDestroy is_success] in Hd.
    apply bind_done in Hd. destruct Hd as (u & s1 & _ & Hd).
    apply bind_done in Hd. destruct Hd as (u1 & s2 & _ & Hd).
    apply RemoveCommandList_done in Hd. destruct Hd as (_ & _ & ->).
    cbn. apply lookup_delete_eq. }
  split.
  { intros context Hknown. split.
    - rewrite Hcreate. apply AddCommandList_known. exact Hknown.
    - unfold OnExitCommandListCreateImmediate, bind, PTI_ASSERT. cbn [is_success].
      destruct (Z.eqb_spec command_list nullptr) as [E | _]; [contradiction |].
      cbn [negb ret]. apply AddCommandList_known. exact Hknown. }
  intros context context' Hctx Hnone.
  eexists. split; [rewrite Hcreate; apply AddCommandList_fresh; assumption |].
  split; [cbn; apply lookup_insert_eq |].
  rewrite Hcreate. apply AddCommandList_known. cbn.
  rewrite lookup_insert_eq. eexists. reflexivity.
Qed.

Lemma C10_unknown_list_is_fatal_witness :
  OnEnterKernelAppend driver_pending "gemm" 16 nullptr 7 after_destroy
    = Fatal AssertFailed.
Proof.
  apply (C10_unknown_list_is_fatal driver_pending "gemm" 16 7 after_destroy);
    [discriminate | discriminate | reflexivity].
Defined.

(** ** C8: returning a buffer without valid bytes *)

Lemma AddRecord_released (view : PtiAdapter.pti_view_kind)
    (base : option PtiAdapter.pti_view_record) (p p' : PtiAdapter.Process) :
  PtiAdapter.AddRecord view base p = Done (tt, p') ->
  PtiAdapter.released p' = PtiAdapter.released p.
Proof.
  unfold PtiAdapter.AddRecord. destruct base as [rec |]; intros H.
  - apply bind_done in H. destruct H as (p0 & s1 & Hg & H).
    apply get_done in Hg. destruct Hg as [-> ->].
    destruct view; unfold PtiAdapter.push_trace in H;
      first [discriminate H
            | apply modify_done in H; subst p'; reflexivity
            | apply ret_done in H; destruct H as [_ ->]; reflexivity].
  - apply ret_done in H. destruct H as [_ ->]. reflexivity.
Qed.

Lemma drain_released (recs : list PtiAdapter.pti_view_record)
    (last : PtiAdapter.decode_end) :
  forall p p', PtiAdapter.drain recs last p = Done (tt, p') ->
               PtiAdapter.released p' = PtiAdapter.released p.
Proof.
  induction recs as [| rec rest IH]; intros p p' H.
  - cbn in H. destruct last; unfold PtiAdapter.print in H;
      apply modify_done in H; subst p'; reflexivity.
  - cbn [PtiAdapter.drain] in H.
    apply bind_done in H. destruct H as (u & p1 & Ha & H). destruct u.
    apply AddRecord_released in Ha. apply IH in H. congruence.
Qed.

(** The path for a buffer with valid bytes: once the records are drained
    the buffer is handed to [operator delete]. *)
Lemma BufferReturned_releases (decode : PtiAdapter.decoder)
    (buffer buf_size valid_buf_size : Z) (p p' : PtiAdapter.Process) :
  buffer <> nullptr -> buf_size <> 0 -> valid_buf_size <> 0 ->
  PtiAdapter.BufferReturned decode buffer buf_size valid_buf_size p = Done (tt, p') ->
  PtiAdapter.released p' = PtiAdapter.released p ++ [buffer].
Proof.
  intros Hb Hs Hv H. unfold PtiAdapter.BufferReturned in H.
  apply bind_done in H. destruct H as (u & p1 & Hp & H).
  unfold PtiAdapter.print in Hp. apply modify_done in Hp. subst p1.
  destruct (Z.eqb_spec buffer nullptr) as [E | _]; [contradiction |].
  destruct (Z.eqb_spec valid_buf_size 0) as [E | _]; [contradiction |].
  destruct (Z.eqb_spec buf_size 0) as [E | _]; [contradiction |].
  cbn [orb] in H.
  destruct (decode buffer valid_buf_size) as [recs last].
  apply bind_done in H. destruct H as (u1 & p2 & Hd & H). destruct u1.
  apply drain_released in Hd. cbn in Hd.
  unfold PtiAdapter.DeleteBuffer in H.
  destruct (Z.eqb_spec buffer nullptr) as [E | _]; [contradiction |].
  apply modify_done in H. subst p'. cbn. rewrite Hd. reflexivity.
Qed.

(** C8 (what the handler does).  With a valid length of zero
    [BufferReturned] writes its line and returns: it does not decode, so
    the result does not depend on the decoder and no trace event is
    added, but it does not hand the buffer to [operator delete] either,
    the list of released pointers is as before. *)
Theorem C8_empty_buffer_is_not_released (decode : PtiAdapter.decoder)
    (buffer buf_size : Z) (p : PtiAdapter.Process) :
  PtiAdapter.BufferReturned decode buffer buf_size 0 p
    = Done (tt, PtiAdapter.mkProcess
                  (PtiAdapter.traceEvents p) (PtiAdapter.released p)
                  (PtiAdapter.console p ++ ["Buffer returned"%string])
                  (PtiAdapter.process_pid p)).
Proof.
  unfold PtiAdapter.BufferReturned, bind, PtiAdapter.print, modify.
  rewrite orb_true_r. reflexivity.
Qed.

(** * Collectors the hooks can build *)

(** ** One resolved instance, exactly *)

Lemma timestamps_to_ns_range {S} (freq start finish : Z) (s s' : S)
    (start_ns end_ns time : Z) :
  0 <= freq ->
  timestamps_to_ns freq start finish s = Done ((start_ns, end_ns, time), s') ->
  0 < freq
  /\ 0 <= start_ns < 2 ^ 64 /\ 0 <= end_ns < 2 ^ 64
  /\ time = u64 (end_ns - start_ns).
Proof.
  intros Hf H. unfold timestamps_to_ns in H.
  apply bind_done in H. destruct H as (sn & s1 & H1 & H).
  assert (Hpos : 0 < freq).
  { unfold udiv in H1. destruct (Z.eqb_spec freq 0); [discriminate H1 | lia]. }
  apply udiv_done in H1. destruct H1 as [-> ->].
  apply bind_done in H. destruct H as (en & s2 & H2 & H).
  apply ret_done in H. destruct H as [H ->]. injection H as -> -> ->.
  assert (Hdiv : forall x, 0 <= u64 x / freq < 2 ^ 64).
  { intros x. pose proof (u64_range x) as Hx. split.
    - apply Z.div_pos; lia.
    - apply Z.div_lt_upper_bound; [lia |]. nia. }
  assert (Hen : en = u64 (finish * NSEC_IN_SEC) / freq
                \/ en = u64 (u64 (2 ^ 32 + finish) * NSEC_IN_SEC) / freq).
  { destruct (start <? finish).
    - apply udiv_done in H2. tauto.
    - apply bind_done in H2. destruct H2 as (u & s3 & _ & H4).
      apply udiv_done in H4. tauto. }
  split; [exact Hpos |]. split; [apply Hdiv |].
  split; [destruct Hen as [-> | ->]; apply Hdiv | reflexivity].
Qed.

Lemma release_owned_event_data (drv : ZeDriver) (it : ZeKernelInstance)
    (c c' : ZeKernelCollector) :
  release_owned_event drv it c = Done (tt, c') ->
  c' = mkCollector (timer_frequency_ c) (kernel_info_map_ c)
         (kernel_interval_list_ c) (kernel_instance_list_ c)
         (command_list_map_ c) (driver_log c ++ teardown it).
Proof.
  unfold release_owned_event, teardown, is_owned.
  destruct (negb (event_pool it =? nullptr)); intros H.
  - unfold call_zeEventDestroy, call_zeEventPoolDestroy in H. run_inv H.
    unfold log_call. cbn. rewrite <- app_assoc. reflexivity.
  - run_inv H. rewrite app_nil_r. destruct c; reflexivity.
Qed.

(** A resolved instance: one interval, well formed and under the name of
    the instance, and one [AddKernelInfo] of its duration; nothing else
    but the driver log changes. *)
Lemma ProcessInstance_effect (drv : ZeDriver) (it : ZeKernelInstance)
    (c c' : ZeKernelCollector) :
  0 <= timer_frequency_ c ->
  ProcessInstance drv it c = Done (tt, c') ->
  exists iv,
    interval_ok iv /\ interval_name iv = name it
    /\ c' = mkCollector (timer_frequency_ c)
              (kernel_info_map_
                 (info_after (name it) (interval_duration iv) (simd_width it) c))
              (kernel_interval_list_ c ++ [iv]) (kernel_instance_list_ c)
              (command_list_map_ c) (driver_log c ++ teardown it).
Proof.
  intros Hfreq H. unfold ProcessInstance in H.
  apply bind_done in H. destruct H as (u & s1 & Hq & H).
  apply PTI_ASSERT_done in Hq. destruct Hq as [_ ->].
  destruct (zeEventQueryKernelTimestamp drv (event it)) as [status [start finish]].
  apply bind_done in H. destruct H as (u1 & s2 & Ha & H).
  apply PTI_ASSERT_done in Ha. destruct Ha as [_ ->].
  apply bind_done in H. destruct H as (c1 & s3 & Hg & H).
  apply get_done in Hg. destruct Hg as [-> ->].
  apply bind_done in H. destruct H as ([[start_ns end_ns] time] & s4 & Hns & H).
  pose proof (timestamps_to_ns_state _ _ _ _ _ _ Hns) as ->.
  apply (timestamps_to_ns_range _ _ _ _ _ _ _ _ Hfreq) in Hns.
  destruct Hns as (_ & Hsn & Hen & ->).
  apply bind_done in H. destruct H as (u2 & s5 & Hinfo & H).
  apply bind_done in H. destruct H as (u3 & s6 & Hiv & H).
  destruct u3.
  apply release_owned_event_data in H. subst c'.
  apply AddKernelInterval_inv in Hiv. destruct Hiv as [Hlt ->].
  apply AddKernelInfo_inv in Hinfo. destruct Hinfo as [Hnm ->].
  pose proof (info_after_frame (name it) (u64 (end_ns - start_ns)) (simd_width it) c)
    as (Ff & Fiv & Fin & Fcm & Flog).
  exists (mkInterval (name it) start_ns end_ns).
  split; [unfold interval_ok; cbn; repeat split; first [assumption | lia] |].
  split; [reflexivity |].
  cbn. unfold interval_duration. cbn.
  rewrite (u64_small (end_ns - start_ns)) in * by lia.
  rewrite Ff, Fiv, Fin, Fcm, Flog. reflexivity.
Qed.

(** ** The aggregate follows the interval list *)

Lemma sum_list_app (l1 l2 : list Z) :
  sum_list (l1 ++ l2) = sum_list l1 + sum_list l2.
Proof.
  unfold sum_list. induction l1 as [| x l1 IH]; cbn; [reflexivity |].
  rewrite IH. ring.
Qed.

Lemma durations_of_snoc (nm : string) (l : list ZeKernelInterval)
    (iv : ZeKernelInterval) :
  durations_of nm (l ++ [iv])
  = durations_of nm l
    ++ (if String.eqb (interval_name iv) nm then [interval_duration iv] else []).
Proof.
  unfold durations_of, intervals_of. rewrite List.filter_app, map_app. cbn.
  destruct (String.eqb (interval_name iv) nm); reflexivity.
Qed.

Lemma entry_agrees_fresh (d w : Z) :
  0 < d < 2 ^ 64 -> entry_agrees (Some (mkInfo d d d 1 w)) [d].
Proof.
  intros Hd. cbn.
  split; [discriminate |].
  split; [reflexivity |].
  split.
  { unfold sum_list. cbn. rewrite Z.add_0_r. symmetry. apply u64_small. lia. }
  split; [left; reflexivity |].
  split; [left; reflexivity |].
  repeat constructor; lia.
Qed.

Lemma entry_agrees_update (e : ZeKernelInfo) (ds : list Z) (d w : Z) :
  entry_agrees (Some e) ds ->
  entry_agrees (Some (update_info e d w)) (ds ++ [d]).
Proof.
  unfold entry_agrees. intros (Hne & Hcnt & Htot & Hmin & Hmax & Hall).
  rewrite update_info_fields.
  cbn [call_count total_time min_time max_time].
  split; [destruct ds; discriminate |].
  split.
  { rewrite Hcnt, length_app. cbn [length]. unfold u64.
    rewrite Zplus_mod_idemp_l. f_equal. lia. }
  split.
  { rewrite Htot, sum_list_app. unfold sum_list at 3. cbn.
    unfold u64. rewrite Zplus_mod_idemp_l. f_equal. ring. }
  split.
  { apply in_or_app. destruct (Z.min_spec (min_time e) d) as [[_ ->] | [_ ->]];
      [left; exact Hmin | right; left; reflexivity]. }
  split.
  { apply in_or_app. destruct (Z.max_spec (max_time e) d) as [[_ ->] | [_ ->]];
      [right; left; reflexivity | left; exact Hmax]. }
  apply List.Forall_app. split.
  - eapply List.Forall_impl; [| exact Hall]. cbn. intros x Hx. lia.
  - repeat constructor; lia.
Qed.

Lemma agree_after (c : ZeKernelCollector) (iv : ZeKernelInterval) (w : Z)
    (nm : string) :
  interval_ok iv ->
  (forall n, entry_agrees (kernel_info_map_ c !! n)
                          (durations_of n (kernel_interval_list_ c))) ->
  entry_agrees
    (kernel_info_map_
       (info_after (interval_name iv) (interval_duration iv) w c) !! nm)
    (durations_of nm (kernel_interval_list_ c ++ [iv])).
Proof.
  intros (_ & Hs & Hlt & He) Hagree.
  rewrite durations_of_snoc.
  destruct (String.eqb_spec (interval_name iv) nm) as [<- | Hne].
  - specialize (Hagree (interval_name iv)).
    destruct (kernel_info_map_ c !! interval_name iv) as [e |] eqn:Hlook.
    + rewrite (info_after_known _ _ _ _ _ Hlook).
      apply entry_agrees_update. exact Hagree.
    + rewrite (info_after_fresh _ _ _ _ Hlook).
      cbn in Hagree. rewrite Hagree. cbn [app].
      apply entry_agrees_fresh. unfold interval_duration. lia.
  - rewrite app_nil_r, info_after_other by congruence. apply Hagree.
Qed.

Lemma u64_add_l (a b : Z) : u64 (u64 a + b) = u64 (a + b).
Proof. unfold u64. apply Zplus_mod_idemp_l. Qed.

Lemma u64_add_r (a b : Z) : u64 (a + u64 b) = u64 (a + b).
Proof. unfold u64. apply Zplus_mod_idemp_r. Qed.

Lemma total_duration_insert (m : gmap string ZeKernelInfo) (nm : string)
    (e : ZeKernelInfo) :
  m !! nm = None ->
  total_duration (<[nm := e]> m) = u64 (total_duration m + total_time e).
Proof.
  intros Hnone. unfold total_duration.
  apply (map_fold_insert_L (fun _ e acc => u64 (acc + total_time e))); [| exact Hnone].
  intros j1 j2 z1 z2 y _ _ _. cbn. rewrite !u64_add_l. f_equal. ring.
Qed.

Lemma total_duration_lookup (m : gmap string ZeKernelInfo) (nm : string)
    (e : ZeKernelInfo) :
  m !! nm = Some e ->
  total_duration m = u64 (total_duration (delete nm m) + total_time e).
Proof.
  intros Hsome. unfold total_duration.
  apply (map_fold_delete_L (fun _ e acc => u64 (acc + total_time e))); [| exact Hsome].
  intros j1 j2 z1 z2 y _ _ _. cbn. rewrite !u64_add_l. f_equal. ring.
Qed.

(** One [AddKernelInfo] adds its duration to the sum of the totals. *)
Lemma total_duration_after (nm : string) (d w : Z) (c : ZeKernelCollector) :
  total_duration (kernel_info_map_ (info_after nm d w c))
  = u64 (total_duration (kernel_info_map_ c) + d).
Proof.
  unfold info_after.
  destruct (kernel_info_map_ c !! nm) as [e |] eqn:Hlook; cbn.
  - rewrite <- insert_delete_eq.
    rewrite total_duration_insert by apply lookup_delete_eq.
    rewrite (total_duration_lookup _ _ _ Hlook).
    cbn [update_info total_time].
    rewrite u64_add_r, u64_add_l. f_equal. ring.
  - rewrite total_duration_insert by exact Hlook. reflexivity.
Qed.

Lemma ProcessInstance_inv (drv : ZeDriver) (it : ZeKernelInstance)
    (c c' : ZeKernelCollector) :
  collector_inv c ->
  ProcessInstance drv it c = Done (tt, c') ->
  collector_inv c'
  /\ kernel_instance_list_ c' = kernel_instance_list_ c
  /\ command_list_map_ c' = command_list_map_ c
  /\ length (kernel_interval_list_ c') = S (length (kernel_interval_list_ c))
  /\ driver_log c' = driver_log c ++ teardown it.
Proof.
  intros [Hf Hiv Hin Hag Hcl Htd] H.
  apply ProcessInstance_effect in H; [| lia].
  destruct H as (iv & Hok & Hname & ->). cbn.
  split; [| split; [reflexivity | split; [reflexivity | split; [| reflexivity]]]].
  - constructor; cbn.
    + exact Hf.
    + apply List.Forall_app. split; [exact Hiv |].
      constructor; [exact Hok | constructor].
    + exact Hin.
    + intros nm. rewrite <- Hname. apply agree_after; assumption.
    + exact Hcl.
    + rewrite total_duration_after, Htd, map_app, sum_list_app, u64_add_l.
      f_equal. unfold sum_list. cbn. ring.
  - rewrite length_app. cbn. lia.
Qed.

(** ** Counting owned signals *)

Lemma count_calls_app (p : ZeCall -> bool) (l1 l2 : list ZeCall) :
  count_calls p (l1 ++ l2) = count_calls p l1 + count_calls p l2.
Proof. unfold count_calls. rewrite List.filter_app, length_app. lia. Qed.

Lemma open_after_teardown (log : list ZeCall) (it : ZeKernelInstance) :
  open_pools (log ++ teardown it) = open_pools log - (if is_owned it then 1 else 0)
  /\ open_events (log ++ teardown it)
     = open_events log - (if is_owned it then 1 else 0).
Proof.
  unfold open_pools, open_events, teardown. rewrite !count_calls_app.
  generalize (count_calls is_pool_create log) (count_calls is_pool_destroy log)
             (count_calls is_event_create log) (count_calls is_event_destroy log).
  intros pc pd ec ed. destruct (is_owned it); unfold count_calls; cbn; lia.
Qed.

Lemma open_after_create (log : list ZeCall) (context pool : Z) :
  open_pools (log ++ [CallEventPoolCreate context; CallEventCreate pool])
    = open_pools log + 1
  /\ open_events (log ++ [CallEventPoolCreate context; CallEventCreate pool])
     = open_events log + 1.
Proof.
  unfold open_pools, open_events. rewrite !count_calls_app.
  generalize (count_calls is_pool_create log) (count_calls is_pool_destroy log)
             (count_calls is_event_create log) (count_calls is_event_destroy log).
  intros pc pd ec ed. unfold count_calls. cbn. lia.
Qed.

Lemma owned_cons (it : ZeKernelInstance) (l : list ZeKernelInstance) :
  owned (it :: l) = (if is_owned it then 1 else 0) + owned l.
Proof. unfold owned. cbn [List.filter]. destruct (is_owned it); cbn [length]; lia. Qed.

Lemma owned_snoc (it : ZeKernelInstance) (l : list ZeKernelInstance) :
  owned (l ++ [it]) = owned l + (if is_owned it then 1 else 0).
Proof.
  unfold owned. rewrite List.filter_app, length_app. cbn [List.filter].
  destruct (is_owned it); cbn [length]; lia.
Qed.

(** ** The invariant along the hooks *)

Lemma inv_with_table (c : ZeKernelCollector) (l : list ZeKernelInstance) :
  collector_inv c -> Forall instance_ok l ->
  collector_inv (set_instance_list l c).
Proof. intros [Hf Hiv Hin Hag Hcl Htd] Hl. constructor; cbn; assumption. Qed.

Lemma pass_keeps_refl (c : ZeKernelCollector) (l : list ZeKernelInstance) :
  collector_inv c -> pass_keeps c c l l.
Proof. intros H. unfold pass_keeps. auto 10. Qed.

Lemma pass_keeps_resolved (drv : ZeDriver) (it : ZeKernelInstance)
    (c s c' : ZeKernelCollector) (rest rest' : list ZeKernelInstance) :
  collector_inv c ->
  ProcessInstance drv it c = Done (tt, s) ->
  (collector_inv s -> pass_keeps s c' rest rest') ->
  pass_keeps c c' (it :: rest) rest'.
Proof.
  intros Hinv Hp Hrest.
  apply (ProcessInstance_inv drv it c s Hinv) in Hp.
  destruct Hp as (Hinv2 & Hl2 & Hm2 & Hlen2 & Hlog2).
  destruct (Hrest Hinv2) as (Hinv' & Hl' & Hm' & Hlen' & Hpo & Hev & Hsub).
  pose proof (open_after_teardown (driver_log c) it) as [Tp Te].
  rewrite Hlog2 in Hpo, Hev. unfold pass_keeps. rewrite owned_cons.
  split; [exact Hinv' |]. split; [congruence |]. split; [congruence |].
  split; [cbn [length]; lia |]. split; [lia |]. split; [lia |].
  intros P HP. apply Hsub. inversion HP; assumption.
Qed.

Lemma pass_keeps_skipped (it : ZeKernelInstance) (c c' : ZeKernelCollector)
    (rest rest' : list ZeKernelInstance) :
  pass_keeps c c' rest rest' -> pass_keeps c c' (it :: rest) (it :: rest').
Proof.
  intros (Hinv' & Hl' & Hm' & Hlen' & Hpo & Hev & Hsub).
  unfold pass_keeps. rewrite !owned_cons.
  split; [exact Hinv' |]. split; [exact Hl' |]. split; [exact Hm' |].
  split; [cbn [length]; lia |]. split; [lia |]. split; [lia |].
  intros P HP. inversion HP; subst. constructor; [assumption | auto].
Qed.

Lemma poll_all_inv (drv : ZeDriver) (l : list ZeKernelInstance) :
  forall (c c' : ZeKernelCollector) (l' : list ZeKernelInstance),
    collector_inv c ->
    poll_all drv l c = Done (l', c') ->
    pass_keeps c c' l l'.
Proof.
  induction l as [| it rest IH]; intros c c' l' Hinv H.
  - cbn in H. apply ret_done in H. destruct H as [-> ->].
    apply pass_keeps_refl. exact Hinv.
  - cbn [poll_all] in H.
    apply bind_done in H. destruct H as (u & s1 & Ha & H).
    apply PTI_ASSERT_done in Ha. destruct Ha as [_ ->].
    destruct (zeEventQueryStatus drv (event it)) as [| | code].
    + apply bind_done in H. destruct H as (u1 & s2 & Hp & H). destruct u1.
      apply (pass_keeps_resolved drv it c s2 c' rest l' Hinv Hp).
      intros Hinv2. apply (IH _ _ _ Hinv2 H).
    + apply bind_done in H. destruct H as (rest' & s2 & Hp & H).
      apply ret_done in H. destruct H as [-> ->].
      apply pass_keeps_skipped. apply (IH _ _ _ Hinv Hp).
    + discriminate H.
Qed.

Lemma process_first_inv (drv : ZeDriver) (ev : Z) (l : list ZeKernelInstance) :
  forall (c c' : ZeKernelCollector) (l' : list ZeKernelInstance),
    collector_inv c ->
    process_first drv ev l c = Done (l', c') ->
    pass_keeps c c' l l'.
Proof.
  induction l as [| it rest IH]; intros c c' l' Hinv H.
  - cbn in H. apply ret_done in H. destruct H as [-> ->].
    apply pass_keeps_refl. exact Hinv.
  - cbn [process_first] in H. destruct (event it =? ev).
    + apply bind_done in H. destruct H as (u & s1 & Hp & H). destruct u.
      apply ret_done in H. destruct H as [-> ->].
      apply (pass_keeps_resolved drv it c s1 s1 rest rest Hinv Hp).
      intros Hinv2. apply pass_keeps_refl. exact Hinv2.
    + apply bind_done in H. destruct H as (rest' & s1 & Hp & H).
      apply ret_done in H. destruct H as [-> ->].
      apply pass_keeps_skipped. apply (IH _ _ _ Hinv Hp).
Qed.

Lemma pass_to_step (drv : ZeDriver) (c c' : ZeKernelCollector)
    (l' : list ZeKernelInstance) :
  collector_inv c ->
  pass_keeps c c' (kernel_instance_list_ c) l' ->
  step_keeps drv c (set_instance_list l' c') 0 (command_list_map_ c).
Proof.
  intros Hinv (Hinv' & _ & Hm & Hlen & Hpo & Hev & Hsub).
  unfold step_keeps. cbn.
  split; [apply inv_with_table; [exact Hinv' | apply Hsub; apply Hinv] |].
  split; [exact Hm |]. split; [lia |]. intros _. split; assumption.
Qed.

Lemma ProcessInstances_step (drv : ZeDriver) (c c' : ZeKernelCollector) :
  collector_inv c ->
  ProcessInstances drv c = Done (tt, c') ->
  step_keeps drv c c' 0 (command_list_map_ c).
Proof.
  intros Hinv H. unfold ProcessInstances in H.
  apply bind_done in H. destruct H as (c0 & s1 & Hg & H).
  apply get_done in Hg. destruct Hg as [-> ->].
  apply bind_done in H. destruct H as (l & s2 & Hp & H).
  apply modify_done in H. subst c'.
  apply pass_to_step; [exact Hinv |].
  apply (poll_all_inv drv _ _ _ _ Hinv Hp).
Qed.

Lemma step_keeps_refl (drv : ZeDriver) (c : ZeKernelCollector) :
  collector_inv c -> step_keeps drv c c 0 (command_list_map_ c).
Proof.
  intros H. unfold step_keeps.
  split; [exact H |]. split; [reflexivity |]. split; [lia |].
  intros _. split; reflexivity.
Qed.

Lemma notification_step (drv : ZeDriver) (ev : Z) (c c' : ZeKernelCollector) :
  collector_inv c ->
  (if negb (ev =? nullptr) then ProcessInstanceOfEvent drv ev else ret tt) c
    = Done (tt, c') ->
  step_keeps drv c c' 0 (command_list_map_ c).
Proof.
  intros Hinv H. destruct (negb (ev =? nullptr)).
  - unfold ProcessInstanceOfEvent in H.
    apply bind_done in H. destruct H as (u & s1 & Ha & H).
    apply PTI_ASSERT_done in Ha. destruct Ha as [_ ->].
    apply bind_done in H. destruct H as (c0 & s2 & Hg & H).
    apply get_done in Hg. destruct Hg as [-> ->].
    apply bind_done in H. destruct H as (l & s3 & Hp & H).
    apply modify_done in H. subst c'.
    apply pass_to_step; [exact Hinv |].
    apply (process_first_inv drv ev _ _ _ _ Hinv Hp).
  - apply ret_done in H. destruct H as [_ ->]. apply step_keeps_refl. exact Hinv.
Qed.

(** ** The prologue of a launch, exactly *)

Lemma with_log_nil (c : ZeKernelCollector) : with_log [] c = c.
Proof. unfold with_log. rewrite app_nil_r. destruct c; reflexivity. Qed.

Lemma CreateEvent_data (drv : ZeDriver) (context : Z) (pe : Z * Z)
    (c c' : ZeKernelCollector) :
  CreateEvent drv context c = Done (pe, c') ->
  context <> nullptr
  /\ fst (zeEventPoolCreate drv context) = ZE_RESULT_SUCCESS
  /\ pe = (snd (zeEventPoolCreate drv context),
           snd (zeEventCreate drv (snd (zeEventPoolCreate drv context))))
  /\ c' = with_log [CallEventPoolCreate context;
                    CallEventCreate (snd (zeEventPoolCreate drv context))] c.
Proof.
  unfold CreateEvent. intros H.
  destruct (zeEventPoolCreate drv context) as [status pool].
  destruct (zeEventCreate drv pool) as [status' ev] eqn:Hev.
  cbn [fst snd]. rewrite Hev. cbn [snd].
  apply bind_done in H. destruct H as (u & s1 & Ha & H).
  apply PTI_ASSERT_done in Ha. destruct Ha as [Hctx ->].
  run_inv H.
  split; [intros E; rewrite E in Hctx; discriminate Hctx |].
  split; [destruct status; [reflexivity | discriminate..] |].
  split; [reflexivity |].
  unfold with_log, log_call. cbn. rewrite <- app_assoc. reflexivity.
Qed.

Lemma OnEnterKernelAppend_data (drv : ZeDriver) (nm : string)
    (width signal_event command_list sig' : Z)
    (slot : option ZeKernelInstance) (c0 c : ZeKernelCollector) :
  OnEnterKernelAppend drv nm width signal_event command_list c0
    = Done ((sig', slot), c) ->
  nm <> EmptyString
  /\ ((command_list = nullptr /\ slot = None /\ sig' = signal_event /\ c = c0)
      \/ (command_list <> nullptr /\ signal_event <> nullptr
          /\ slot = Some (mkInstance nm width nullptr signal_event)
          /\ sig' = signal_event /\ c = c0)
      \/ (command_list <> nullptr /\ signal_event = nullptr
          /\ exists context,
               command_list_map_ c0 !! command_list = Some context
               /\ fst (zeEventPoolCreate drv context) = ZE_RESULT_SUCCESS
               /\ slot = Some (mkInstance nm width
                                 (snd (zeEventPoolCreate drv context)) sig')
               /\ sig' = snd (zeEventCreate drv
                                (snd (zeEventPoolCreate drv context)))
               /\ c = with_log
                        [CallEventPoolCreate context;
                         CallEventCreate (snd (zeEventPoolCreate drv context))]
                        c0)).
Proof.
  unfold OnEnterKernelAppend. intros H.
  apply bind_done in H. destruct H as (u & s1 & Ha & H).
  apply PTI_ASSERT_done in Ha. destruct Ha as [Hnm ->].
  split; [intros E; rewrite E in Hnm; discriminate Hnm |].
  destruct (Z.eqb_spec command_list nullptr) as [Ecl | Hcl].
  { apply ret_done in H. destruct H as [H ->]. injection H as -> ->.
    left. auto. }
  destruct (Z.eqb_spec signal_event nullptr) as [Esig | Hsig].
  - right. right.
    apply bind_done in H. destruct H as (context & s2 & Hctx & H).
    apply GetCommandListContext_done in Hctx. destruct Hctx as [-> Hctx].
    apply bind_done in H. destruct H as (pe & s3 & Hce & H).
    apply ret_done in H. destruct H as [H ->]. injection H as -> ->.
    apply CreateEvent_data in Hce. destruct Hce as (_ & Hok & -> & ->).
    cbn [fst snd].
    split; [exact Hcl |]. split; [exact Esig |].
    exists context. auto.
  - right. left.
    apply ret_done in H. destruct H as [H ->]. injection H as -> ->. auto.
Qed.

Lemma launch_epilogue_unfold (k : LaunchKind) (drv : ZeDriver)
    (signal_event command_list : Z) (slot : option ZeKernelInstance)
    (result : ze_result_t) :
  launch_epilogue k drv signal_event command_list slot result
  = (PTI_ASSERT (negb (signal_event =? nullptr)) ;;;
     OnExitKernelAppend drv command_list slot result).
Proof. destruct k; reflexivity. Qed.

(** The epilogue for a filled slot, once its two assertions hold. *)
Lemma epilogue_filled (k : LaunchKind) (drv : ZeDriver)
    (signal_event command_list : Z) (it : ZeKernelInstance)
    (result : ze_result_t) (c c' : ZeKernelCollector) :
  launch_epilogue k drv signal_event command_list (Some it) result c
    = Done (tt, c') ->
  signal_event <> nullptr /\ command_list <> nullptr
  /\ c' = if is_success result
          then set_instance_list (kernel_instance_list_ c ++ [it]) c
          else with_log (teardown it) c.
Proof.
  rewrite launch_epilogue_unfold. intros H.
  apply bind_done in H. destruct H as (u & s1 & Ha & H).
  apply PTI_ASSERT_done in Ha. destruct Ha as [Hsig ->].
  unfold OnExitKernelAppend in H.
  apply bind_done in H. destruct H as (u1 & s2 & Ha & H).
  apply PTI_ASSERT_done in Ha. destruct Ha as [Hcl ->].
  split; [intros E; rewrite E in Hsig; discriminate Hsig |].
  split; [intros E; rewrite E in Hcl; discriminate Hcl |].
  destruct (is_success result); cbn [negb] in H.
  - unfold AddKernelInstance in H. run_inv H. reflexivity.
  - apply release_owned_event_data in H. exact H.
Qed.

Lemma inv_with_log (log : list ZeCall) (c : ZeKernelCollector) :
  collector_inv c -> collector_inv (with_log log c).
Proof. intros [Hf Hiv Hin Hag Hcl Htd]. constructor; cbn; assumption. Qed.

Lemma launch_step (k : LaunchKind) (drv : ZeDriver) (nm : string)
    (width signal_event command_list : Z) (result : ze_result_t)
    (c c' : ZeKernelCollector) :
  collector_inv c ->
  dispatch drv (AppendLaunch k nm width signal_event command_list result) c
    = Done (tt, c') ->
  step_keeps drv c c' (if is_success result then 1 else 0) (command_list_map_ c).
Proof.
  intros Hinv H. cbn [dispatch] in H.
  apply bind_done in H. destruct H as ([sig' slot] & c1 & Hpro & H).
  cbn [fst snd] in H.
  apply OnEnterKernelAppend_data in Hpro.
  destruct Hpro as (Hnm & [(Hcl & -> & _ & ->)
                          | [(Hcl & Hsig & -> & -> & ->)
                            | (Hcl & Hsig & context & Hctx & Hok & -> & Hev & ->)]]).
  - rewrite launch_epilogue_unfold in H.
    apply bind_done in H. destruct H as (u & s1 & _ & H).
    unfold OnExitKernelAppend in H.
    apply bind_done in H. destruct H as (u1 & s2 & Ha & _).
    apply PTI_ASSERT_done in Ha. destruct Ha as [Ha _].
    rewrite Hcl in Ha. discriminate Ha.
  - apply epilogue_filled in H. destruct H as (_ & _ & ->).
    destruct Hinv as [Hf Hiv Hin Hag Hlists Htd].
    destruct (is_success result); unfold step_keeps.
    + split.
      { constructor; cbn; try assumption.
        apply List.Forall_app. split; [exact Hin |].
        constructor; [split; assumption | constructor]. }
      cbn. split; [reflexivity |].
      split; [rewrite length_app; cbn; lia |].
      intros _. rewrite owned_snoc. cbn. lia.
    + cbn. rewrite app_nil_r.
      split; [constructor; cbn; assumption |].
      split; [reflexivity |]. split; [lia |]. intros _. lia.
  - apply epilogue_filled in H. destruct H as (Hsig' & _ & ->).
    pose proof (open_after_create (driver_log c) context
                  (snd (zeEventPoolCreate drv context))) as [Cp Ce].
    set (it := mkInstance nm width (snd (zeEventPoolCreate drv context)) sig') in *.
    assert (Hown : pools_not_null drv -> is_owned it = true).
    { intros Hpn. unfold is_owned, it. cbn.
      destruct (Z.eqb_spec (snd (zeEventPoolCreate drv context)) nullptr) as [E | _];
        [destruct (Hpn context Hok E) | reflexivity]. }
    destruct Hinv as [Hf Hiv Hin Hag Hlists Htd].
    destruct (is_success result); unfold step_keeps.
    + split.
      { constructor; cbn; try assumption.
        apply List.Forall_app. split; [exact Hin |].
        constructor; [split; assumption | constructor]. }
      cbn. split; [reflexivity |].
      split; [rewrite length_app; cbn; lia |].
      intros Hpn. rewrite owned_snoc, (Hown Hpn). lia.
    + cbn.
      split; [constructor; cbn; assumption |].
      split; [reflexivity |]. split; [lia |].
      intros Hpn.
      pose proof (open_after_teardown
                    (driver_log c ++ [CallEventPoolCreate context;
                       CallEventCreate (snd (zeEventPoolCreate drv context))]) it)
        as [Tp Te].
      rewrite (Hown Hpn) in Tp, Te. lia.
Qed.

(** ** Creating and destroying command lists *)

Lemma AddCommandList_done (command_list context : Z) (c c' : ZeKernelCollector) :
  AddCommandList command_list context c = Done (tt, c') ->
  command_list <> nullptr /\ context <> nullptr
  /\ command_list_map_ c !! command_list = None
  /\ c' = set_command_list_map
            (<[command_list := context]> (command_list_map_ c)) c.
Proof.
  unfold AddCommandList. intros H.
  apply bind_done in H. destruct H as (u & s1 & Ha & H).
  apply PTI_ASSERT_done in Ha. destruct Ha as [Hcl ->].
  apply bind_done in H. destruct H as (u1 & s2 & Ha & H).
  apply PTI_ASSERT_done in Ha. destruct Ha as [Hctx ->].
  apply bind_done in H. destruct H as (c0 & s3 & Hg & H).
  apply get_done in Hg. destruct Hg as [-> ->].
  apply bind_done in H. destruct H as (u2 & s4 & Ha & H).
  apply PTI_ASSERT_done in Ha. destruct Ha as [Hnone ->].
  apply modify_done in H.
  split; [intros E; rewrite E in Hcl; discriminate Hcl |].
  split; [intros E; rewrite E in Hctx; discriminate Hctx |].
  split; [apply bool_decide_eq_true in Hnone; exact Hnone | exact H].
Qed.

Lemma create_step (drv : ZeDriver) (command_list context : Z)
    (result : ze_result_t) (c c' : ZeKernelCollector) :
  collector_inv c ->
  (if is_success result
   then (PTI_ASSERT (negb (command_list =? nullptr)) ;;;
         AddCommandList command_list context)
   else ret tt) c = Done (tt, c') ->
  step_keeps drv c c' 0
    (if is_success result then <[command_list := context]> (command_list_map_ c)
     else command_list_map_ c).
Proof.
  intros Hinv H. destruct (is_success result).
  - apply bind_done in H. destruct H as (u & s1 & Ha & H).
    apply PTI_ASSERT_done in Ha. destruct Ha as [_ ->].
    apply AddCommandList_done in H. destruct H as (Hcl & Hctx & _ & ->).
    destruct Hinv as [Hf Hiv Hin Hag Hlists Htd]. unfold step_keeps. cbn.
    split; [| split; [reflexivity | split; [lia | intros _; lia]]].
    constructor; cbn; try assumption.
    intros l x Hlook. destruct (decide (command_list = l)) as [<- | Hne].
    + rewrite lookup_insert_eq in Hlook. injection Hlook as <-. auto.
    + rewrite lookup_insert_ne in Hlook by exact Hne. eauto.
  - apply ret_done in H. destruct H as [_ ->]. apply step_keeps_refl. exact Hinv.
Qed.

Lemma destroy_step (drv : ZeDriver) (command_list : Z) (result : ze_result_t)
    (c c' : ZeKernelCollector) :
  collector_inv c ->
  OnExitCommandListDestroy drv command_list result c = Done (tt, c') ->
  step_keeps drv c c' 0
    (if is_success result then delete command_list (command_list_map_ c)
     else command_list_map_ c).
Proof.
  intros Hinv H. unfold OnExitCommandListDestroy in H.
  destruct (is_success result).
  - apply bind_done in H. destruct H as (u & s1 & Ha & H).
    apply PTI_ASSERT_done in Ha. destruct Ha as [_ ->].
    apply bind_done in H. destruct H as (u1 & c1 & Hp & H). destruct u1.
    apply (ProcessInstances_step drv c c1 Hinv) in Hp.
    destruct Hp as (Hinv1 & Hm & Hlen & Hbal).
    apply RemoveCommandList_done in H. destruct H as (_ & _ & ->).
    destruct Hinv1 as [Hf Hiv Hin Hag Hlists Htd]. unfold step_keeps. cbn.
    split; [| split; [congruence | split; [exact Hlen | exact Hbal]]].
    constructor; cbn; try assumption.
    intros l x Hlook. apply lookup_delete_Some in Hlook.
    destruct Hlook as [_ Hlook]. eauto.
  - apply ret_done in H. destruct H as [_ ->]. apply step_keeps_refl. exact Hinv.
Qed.

Lemma synchronize_step (drv : ZeDriver) (result : ze_result_t)
    (c c' : ZeKernelCollector) :
  collector_inv c ->
  (if is_success result then ProcessInstances drv else ret tt) c = Done (tt, c') ->
  step_keeps drv c c' 0 (command_list_map_ c).
Proof.
  intros Hinv H. destruct (is_success result).
  - apply ProcessInstances_step; assumption.
  - apply ret_done in H. destruct H as [_ ->]. apply step_keeps_refl. exact Hinv.
Qed.

(** ** Every hook keeps the invariant *)

Lemma dispatch_step (drv : ZeDriver) (cb : Callback) (c c' : ZeKernelCollector) :
  collector_inv c ->
  dispatch drv cb c = Done (tt, c') ->
  step_keeps drv c c' (launch_count cb) (lists_step cb (command_list_map_ c)).
Proof.
  intros Hinv H. destruct cb; cbn [launch_count lists_step].
  - apply (notification_step drv hEvent); assumption.
  - apply (notification_step drv hEvent); assumption.
  - apply (launch_step k drv nm width signal_event command_list); assumption.
  - apply (create_step drv command_list context result); [exact Hinv | exact H].
  - apply (create_step drv command_list context result); [exact Hinv | exact H].
  - apply destroy_step; assumption.
  - apply (synchronize_step drv result); [exact Hinv | exact H].
  - apply (synchronize_step drv result); [exact Hinv | exact H].
Qed.

Lemma launched_cons (drv : ZeDriver) (cb : Callback)
    (t : list (ZeDriver * Callback)) :
  launched ((drv, cb) :: t) = (launch_count cb + launched t)%nat.
Proof.
  unfold launched. cbn [List.filter snd].
  destruct cb; cbn [launch_count]; try reflexivity.
  destruct (is_success result); reflexivity.
Qed.

Lemma lists_after_cons (drv : ZeDriver) (cb : Callback)
    (t : list (ZeDriver * Callback)) (m : gmap Z Z) :
  lists_after ((drv, cb) :: t) m = lists_after t (lists_step cb m).
Proof. destruct cb; reflexivity. Qed.

Lemma run_trace_keeps (t : list (ZeDriver * Callback)) :
  forall c c' : ZeKernelCollector,
    collector_inv c ->
    run_trace t c = Done (tt, c') ->
    collector_inv c'
    /\ command_list_map_ c' = lists_after t (command_list_map_ c)
    /\ (length (kernel_interval_list_ c') + length (kernel_instance_list_ c')
        = length (kernel_interval_list_ c) + length (kernel_instance_list_ c)
          + launched t)%nat
    /\ (Forall (fun dc => pools_not_null (fst dc)) t ->
        open_pools (driver_log c') - owned (kernel_instance_list_ c')
          = open_pools (driver_log c) - owned (kernel_instance_list_ c)
        /\ open_events (driver_log c') - owned (kernel_instance_list_ c')
           = open_events (driver_log c) - owned (kernel_instance_list_ c)).
Proof.
  induction t as [| [drv cb] rest IH]; intros c c' Hinv H.
  - cbn in H. apply ret_done in H. destruct H as [_ ->].
    split; [exact Hinv |]. split; [reflexivity |].
    split; [cbn; lia |]. intros _. split; reflexivity.
  - cbn [run_trace] in H.
    apply bind_done in H. destruct H as (u & c1 & Hd & H). destruct u.
    apply (dispatch_step drv cb c c1 Hinv) in Hd.
    destruct Hd as (Hinv1 & Hm1 & Hlen1 & Hbal1).
    apply (IH c1 c' Hinv1) in H. destruct H as (Hinv' & Hm' & Hlen' & Hbal').
    split; [exact Hinv' |].
    split; [rewrite lists_after_cons, <- Hm1; exact Hm' |].
    split; [rewrite launched_cons; lia |].
    intros Hall. inversion Hall as [| x l Hdrv Hrest]; subst. cbn [fst] in Hdrv.
    destruct (Hbal1 Hdrv) as [P1 E1]. destruct (Hbal' Hrest) as [P2 E2].
    split; lia.
Qed.

Lemma fresh_collector_inv (freq : Z) :
  0 <= freq < 2 ^ 64 -> collector_inv (fresh_collector freq).
Proof.
  intros Hf. constructor; cbn.
  - exact Hf.
  - constructor.
  - constructor.
  - intros nm. rewrite lookup_empty. reflexivity.
  - intros l x Hlook. rewrite lookup_empty in Hlook. discriminate Hlook.
  - unfold total_duration. rewrite map_fold_empty. reflexivity.
Qed.

Lemma sample_trace_runs :
  run_trace sample_trace (fresh_collector 1000000000) = Done (tt, sample_final).
Proof. vm_compute. reflexivity. Qed.


(** ** What holds after every traced program *)

(** X1.  Whatever calls a traced program makes, every interval the
    collector has recorded carries a name that is not empty and
    nanosecond bounds with [0 <= start < end < 2^64]. *)
Theorem X1_recorded_intervals_are_proper (freq : Z)
    (t : list (ZeDriver * Callback)) (c : ZeKernelCollector) :
  0 <= freq < 2 ^ 64 ->
  run_trace t (fresh_collector freq) = Done (tt, c) ->
  forall iv, In iv (kernel_interval_list_ c) ->
    interval_name iv <> EmptyString
    /\ 0 <= interval_start iv /\ interval_start iv < interval_end iv
    /\ interval_end iv < 2 ^ 64.
Proof.
  intros Hf Hrun iv Hin.
  destruct (run_trace_keeps t _ _ (fresh_collector_inv freq Hf) Hrun) as ([_ Hiv _ _ _ _] & _).
  rewrite List.Forall_forall in Hiv. apply (Hiv iv Hin).
Qed.

Lemma X1_recorded_intervals_are_proper_witness :
  interval_name (mkInterval "gemm" 100 200) <> EmptyString
  /\ 0 <= 100 /\ 100 < 200 /\ 200 < 2 ^ 64.
Proof.
  apply (X1_recorded_intervals_are_proper 1000000000 sample_trace sample_final
           ltac:(lia) sample_trace_runs (mkInterval "gemm" 100 200)).
  left. reflexivity.
Defined.

(** X2.  After every traced program the aggregate table and the interval
    list tell the same story: a name has an entry exactly when it has
    intervals, and then [call_count] is the number of its intervals and
    [total_time] the sum of their durations [end - start], both modulo
    [2^64]. *)
Theorem X2_aggregate_matches_intervals (freq : Z)
    (t : list (ZeDriver * Callback)) (c : ZeKernelCollector) (nm : string) :
  0 <= freq < 2 ^ 64 ->
  run_trace t (fresh_collector freq) = Done (tt, c) ->
  (kernel_info_map_ c !! nm = None <-> intervals_of nm (kernel_interval_list_ c) = [])
  /\ (forall e, kernel_info_map_ c !! nm = Some e ->
        call_count e
          = u64 (Z.of_nat (length (intervals_of nm (kernel_interval_list_ c))))
        /\ total_time e
           = u64 (sum_list (durations_of nm (kernel_interval_list_ c)))).
Proof.
  intros Hf Hrun.
  destruct (run_trace_keeps t _ _ (fresh_collector_inv freq Hf) Hrun) as ([_ _ _ Hag _ _] & _).
  specialize (Hag nm). unfold durations_of in *.
  destruct (kernel_info_map_ c !! nm) as [e |]; cbn in Hag.
  - destruct Hag as (Hne & Hcnt & Htot & _). split.
    + split; [discriminate |]. intros E. rewrite E in Hne. contradiction.
    + intros e' He'. injection He' as <-. rewrite length_map in Hcnt. auto.
  - split.
    + split; [intros _ | reflexivity].
      destruct (intervals_of nm (kernel_interval_list_ c)); [reflexivity | discriminate].
    + intros e He. discriminate He.
Qed.

Lemma X2_aggregate_matches_intervals_witness :
  call_count (mkInfo 200 100 100 2 16) = u64 2
  /\ total_time (mkInfo 200 100 100 2 16) = u64 200.
Proof.
  destruct (X2_aggregate_matches_intervals 1000000000 sample_trace sample_final
              "gemm" ltac:(lia) sample_trace_runs) as [_ H].
  apply (H (mkInfo 200 100 100 2 16)). vm_compute. reflexivity.
Defined.

(** X3.  After every traced program [min_time] and [max_time] of an
    entry are the smallest and the largest duration among the intervals
    recorded under its name: both occur among them and bound them all. *)
Theorem X3_min_max_are_extrema (freq : Z)
    (t : list (ZeDriver * Callback)) (c : ZeKernelCollector) (nm : string)
    (e : ZeKernelInfo) :
  0 <= freq < 2 ^ 64 ->
  run_trace t (fresh_collector freq) = Done (tt, c) ->
  kernel_info_map_ c !! nm = Some e ->
  In (min_time e) (durations_of nm (kernel_interval_list_ c))
  /\ In (max_time e) (durations_of nm (kernel_interval_list_ c))
  /\ (forall d, In d (durations_of nm (kernel_interval_list_ c)) ->
        min_time e <= d <= max_time e)
  /\ 0 < min_time e <= max_time e.
Proof.
  intros Hf Hrun He.
  destruct (run_trace_keeps t _ _ (fresh_collector_inv freq Hf) Hrun) as ([_ Hiv _ Hag _ _] & _).
  specialize (Hag nm). rewrite He in Hag.
  destruct Hag as (_ & _ & _ & Hmin & Hmax & Hall).
  rewrite List.Forall_forall in Hall.
  split; [exact Hmin |]. split; [exact Hmax |]. split; [exact Hall |].
  pose proof (Hall _ Hmax) as Hb.
  split; [| lia].
  unfold durations_of in Hmin. apply in_map_iff in Hmin.
  destruct Hmin as (iv & Hd & Hin). unfold intervals_of in Hin.
  apply filter_In in Hin. destruct Hin as [Hin _].
  rewrite List.Forall_forall in Hiv. destruct (Hiv iv Hin) as (_ & _ & Hlt & _).
  unfold interval_duration in Hd. lia.
Qed.

Lemma X3_min_max_are_extrema_witness :
  In 100 (durations_of "gemm" (kernel_interval_list_ sample_final)).
Proof.
  apply (X3_min_max_are_extrema 1000000000 sample_trace sample_final "gemm"
           (mkInfo 200 100 100 2 16) ltac:(lia) sample_trace_runs).
  vm_compute. reflexivity.
Defined.

(** X4.  Every instance in flight after a traced program has a name and
    a signal, so a poll cannot stop at its own assertions: when every
    signal in the table answers not ready, a queue synchronize returns
    and leaves the collector as it was. *)
Theorem X4_poll_of_pending_table_returns (freq : Z)
    (t : list (ZeDriver * Callback)) (c : ZeKernelCollector) (drv : ZeDriver) :
  0 <= freq < 2 ^ 64 ->
  run_trace t (fresh_collector freq) = Done (tt, c) ->
  (forall it, In it (kernel_instance_list_ c) ->
     zeEventQueryStatus drv (event it) = ZE_RESULT_NOT_READY) ->
  (forall it, In it (kernel_instance_list_ c) ->
     name it <> EmptyString /\ event it <> nullptr)
  /\ OnExitCommandQueueSynchronize drv ZE_RESULT_SUCCESS c = Done (tt, c)
  /\ OnExitCommandQueueDestroy drv ZE_RESULT_SUCCESS c = Done (tt, c).
Proof.
  intros Hf Hrun Hpending.
  destruct (run_trace_keeps t _ _ (fresh_collector_inv freq Hf) Hrun) as ([_ _ Hin _ _ _] & _).
  rewrite List.Forall_forall in Hin.
  assert (Hall : Forall (fun it => event it <> nullptr
                   /\ zeEventQueryStatus drv (event it) = ZE_RESULT_NOT_READY)
                   (kernel_instance_list_ c)).
  { apply List.Forall_forall. intros it Hit. split; [apply (Hin it Hit) | auto]. }
  split; [exact Hin |].
  split; apply ProcessInstances_pending; exact Hall.
Qed.

Lemma X4_poll_of_pending_table_returns_witness :
  (forall it, In it [gemm_instance; owned_instance] ->
     name it <> EmptyString /\ event it <> nullptr)
  /\ OnExitCommandQueueSynchronize driver_pending ZE_RESULT_SUCCESS pending_final
     = Done (tt, pending_final)
  /\ OnExitCommandQueueDestroy driver_pending ZE_RESULT_SUCCESS pending_final
     = Done (tt, pending_final).
Proof.
  apply (X4_poll_of_pending_table_returns 1000000000 pending_trace pending_final
           driver_pending ltac:(lia) ltac:(vm_compute; reflexivity)).
  intros it Hit. reflexivity.
Defined.

(** X5.  No instance is lost and none is counted twice: after every
    traced program the intervals recorded and the instances still in
    flight together are as many as the launches whose driver call
    succeeded. *)
Theorem X5_launches_are_conserved (freq : Z)
    (t : list (ZeDriver * Callback)) (c : ZeKernelCollector) :
  0 <= freq < 2 ^ 64 ->
  run_trace t (fresh_collector freq) = Done (tt, c) ->
  (length (kernel_interval_list_ c) + length (kernel_instance_list_ c)
   = launched t)%nat.
Proof.
  intros Hf Hrun.
  destruct (run_trace_keeps t _ _ (fresh_collector_inv freq Hf) Hrun) as (_ & _ & Hlen & _).
  cbn in Hlen. exact Hlen.
Qed.

Lemma X5_launches_are_conserved_witness :
  (length (kernel_interval_list_ sample_final)
   + length (kernel_instance_list_ sample_final) = 2)%nat.
Proof.
  apply (X5_launches_are_conserved 1000000000 sample_trace sample_final
           ltac:(lia) sample_trace_runs).
Defined.

(** X6.  The command-list map after a traced program depends on the
    creates and destroys alone: it holds the lists created with success
    and not destroyed with success since, each under the context of its
    creation, and neither a list nor a context in it is null. *)
Theorem X6_command_lists_follow_create_destroy (freq : Z)
    (t : list (ZeDriver * Callback)) (c : ZeKernelCollector) :
  0 <= freq < 2 ^ 64 ->
  run_trace t (fresh_collector freq) = Done (tt, c) ->
  command_list_map_ c = lists_after t ∅
  /\ (forall command_list context,
        command_list_map_ c !! command_list = Some context ->
        command_list <> nullptr /\ context <> nullptr).
Proof.
  intros Hf Hrun.
  destruct (run_trace_keeps t _ _ (fresh_collector_inv freq Hf) Hrun)
    as ([_ _ _ _ Hlists _] & Hm & _).
  split; [exact Hm | exact Hlists].
Qed.

Lemma X6_command_lists_follow_create_destroy_witness :
  command_list_map_ sample_final = lists_after sample_trace ∅.
Proof.
  apply (X6_command_lists_follow_create_destroy 1000000000 sample_trace
           sample_final ltac:(lia) sample_trace_runs).
Defined.



(** ** Ordering the entries *)

(** X8.  [operator>] on entries is a strict order by total time and then
    by call count: it is irreflexive and transitive, and two entries are
    unordered by it exactly when [operator!=] calls them equal, which is
    when they agree in total time and call count, whatever their minimum,
    maximum and width. *)
Theorem X8_entry_order_is_strict (a b c : ZeKernelInfo) :
  ZeKernelInfo_gt a a = false
  /\ (ZeKernelInfo_gt a b = true -> ZeKernelInfo_gt b c = true ->
      ZeKernelInfo_gt a c = true)
  /\ (ZeKernelInfo_gt a b = true -> ZeKernelInfo_gt b a = false)
  /\ ZeKernelInfo_ne a b = ZeKernelInfo_gt a b || ZeKernelInfo_gt b a
  /\ (ZeKernelInfo_ne a b = false <->
      total_time a = total_time b /\ call_count a = call_count b).
Proof.
  assert (Hgt : forall x y, ZeKernelInfo_gt x y = true <->
            total_time y < total_time x
            \/ (total_time x = total_time y /\ call_count y < call_count x)).
  { intros x y. unfold ZeKernelInfo_gt.
    destruct (Z.eqb_spec (total_time x) (total_time y)) as [E | N]; cbn [negb].
    - rewrite Z.ltb_lt. lia.
    - rewrite Z.ltb_lt. lia. }
  assert (Hngt : forall x y, ZeKernelInfo_gt x y = false <->
            ~ (total_time y < total_time x
               \/ (total_time x = total_time y /\ call_count y < call_count x))).
  { intros x y. rewrite <- Hgt. destruct (ZeKernelInfo_gt x y); split; congruence. }
  assert (Hne : ZeKernelInfo_ne a b = false <->
            total_time a = total_time b /\ call_count a = call_count b).
  { unfold ZeKernelInfo_ne.
    destruct (Z.eqb_spec (total_time a) (total_time b)) as [E | N].
    - destruct (Z.eqb_spec (call_count a) (call_count b)); cbn; split;
        first [tauto | discriminate | intros [_ ?]; contradiction].
    - split; [discriminate | intros [? _]; contradiction]. }
  split; [apply Hngt; lia |].
  split; [rewrite !Hgt; lia |].
  split; [rewrite Hgt, Hngt; lia |].
  split; [| exact Hne].
  destruct (ZeKernelInfo_ne a b) eqn:En.
  - symmetry. apply orb_true_iff. rewrite !Hgt.
    assert (~ (total_time a = total_time b /\ call_count a = call_count b))
      by (rewrite <- Hne; discriminate).
    lia.
  - symmetry. apply orb_false_iff. rewrite !Hngt.
    destruct (proj1 Hne eq_refl). lia.
Qed.

(** ** The average of a row *)

Lemma sum_list_bounds (ds : list Z) (lo hi : Z) :
  Forall (fun d => lo <= d <= hi) ds ->
  lo * Z.of_nat (length ds) <= sum_list ds <= hi * Z.of_nat (length ds).
Proof.
  induction 1 as [| d ds Hd _ IH]; [cbn; lia |].
  change (sum_list (d :: ds)) with (d + sum_list ds).
  cbn [length]. lia.
Qed.

(** X9.  For an entry of a collector after a traced program, as long as
    neither [call_count] nor [total_time] has wrapped, the call count is
    at least 1, so the average [total_time / call_count] of its table
    row is defined, and the average lies between [min_time] and
    [max_time]. *)
Theorem X9_row_average_is_between_min_and_max (freq : Z)
    (t : list (ZeDriver * Callback)) (c : ZeKernelCollector) (nm : string)
    (e : ZeKernelInfo) :
  0 <= freq < 2 ^ 64 ->
  run_trace t (fresh_collector freq) = Done (tt, c) ->
  kernel_info_map_ c !! nm = Some e ->
  Z.of_nat (length (durations_of nm (kernel_interval_list_ c))) < 2 ^ 64 ->
  sum_list (durations_of nm (kernel_interval_list_ c)) < 2 ^ 64 ->
  1 <= call_count e
  /\ forall (S : Type) (s : S),
       avg_duration e s = Done (total_time e / call_count e, s)
       /\ min_time e <= total_time e / call_count e <= max_time e.
Proof.
  intros Hf Hrun He Hcnt Hsum.
  destruct (run_trace_keeps t _ _ (fresh_collector_inv freq Hf) Hrun)
    as ([_ Hiv _ Hag _ _] & _).
  specialize (Hag nm). rewrite He in Hag.
  destruct Hag as (Hne & Hc & Ht & Hmin & _ & Hall).
  set (ds := durations_of nm (kernel_interval_list_ c)) in *.
  assert (Hlen : 1 <= Z.of_nat (length ds)) by (destruct ds; [contradiction | cbn; lia]).
  pose proof (sum_list_bounds ds _ _ Hall) as Hb.
  assert (Hminpos : 0 <= min_time e).
  { unfold ds, durations_of in Hmin. apply in_map_iff in Hmin.
    destruct Hmin as (iv & Hd & Hin). unfold intervals_of in Hin.
    apply filter_In in Hin. destruct Hin as [Hin _].
    rewrite List.Forall_forall in Hiv. destruct (Hiv iv Hin) as (_ & _ & Hlt & _).
    unfold interval_duration in Hd. lia. }
  rewrite u64_small in Hc by lia.
  rewrite u64_small in Ht by nia.
  split; [lia |]. intros S s.
  split; [unfold avg_duration; apply udiv_pos; lia |].
  rewrite Hc, Ht. split.
  - apply Z.div_le_lower_bound; lia.
  - apply Z.div_le_upper_bound; lia.
Qed.

Lemma X9_row_average_is_between_min_and_max_witness :
  1 <= call_count (mkInfo 200 100 100 2 16).
Proof.
  apply (X9_row_average_is_between_min_and_max 1000000000 sample_trace
           sample_final "gemm" (mkInfo 200 100 100 2 16) ltac:(lia)
           sample_trace_runs);
    vm_compute; reflexivity.
Defined.

(** ** Printing the results *)

Lemma sum_durations_positive (l : list ZeKernelInterval) :
  Forall interval_ok l -> l <> [] ->
  1 <= sum_list (map interval_duration l).
Proof.
  intros Hall. induction Hall as [| iv l (_ & _ & Hlt & _) _ IH]; [contradiction |].
  intros _. change (sum_list (map interval_duration (iv :: l)))
    with (interval_duration iv + sum_list (map interval_duration l)).
  unfold interval_duration at 1.
  destruct l as [| iv' l']; [cbn; lia |].
  specialize (IH ltac:(discriminate)). lia.
Qed.

Lemma inv_map_empty (c : ZeKernelCollector) :
  collector_inv c ->
  (size (kernel_info_map_ c) = 0%nat <-> kernel_interval_list_ c = []).
Proof.
  intros [_ _ _ Hag _ _]. rewrite map_size_empty_iff. split.
  - intros Hm. destruct (kernel_interval_list_ c) as [| iv l] eqn:El; [reflexivity |].
    specialize (Hag (interval_name iv)). rewrite Hm, lookup_empty, ?El in Hag.
    cbn in Hag. unfold durations_of, intervals_of in Hag. cbn in Hag.
    rewrite String.eqb_refl in Hag. discriminate Hag.
  - intros El. apply map_eq. intros nm. rewrite lookup_empty.
    specialize (Hag nm). rewrite El in Hag.
    destruct (kernel_info_map_ c !! nm); [| reflexivity].
    destruct Hag as [Hne _]. contradiction.
Qed.

(** X10.  [PrintResults] after a traced program: with no interval
    recorded it prints nothing; otherwise it prints the heading and, as
    the total device time, the sum of the durations of all recorded
    intervals modulo [2^64], and hands the map to [PrintKernelsTable]
    exactly when that number is not zero, which is always so while the
    sum stays below [2^64].  Without a collector it throws. *)
Theorem X10_print_results_total (freq : Z) (t : list (ZeDriver * Callback))
    (c : ZeKernelCollector) (out : list Printed) :
  0 <= freq < 2 ^ 64 ->
  run_trace t (fresh_collector freq) = Done (tt, c) ->
  let total := u64 (sum_list (map interval_duration (kernel_interval_list_ c))) in
  (kernel_interval_list_ c = [] -> PrintResults (Some c) out = Done (tt, out))
  /\ (kernel_interval_list_ c <> [] ->
      PrintResults (Some c) out
      = Done (tt, out ++ [Endl; Text "=== Device Timing Results: ==="; Endl; Endl;
                         Text "Total Device Time (ns): "; Number total; Endl; Endl]
                     ++ (if 0 <? total then [KernelsTable (kernel_info_map_ c)] else [])
                     ++ [Endl]))
  /\ (kernel_interval_list_ c <> [] ->
      sum_list (map interval_duration (kernel_interval_list_ c)) < 2 ^ 64 ->
      (0 <? total) = true)
  /\ PrintResults None out = Fatal Thrown.
Proof.
  intros Hf Hrun total.
  destruct (run_trace_keeps t _ _ (fresh_collector_inv freq Hf) Hrun) as (Hinv & _).
  pose proof (inv_map_empty c Hinv) as Hempty.
  pose proof (inv_total c Hinv) as Htd. fold total in Htd.
  split; [| split; [| split; [| reflexivity]]].
  - intros El. unfold PrintResults.
    rewrite bool_decide_eq_true_2 by (apply Hempty; exact El). reflexivity.
  - intros Hne. unfold PrintResults.
    rewrite bool_decide_eq_false_2 by (rewrite Hempty; exact Hne).
    rewrite Htd. unfold bind, cerr, modify.
    destruct (0 <? total); unfold ret; rewrite <- ?app_assoc; [reflexivity |].
    cbn [app]. reflexivity.
  - intros Hne Hlt.
    pose proof (sum_durations_positive _ (inv_intervals c Hinv) Hne) as Hpos.
    unfold total. rewrite u64_small by lia. apply Z.ltb_lt. lia.
Qed.

Lemma X10_print_results_total_witness :
  PrintResults (Some sample_final) []
  = Done (tt, [Endl; Text "=== Device Timing Results: ==="; Endl; Endl;
               Text "Total Device Time (ns): "; Number 200; Endl; Endl;
               KernelsTable (kernel_info_map_ sample_final); Endl]).
Proof.
  destruct (X10_print_results_total 1000000000 sample_trace sample_final []
              ltac:(lia) sample_trace_runs) as (_ & H & _).
  rewrite H by discriminate. reflexivity.
Defined.

(** * The event-pool hooks *)

(** X11.  For a descriptor that is not an IPC pool the prologue hands the
    driver a copy with the same [stype], [pNext] and [count] whose flags
    are the caller's flags with the host-visible bit added.  No other
    bit changes: the kernel-timestamp bit is set in the copy exactly when
    the caller had set it (the first of the two assignments is
    overwritten by the second).  A null descriptor and an IPC pool are
    passed on untouched, without a copy. *)
Theorem X11_pool_prologue_flags (fl : ZeEventPoolFlags)
    (desc : ze_event_pool_desc_t) (h k : Z) (live : nat) :
  0 <= h -> 0 <= k -> h <> k ->
  ZE_EVENT_POOL_FLAG_HOST_VISIBLE fl = 2 ^ h ->
  ZE_EVENT_POOL_FLAG_KERNEL_TIMESTAMP fl = 2 ^ k ->
  (Z.land (flags desc) (ZE_EVENT_POOL_FLAG_IPC fl) = 0 ->
   exists copy,
     OnEnterEventPoolCreate fl (Some desc) live
       = Done ((Some copy, Some copy), S live)
     /\ stype copy = stype desc /\ pNext copy = pNext desc
     /\ count copy = count desc
     /\ Z.testbit (flags copy) h = true
     /\ (forall i, i <> h -> Z.testbit (flags copy) i = Z.testbit (flags desc) i)
     /\ Z.testbit (flags copy) k = Z.testbit (flags desc) k)
  /\ (Z.land (flags desc) (ZE_EVENT_POOL_FLAG_IPC fl) <> 0 ->
      OnEnterEventPoolCreate fl (Some desc) live = Done ((Some desc, None), live))
  /\ OnEnterEventPoolCreate fl None live = Done ((None, None), live).
Proof.
  intros Hh Hk Hhk HV KT.
  assert (Hbit : forall i, Z.testbit (Z.lor (flags desc) (2 ^ h)) i
                           = Z.testbit (flags desc) i || (h =? i)).
  { intros i. rewrite Z.lor_spec. f_equal.
    destruct (Z.eqb_spec h i) as [<- | Hne].
    - apply Z.pow2_bits_true. exact Hh.
    - apply Z.pow2_bits_false. exact Hne. }
  split; [| split; [| reflexivity]].
  - intros Hipc. unfold OnEnterEventPoolCreate. rewrite Hipc. cbn [Z.eqb negb].
    eexists. split; [reflexivity |]. cbn. rewrite HV.
    split; [reflexivity |]. split; [reflexivity |]. split; [reflexivity |].
    split; [rewrite Hbit, Z.eqb_refl; apply orb_true_r |].
    assert (Hother : forall i, i <> h ->
              Z.testbit (Z.lor (flags desc) (2 ^ h)) i = Z.testbit (flags desc) i).
    { intros i Hi. rewrite Hbit.
      destruct (Z.eqb_spec h i); [congruence | apply orb_false_r]. }
    split; [exact Hother | apply Hother; congruence].
  - intros Hipc. unfold OnEnterEventPoolCreate.
    destruct (Z.eqb_spec (Z.land (flags desc) (ZE_EVENT_POOL_FLAG_IPC fl)) 0);
      [contradiction | reflexivity].
Qed.

Lemma X11_pool_prologue_flags_witness :
  exists copy,
    OnEnterEventPoolCreate level_zero_flags (Some (mkPoolDesc 7 0 8 16)) 0%nat
      = Done ((Some copy, Some copy), 1%nat)
    /\ stype copy = 7 /\ pNext copy = 0 /\ count copy = 16
    /\ Z.testbit (flags copy) 0 = true
    /\ (forall i, i <> 0 -> Z.testbit (flags copy) i = Z.testbit 8 i)
    /\ Z.testbit (flags copy) 2 = Z.testbit 8 2.
Proof.
  destruct (X11_pool_prologue_flags level_zero_flags (mkPoolDesc 7 0 8 16)
              0 2 0%nat) as [Hcopy _]; first [lia | reflexivity | idtac].
  apply Hcopy. reflexivity.
Defined.

(** X12.  A traced pool creation does not leak: whatever descriptor the
    caller passes, the epilogue deletes the copy the prologue of the same
    call allocated, so the number of live copies is as before. *)
Theorem X12_pool_copy_is_deleted (fl : ZeEventPoolFlags)
    (pdesc : option ze_event_pool_desc_t) (live : nat) :
  exists passed, traced_pool_create fl pdesc live = Done (passed, live).
Proof.
  unfold traced_pool_create, OnEnterEventPoolCreate.
  destruct pdesc as [desc |]; [| eexists; reflexivity].
  destruct (negb (Z.land (flags desc) (ZE_EVENT_POOL_FLAG_IPC fl) =? 0));
    eexists; reflexivity.
Qed.

(** * More on resolving instances *)

Lemma process_first_split (drv : ZeDriver) (ev : Z)
    (l1 l2 : list ZeKernelInstance) (it : ZeKernelInstance) :
  forall c l' c',
    instances_of_event ev l1 = [] -> event it = ev ->
    process_first drv ev (l1 ++ it :: l2) c = Done (l', c') ->
    l' = l1 ++ l2 /\ ProcessInstance drv it c = Done (tt, c').
Proof.
  unfold instances_of_event.
  induction l1 as [| x l1 IH]; intros c l' c' Habs Hev H.
  - cbn [app process_first] in H. rewrite Hev, Z.eqb_refl in H.
    apply bind_done in H. destruct H as (u & s1 & Hp & H). destruct u.
    apply ret_done in H. destruct H as [-> ->]. split; [reflexivity | exact Hp].
  - cbn [List.filter] in Habs. cbn [app process_first] in H.
    destruct (event x =? ev); [discriminate Habs |].
    apply bind_done in H. destruct H as (rest' & s1 & Hp & H).
    apply ret_done in H. destruct H as [-> ->].
    destruct (IH _ _ _ Habs Hev Hp) as [-> Hrun]. split; [reflexivity | exact Hrun].
Qed.

(** X13.  A notification for a signal, be it the destruction of the
    event or its reset by the host, resolves one instance only: the
    first one in the table that carries the signal.  It is removed and
    one interval is recorded under its name; every other instance,
    later ones with the same signal included, stays in the table in
    its place. *)
Theorem X13_notification_takes_first_instance
    (hook : ZeDriver -> Z -> Cb unit) (drv : ZeDriver) (ev : Z)
    (l1 l2 : list ZeKernelInstance) (it : ZeKernelInstance)
    (c c' : ZeKernelCollector) :
  hook = OnEnterEventDestroy \/ hook = OnEnterEventHostReset ->
  ev <> nullptr ->
  kernel_instance_list_ c = l1 ++ it :: l2 ->
  instances_of_event ev l1 = [] -> event it = ev ->
  hook drv ev c = Done (tt, c') ->
  kernel_instance_list_ c' = l1 ++ l2
  /\ instances_of_event ev (kernel_instance_list_ c') = instances_of_event ev l2
  /\ exists iv, interval_name iv = name it
                /\ kernel_interval_list_ c' = kernel_interval_list_ c ++ [iv].
Proof.
  intros Hhook Hnn Hl Habs Hev H.
  assert (Hrun : ProcessInstanceOfEvent drv ev c = Done (tt, c')).
  { destruct Hhook as [-> | ->];
      [unfold OnEnterEventDestroy in H | unfold OnEnterEventHostReset in H];
      (destruct (Z.eqb_spec ev nullptr) as [E | _]; [contradiction |]);
      exact H. }
  clear H Hhook. rename Hrun into H.
  unfold ProcessInstanceOfEvent in H.
  apply bind_done in H. destruct H as (u & s1 & Ha & H).
  apply PTI_ASSERT_done in Ha. destruct Ha as [_ ->].
  apply bind_done in H. destruct H as (c0 & s2 & Hg & H).
  apply get_done in Hg. destruct Hg as [-> ->].
  apply bind_done in H. destruct H as (l & s3 & Hp & H).
  apply modify_done in H. subst c'. rewrite Hl in Hp.
  apply (process_first_split drv ev l1 l2 it _ _ _ Habs Hev) in Hp.
  destruct Hp as [-> Hp]. apply ProcessInstance_frame in Hp.
  destruct Hp as (_ & _ & _ & iv & Hname & Hiv). cbn.
  split; [reflexivity |].
  split; [| exists iv; split; assumption].
  unfold instances_of_event in *. rewrite List.filter_app, Habs. reflexivity.
Qed.

Lemma X13_notification_takes_first_instance_witness :
  kernel_instance_list_ first_copy_taken = [gemm_instance] ++ [second_copy]
  /\ instances_of_event 42 (kernel_instance_list_ first_copy_taken)
     = instances_of_event 42 [second_copy]
  /\ exists iv, interval_name iv = name copy_instance
                /\ kernel_interval_list_ first_copy_taken
                   = kernel_interval_list_ three_in_flight ++ [iv].
Proof.
  apply (X13_notification_takes_first_instance OnEnterEventHostReset
           driver_mixed 42 [gemm_instance] [second_copy] copy_instance
           three_in_flight first_copy_taken);
    first [right; reflexivity | discriminate | reflexivity
          | (vm_compute; reflexivity)].
Defined.

Lemma plain_conversion_exact (freq start finish : Z) (c : ZeKernelCollector) :
  0 < freq <= NSEC_IN_SEC ->
  0 <= start -> start < finish -> finish <= 18446744073 ->
  timestamps_to_ns freq start finish c
    = Done ((start * NSEC_IN_SEC / freq, finish * NSEC_IN_SEC / freq,
             finish * NSEC_IN_SEC / freq - start * NSEC_IN_SEC / freq), c)
  /\ start * NSEC_IN_SEC / freq < finish * NSEC_IN_SEC / freq
  /\ (finish - start) * NSEC_IN_SEC / freq
     <= finish * NSEC_IN_SEC / freq - start * NSEC_IN_SEC / freq.
Proof.
  intros Hf Hs Hlt He.
  assert (Hs64 : u64 (start * NSEC_IN_SEC) = start * NSEC_IN_SEC)
    by (apply u64_small; unfold NSEC_IN_SEC; lia).
  assert (He64 : u64 (finish * NSEC_IN_SEC) = finish * NSEC_IN_SEC)
    by (apply u64_small; unfold NSEC_IN_SEC; lia).
  pose proof (ns_bounds freq start ltac:(lia) Hs) as Bs.
  pose proof (ns_bounds freq finish ltac:(lia) ltac:(lia)) as Be.
  pose proof (div_add_lower ((finish - start) * NSEC_IN_SEC)
                (start * NSEC_IN_SEC) freq ltac:(lia)) as Hlow.
  replace ((finish - start) * NSEC_IN_SEC + start * NSEC_IN_SEC)
    with (finish * NSEC_IN_SEC) in Hlow by ring.
  assert (Hone : 1 <= (finish - start) * NSEC_IN_SEC / freq)
    by (apply Z.div_le_lower_bound; unfold NSEC_IN_SEC in *; nia).
  split; [| split; lia].
  rewrite plain_branch by lia. rewrite Hs64, He64.
  rewrite u64_small; [reflexivity |].
  unfold NSEC_IN_SEC in *. lia.
Qed.

(** X14.  On a timer of at most 1 GHz the plain conversion cannot trip
    the interval assertion: for raw ticks [start < end] with
    [end <= 18446744073] (so that [end * 10^9] fits 64 bits) the ends
    convert to [start_ns < end_ns], the duration is exactly their
    difference, and it is at least the whole nanoseconds of the tick
    difference. *)
Theorem X14_plain_conversion_is_strict (freq start finish : Z)
    (c : ZeKernelCollector) :
  0 < freq <= NSEC_IN_SEC ->
  0 <= start -> start < finish -> finish <= 18446744073 ->
  let start_ns := start * NSEC_IN_SEC / freq in
  let end_ns := finish * NSEC_IN_SEC / freq in
  timestamps_to_ns freq start finish c
    = Done ((start_ns, end_ns, end_ns - start_ns), c)
  /\ start_ns < end_ns
  /\ (finish - start) * NSEC_IN_SEC / freq <= end_ns - start_ns
  /\ forall nm, nm <> EmptyString ->
       exists c', AddKernelInterval nm start_ns end_ns c = Done (tt, c').
Proof.
  intros Hf Hs Hlt He start_ns end_ns.
  destruct (plain_conversion_exact freq start finish c Hf Hs Hlt He)
    as (Hrun & Hstrict & Hlow).
  split; [exact Hrun |]. split; [exact Hstrict |]. split; [exact Hlow |].
  intros nm Hnm. unfold AddKernelInterval, bind, PTI_ASSERT.
  rewrite (nonempty_true nm Hnm). cbn [ret].
  destruct (Z.ltb_spec start_ns end_ns) as [_ | Hge]; [| subst start_ns end_ns; lia].
  eexists. reflexivity.
Qed.

Lemma X14_plain_conversion_is_strict_witness :
  timestamps_to_ns 1000000000 100 200 (fresh_collector 1000000000)
    = Done ((100, 200, 100), fresh_collector 1000000000).
Proof.
  apply (X14_plain_conversion_is_strict 1000000000 100 200
           (fresh_collector 1000000000));
    unfold NSEC_IN_SEC; lia.
Defined.

(** A timer above 1 GHz can put both ends into the same nanosecond: the
    interval assertion then stops the process although [start < end]. *)
Lemma fast_timer_trips_interval_assertion :
  ProcessInstance (driver_ready (4, 5)) gemm_instance (fresh_collector 2000000000)
    = Fatal AssertFailed.
Proof. vm_compute. reflexivity. Qed.

(** * The trace adapter *)

(** ** Returning a buffer with records *)

Lemma AddRecord_effect (rec : PtiAdapter.pti_view_record) (p : PtiAdapter.Process) :
  (is_invalid_kind (PtiAdapter._view_kind rec) = true ->
   PtiAdapter.AddRecord (PtiAdapter._view_kind rec) (Some rec) p = Fatal Thrown)
  /\ (is_invalid_kind (PtiAdapter._view_kind rec) = false ->
      exists evs,
        PtiAdapter.AddRecord (PtiAdapter._view_kind rec) (Some rec) p
          = Done (tt, PtiAdapter.mkProcess (PtiAdapter.traceEvents p ++ evs)
                        (PtiAdapter.released p) (PtiAdapter.console p)
                        (PtiAdapter.process_pid p))
        /\ map event_summary evs
           = if is_traced_kind (PtiAdapter._view_kind rec)
             then [record_summary rec] else []).
Proof.
  unfold PtiAdapter.AddRecord, bind, get.
  destruct (PtiAdapter._view_kind rec); cbn; split; intros H;
    first [discriminate H | reflexivity | idtac].
  all: try (eexists; split; [reflexivity | reflexivity]).
  all: exists []; rewrite app_nil_r; destruct p; split; reflexivity.
Qed.

Lemma drain_effect (recs : list PtiAdapter.pti_view_record)
    (last : PtiAdapter.decode_end) :
  forall p,
    Forall (fun rec => is_invalid_kind (PtiAdapter._view_kind rec) = false) recs ->
    exists evs,
      PtiAdapter.drain recs last p
        = Done (tt, PtiAdapter.mkProcess (PtiAdapter.traceEvents p ++ evs)
                      (PtiAdapter.released p)
                      (PtiAdapter.console p ++ [decode_line last])
                      (PtiAdapter.process_pid p))
      /\ map event_summary evs
         = map record_summary
             (List.filter (fun rec => is_traced_kind (PtiAdapter._view_kind rec)) recs).
Proof.
  induction recs as [| rec rest IH]; intros p Hall.
  - exists []. rewrite app_nil_r. split; [| reflexivity].
    cbn. destruct last; reflexivity.
  - inversion Hall as [| x l Hrec Hrest]; subst.
    destruct (AddRecord_effect rec p) as [_ Hadd].
    destruct (Hadd Hrec) as (evs1 & Hrun1 & Hsum1).
    destruct (IH (PtiAdapter.mkProcess (PtiAdapter.traceEvents p ++ evs1)
                    (PtiAdapter.released p) (PtiAdapter.console p)
                    (PtiAdapter.process_pid p)) Hrest)
      as (evs2 & Hrun2 & Hsum2).
    exists (evs1 ++ evs2). split.
    + cbn [PtiAdapter.drain]. unfold bind at 1. rewrite Hrun1, Hrun2.
      cbn. rewrite <- app_assoc. reflexivity.
    + rewrite map_app, Hsum1, Hsum2. cbn [List.filter].
      destruct (is_traced_kind (PtiAdapter._view_kind rec)); reflexivity.
Qed.

Lemma drain_invalid (recs : list PtiAdapter.pti_view_record)
    (last : PtiAdapter.decode_end) :
  forall p,
    Exists (fun rec => is_invalid_kind (PtiAdapter._view_kind rec) = true) recs ->
    PtiAdapter.drain recs last p = Fatal Thrown.
Proof.
  induction recs as [| rec rest IH]; intros p Hex.
  - inversion Hex.
  - cbn [PtiAdapter.drain]. unfold bind at 1.
    destruct (AddRecord_effect rec p) as [Hbad Hgood].
    destruct (is_invalid_kind (PtiAdapter._view_kind rec)) eqn:Hk.
    + rewrite (Hbad eq_refl). reflexivity.
    + destruct (Hgood eq_refl) as (evs & Hrun & _). rewrite Hrun.
      apply IH. inversion Hex as [x l Hx | x l Hx]; subst; [congruence | exact Hx].
Qed.

(** X15.  A returned buffer with valid bytes whose records are all of a
    known kind: [BufferReturned] adds one trace event for every record
    of the four traced kinds, in the order of the buffer, each with
    phase [X], the record's name, its start as [ts] and [end - start]
    (64 bit) as [dur]; records of other kinds add nothing.  Then it
    hands the buffer, and nothing else, to [operator delete]. *)
Theorem X15_buffer_records_become_events (decode : PtiAdapter.decoder)
    (buffer buf_size valid_buf_size : Z)
    (recs : list PtiAdapter.pti_view_record) (last : PtiAdapter.decode_end)
    (p : PtiAdapter.Process) :
  buffer <> nullptr -> buf_size <> 0 -> valid_buf_size <> 0 ->
  decode buffer valid_buf_size = (recs, last) ->
  Forall (fun rec => is_invalid_kind (PtiAdapter._view_kind rec) = false) recs ->
  exists evs,
    PtiAdapter.BufferReturned decode buffer buf_size valid_buf_size p
      = Done (tt, PtiAdapter.mkProcess (PtiAdapter.traceEvents p ++ evs)
                    (PtiAdapter.released p ++ [buffer])
                    (PtiAdapter.console p
                       ++ ["Buffer returned"%string; decode_line last])
                    (PtiAdapter.process_pid p))
    /\ map event_summary evs
       = map record_summary
           (List.filter (fun rec => is_traced_kind (PtiAdapter._view_kind rec)) recs).
Proof.
  intros Hb Hs Hv Hdec Hall.
  destruct (drain_effect recs last
              (PtiAdapter.mkProcess (PtiAdapter.traceEvents p) (PtiAdapter.released p)
                 (PtiAdapter.console p ++ ["Buffer returned"%string])
                 (PtiAdapter.process_pid p)) Hall) as (evs & Hrun & Hsum).
  exists evs. split; [| exact Hsum].
  unfold PtiAdapter.BufferReturned, bind at 1, PtiAdapter.print, modify.
  destruct (Z.eqb_spec buffer nullptr) as [E | _]; [contradiction |].
  destruct (Z.eqb_spec valid_buf_size 0) as [E | _]; [contradiction |].
  destruct (Z.eqb_spec buf_size 0) as [E | _]; [contradiction |].
  cbn [orb]. rewrite Hdec. unfold bind. rewrite Hrun.
  unfold PtiAdapter.DeleteBuffer.
  destruct (Z.eqb_spec buffer nullptr) as [E | _]; [contradiction |].
  cbn. rewrite <- app_assoc. reflexivity.
Qed.

(** X16.  A record of kind [PTI_VIEW_INVALID] anywhere among the decoded
    records makes [BufferReturned] leave by the exception [AddRecord]
    throws: the handler does not return normally and does not reach the
    deletion of the buffer. *)
Theorem X16_invalid_record_throws (decode : PtiAdapter.decoder)
    (buffer buf_size valid_buf_size : Z)
    (recs : list PtiAdapter.pti_view_record) (last : PtiAdapter.decode_end)
    (p : PtiAdapter.Process) :
  buffer <> nullptr -> buf_size <> 0 -> valid_buf_size <> 0 ->
  decode buffer valid_buf_size = (recs, last) ->
  Exists (fun rec => is_invalid_kind (PtiAdapter._view_kind rec) = true) recs ->
  PtiAdapter.BufferReturned decode buffer buf_size valid_buf_size p = Fatal Thrown.
Proof.
  intros Hb Hs Hv Hdec Hex.
  unfold PtiAdapter.BufferReturned, bind at 1, PtiAdapter.print, modify.
  destruct (Z.eqb_spec buffer nullptr) as [E | _]; [contradiction |].
  destruct (Z.eqb_spec valid_buf_size 0) as [E | _]; [contradiction |].
  destruct (Z.eqb_spec buf_size 0) as [E | _]; [contradiction |].
  cbn [orb]. rewrite Hdec. unfold bind.
  rewrite (drain_invalid recs last _ Hex). reflexivity.
Qed.

Lemma X15_buffer_records_become_events_witness :
  exists evs,
    PtiAdapter.BufferReturned sample_decoder 4096 1000 200 sample_process
      = Done (tt, PtiAdapter.mkProcess evs [4096]
                    ["Buffer returned"%string; "Reached End of buffer"%string] 77)
    /\ map event_summary evs
       = [("X"%string, "gemm"%string, 100, 150); ("X"%string, "copy"%string, 300, 40)].
Proof.
  destruct (X15_buffer_records_become_events sample_decoder 4096 1000 200
              sample_records PtiAdapter.PTI_STATUS_END_OF_BUFFER sample_process)
    as (evs & Hrun & Hsum);
    [discriminate | discriminate | discriminate | reflexivity
    | repeat constructor |].
  exists evs. split; [exact Hrun | exact Hsum].
Defined.

Lemma X16_invalid_record_throws_witness :
  PtiAdapter.BufferReturned invalid_decoder 4096 1000 200 sample_process
    = Fatal Thrown.
Proof.
  apply (X16_invalid_record_throws invalid_decoder 4096 1000 200
           (sample_records ++ [invalid_record])
           PtiAdapter.PTI_STATUS_END_OF_BUFFER sample_process);
    [discriminate | discriminate | discriminate | reflexivity |].
  apply List.Exists_exists. exists invalid_record.
  split; [apply in_or_app; right; left; reflexivity | reflexivity].
Defined.

(** ** Activation through the environment *)

Lemma pti_call_ok (pti : PtiCall -> pti_result) (k : PtiCall) (log : list PtiCall) :
  pti k = PTI_SUCCESS -> pti_call pti k log = Done (tt, log ++ [k]).
Proof. intros H. unfold pti_call, bind, modify. rewrite H. reflexivity. Qed.

Lemma pti_call_error (pti : PtiCall -> pti_result) (k : PtiCall)
    (log : list PtiCall) (code : Z) :
  pti k = PTI_ERROR code -> pti_call pti k log = Fatal Thrown.
Proof. intros H. unfold pti_call, bind, modify. rewrite H. reflexivity. Qed.

Lemma EnableViews_ok (pti : PtiCall -> pti_result)
    (ks : list PtiAdapter.pti_view_kind) :
  forall log,
    Forall (fun k => pti (CallViewEnable k) = PTI_SUCCESS) ks ->
    EnableViews pti ks log = Done (tt, log ++ map CallViewEnable ks).
Proof.
  induction ks as [| k rest IH]; intros log Hall.
  - cbn. rewrite app_nil_r. reflexivity.
  - inversion Hall as [| x l Hk Hrest]; subst.
    cbn [EnableViews map]. unfold bind.
    rewrite (pti_call_ok pti _ log Hk), (IH _ Hrest), <- app_assoc. reflexivity.
Qed.

Lemma DisableViews_ok (pti : PtiCall -> pti_result)
    (ks : list PtiAdapter.pti_view_kind) :
  forall log,
    Forall (fun k => pti (CallViewDisable k) = PTI_SUCCESS) ks ->
    DisableViews pti ks log = Done (tt, log ++ map CallViewDisable ks).
Proof.
  induction ks as [| k rest IH]; intros log Hall.
  - cbn. rewrite app_nil_r. reflexivity.
  - inversion Hall as [| x l Hk Hrest]; subst.
    cbn [DisableViews map]. unfold bind.
    rewrite (pti_call_ok pti _ log Hk), (IH _ Hrest), <- app_assoc. reflexivity.
Qed.



(** X18.  [EnableViews] goes through its views in order and stops at the
    first one the library refuses: when all calls succeed it has called
    [ptiViewEnable] once per view, in order; when the views before [k]
    succeed and [k] fails, it throws, whatever follows [k]. *)
Theorem X18_enable_views_stops_at_first_failure (pti : PtiCall -> pti_result)
    (before after : list PtiAdapter.pti_view_kind) (k : PtiAdapter.pti_view_kind)
    (log : list PtiCall) :
  Forall (fun v => pti (CallViewEnable v) = PTI_SUCCESS) before ->
  EnableViews pti before log = Done (tt, log ++ map CallViewEnable before)
  /\ (forall code, pti (CallViewEnable k) = PTI_ERROR code ->
        EnableViews pti (before ++ k :: after) log = Fatal Thrown)
  /\ (pti (CallViewEnable k) = PTI_SUCCESS ->
      EnableViews pti (before ++ k :: after) log
      = EnableViews pti after (log ++ map CallViewEnable before ++ [CallViewEnable k])).
Proof.
  intros Hall. split; [apply EnableViews_ok; exact Hall |].
  revert log. induction Hall as [| v rest Hv _ IH]; intros log.
  - cbn [app EnableViews map]. unfold bind. split.
    + intros code Hk. rewrite (pti_call_error pti _ log code Hk). reflexivity.
    + intros Hk. rewrite (pti_call_ok pti _ log Hk). reflexivity.
  - cbn [app EnableViews map]. unfold bind.
    rewrite (pti_call_ok pti _ log Hv).
    destruct (IH (log ++ [CallViewEnable v])) as [Hbad Hgood]. split.
    + exact Hbad.
    + intros Hk. rewrite (Hgood Hk), <- !app_assoc. reflexivity.
Qed.

Lemma X18_enable_views_stops_at_first_failure_witness :
  EnableViews pti_no_fill tracked_views [] = Fatal Thrown.
Proof.
  destruct (X18_enable_views_stops_at_first_failure pti_no_fill
              [PtiAdapter.PTI_VIEW_DEVICE_GPU_KERNEL;
               PtiAdapter.PTI_VIEW_DEVICE_GPU_MEM_COPY]
              [PtiAdapter.PTI_VIEW_SYCL_RUNTIME_CALLS]
              PtiAdapter.PTI_VIEW_DEVICE_GPU_MEM_FILL [])
    as (_ & Hbad & _); [repeat constructor |].
  apply (Hbad 1). reflexivity.
Defined.

(** ** The clock *)

(** X19.  [GetTime] packs a clock reading into nanoseconds without loss:
    for [tv_sec >= 0], [0 <= tv_nsec < 10^9] and a sum below [2^63] the
    result gives seconds and nanoseconds back by division and
    remainder, and a later reading gives a larger result.  A failing
    [clock_gettime] makes it throw. *)
Theorem X19_get_time_round_trip (clock_gettime : Z -> Z * (Z * Z)) (id : Z)
    (status tv_sec tv_nsec : Z) :
  clock_gettime id = (status, (tv_sec, tv_nsec)) ->
  0 <= tv_sec -> 0 <= tv_nsec < kNsecInSec ->
  tv_sec * kNsecInSec + tv_nsec < 2 ^ 63 ->
  (0 <= status ->
   exists t, GetTime clock_gettime id = Done t
             /\ t / kNsecInSec = tv_sec /\ t mod kNsecInSec = tv_nsec
             /\ forall clock' id' sec' nsec' t',
                  clock' id' = (0, (sec', nsec')) ->
                  0 <= nsec' < kNsecInSec -> sec' * kNsecInSec + nsec' < 2 ^ 63 ->
                  (tv_sec < sec' \/ (tv_sec = sec' /\ tv_nsec < nsec')) ->
                  GetTime clock' id' = Done t' -> t < t')
  /\ (status < 0 -> GetTime clock_gettime id = Fatal Thrown).
Proof.
  intros Hclock Hsec Hnsec Hfit. unfold GetTime. rewrite Hclock. split.
  - intros Hst. destruct (Z.ltb_spec status 0) as [Hneg | _]; [lia |].
    exists (tv_sec * kNsecInSec + tv_nsec).
    rewrite u64_small by (unfold kNsecInSec in *; lia).
    split; [reflexivity |].
    split; [unfold kNsecInSec in *; rewrite Z.div_add_l by lia;
            rewrite Z.div_small by lia; lia |].
    split; [unfold kNsecInSec in *; rewrite Z.add_comm, Z.mod_add by lia;
            apply Z.mod_small; lia |].
    intros clock' id' sec' nsec' t' Hc' Hn' Hfit' Hlater Hrun.
    rewrite Hc' in Hrun. cbn in Hrun. injection Hrun as <-.
    rewrite u64_small by (unfold kNsecInSec in *; lia).
    unfold kNsecInSec in *. lia.
  - intros Hneg. destruct (Z.ltb_spec status 0); [reflexivity | lia].
Qed.

Lemma X19_get_time_round_trip_witness :
  exists t, GetTime (fun _ => (0, (12, 500))) 4 = Done t
            /\ t / kNsecInSec = 12 /\ t mod kNsecInSec = 500
            /\ forall clock' id' sec' nsec' t',
                 clock' id' = (0, (sec', nsec')) ->
                 0 <= nsec' < kNsecInSec -> sec' * kNsecInSec + nsec' < 2 ^ 63 ->
                 (12 < sec' \/ (12 = sec' /\ 500 < nsec')) ->
                 GetTime clock' id' = Done t' -> t < t'.
Proof.
  destruct (X19_get_time_round_trip (fun _ => (0, (12, 500))) 4 0 12 500)
    as [Hgood _]; first [reflexivity | unfold kNsecInSec; lia | idtac].
  apply Hgood. lia.
Defined.

(** * The sample's buffer store *)

Lemma parse_records_effect (recs : list PtiAdapter.pti_view_record)
    (last : PtiAdapter.decode_end) :
  forall s,
    parse_records recs last s
    = Done (tt, mkStore (buffer_store_ s)
                  (kernel_record_store_ s ++ List.filter is_kernel_record recs)
                  (store_cerr s ++
                   match last with
                   | PtiAdapter.PTI_STATUS_END_OF_BUFFER => []
                   | PtiAdapter.PTI_BAD_STATUS _ =>
                       ["Found Error Parsing Records from PTI"%string]
                   end)).
Proof.
  induction recs as [| rec rest IH]; intros s.
  - cbn. destruct last; cbn; rewrite ?app_nil_r; destruct s; reflexivity.
  - cbn [parse_records List.filter]. unfold bind, is_kernel_record at 1.
    destruct (PtiAdapter._view_kind rec); cbn; rewrite IH; cbn;
      rewrite <- ?app_assoc; reflexivity.
Qed.

(** X20.  [ParseBuffer] keeps the GPU kernel records of a buffer and
    nothing else: after it the record store is the old one followed by
    the kernel records of the buffer in their order, records of every
    other kind are dropped, and the buffers the store owns are
    untouched.  With a null buffer or a zero size it keeps nothing. *)
Theorem X20_parse_buffer_keeps_kernel_records (decode : PtiAdapter.decoder)
    (buf buf_size valid_size : Z) (s : BufferStore) :
  (buf <> nullptr -> buf_size <> 0 -> valid_size <> 0 ->
   exists s',
     ParseBuffer decode buf buf_size valid_size s = Done (tt, s')
     /\ kernel_record_store_ s'
        = kernel_record_store_ s
          ++ List.filter is_kernel_record (fst (decode buf valid_size))
     /\ buffer_store_ s' = buffer_store_ s)
  /\ (buf = nullptr \/ buf_size = 0 \/ valid_size = 0 ->
      ParseBuffer decode buf buf_size valid_size s
      = Done (tt, mkStore (buffer_store_ s) (kernel_record_store_ s)
                    (store_cerr s ++ ["Received empty buffer"%string]))).
Proof.
  unfold ParseBuffer. split.
  - intros Hb Hs Hv.
    destruct (Z.eqb_spec buf nullptr) as [E | _]; [contradiction |].
    destruct (Z.eqb_spec valid_size 0) as [E | _]; [contradiction |].
    destruct (Z.eqb_spec buf_size 0) as [E | _]; [contradiction |].
    cbn [orb]. destruct (decode buf valid_size) as [recs last].
    rewrite parse_records_effect. eexists. split; [reflexivity |].
    split; reflexivity.
  - intros Hdeg.
    assert (Hcond : (buf =? nullptr) || (valid_size =? 0) || (buf_size =? 0) = true).
    { destruct Hdeg as [-> | [-> | ->]]; cbn;
        rewrite ?orb_true_r; reflexivity. }
    rewrite Hcond. reflexivity.
Qed.

(** X21.  The matrix size [main] uses is always between [min_size] and
    [max_size], and it is the argument itself when the argument lies in
    that range; the repeat count is at least 1.  Both see the argument
    through an [unsigned], so that only its low 32 bits count. *)
Theorem X21_arguments_are_clamped (parsed : Z) :
  min_size <= size_of_argument parsed <= max_size
  /\ (min_size <= parsed <= max_size -> size_of_argument parsed = parsed)
  /\ 1 <= repeat_count_of_argument parsed < 2 ^ 32
  /\ size_of_argument (parsed + 2 ^ 32) = size_of_argument parsed.
Proof.
  unfold size_of_argument, repeat_count_of_argument, min_size, max_size.
  pose proof (Z.mod_pos_bound parsed (2 ^ 32) ltac:(lia)) as Hm.
  split; [| split; [| split]].
  - destruct (Z.ltb_spec (parsed mod 2 ^ 32) 32); [lia |].
    destruct (Z.ltb_spec 8192 (parsed mod 2 ^ 32)); lia.
  - intros Hr. rewrite (Z.mod_small parsed) by lia.
    destruct (Z.ltb_spec parsed 32); [lia |].
    destruct (Z.ltb_spec 8192 parsed); lia.
  - destruct (Z.ltb_spec (parsed mod 2 ^ 32) 1); lia.
  - replace (parsed + 2 ^ 32) with (parsed + 1 * 2 ^ 32) by ring.
    rewrite Z.mod_add by lia. reflexivity.
Qed.

(** * The view collector's helpers *)

(** X22.  The metadata map of the view collector keeps the first triple
    stored for a command list: a lookup after a store gives the stored
    triple when the list was new and the older triple when it was there
    already; other lists are not affected, and a list never stored reads
    as the triple of null context, null device and not immediate. *)
Theorem X22_metadata_first_store_wins (list_ ctx_ dev_ : Z) (immediate_ : bool)
    (m : gmap Z CommandListMetaData) :
  (m !! list_ = None ->
   GetCommandListMetadata list_
     (StoreCommandListMetadata list_ ctx_ dev_ immediate_ m)
   = mkMeta ctx_ dev_ immediate_)
  /\ (forall old, m !! list_ = Some old ->
        StoreCommandListMetadata list_ ctx_ dev_ immediate_ m = m
        /\ GetCommandListMetadata list_
             (StoreCommandListMetadata list_ ctx_ dev_ immediate_ m) = old)
  /\ (forall other, other <> list_ ->
        GetCommandListMetadata other
          (StoreCommandListMetadata list_ ctx_ dev_ immediate_ m)
        = GetCommandListMetadata other m)
  /\ (m !! list_ = None ->
      GetCommandListMetadata list_ m = mkMeta nullptr nullptr false).
Proof.
  unfold GetCommandListMetadata, StoreCommandListMetadata.
  split; [| split; [| split]].
  - intros Hnone. rewrite Hnone, lookup_insert_eq. reflexivity.
  - intros old Hold. rewrite Hold. split; [reflexivity |]. rewrite Hold. reflexivity.
  - intros other Hne. destruct (m !! list_); [reflexivity |].
    rewrite lookup_insert_ne by congruence. reflexivity.
  - intros Hnone. rewrite Hnone. reflexivity.
Qed.

(** X23.  For fewer than 64 valid bits [GetMask] is the mask of exactly
    the low [valid_bits] bits: masking a value with it is the remainder
    modulo [2 ^ valid_bits]. *)
Theorem X23_mask_keeps_low_bits (valid_bits x : Z) :
  0 <= valid_bits < 64 ->
  GetMask valid_bits = 2 ^ valid_bits - 1
  /\ Z.land x (GetMask valid_bits) = x mod 2 ^ valid_bits.
Proof.
  intros Hb.
  assert (Hpow : 1 <= 2 ^ valid_bits < 2 ^ 64).
  { split; [pose proof (Z.pow_pos_nonneg 2 valid_bits); lia |].
    apply Z.pow_lt_mono_r; lia. }
  assert (Hmask : GetMask valid_bits = 2 ^ valid_bits - 1).
  { unfold GetMask. rewrite Z.shiftl_1_l, (u64_small (2 ^ valid_bits)) by lia.
    apply u64_small. lia. }
  split; [exact Hmask |].
  rewrite Hmask. replace (2 ^ valid_bits - 1) with (Z.ones valid_bits)
    by (rewrite Z.ones_equiv; lia).
  apply Z.land_ones. lia.
Qed.

Lemma X23_mask_keeps_low_bits_witness : GetMask 32 = 2 ^ 32 - 1.
Proof. apply (X23_mask_keeps_low_bits 32 0). lia. Defined.

(** X24.  [NSecPerCycle] is the whole number of nanoseconds in a cycle:
    for a resolution [r > 0] the result [q] has [q * r <= 10^9 < (q + 1) * r];
    it is zero exactly for timers above 1 GHz; the resolution zero is a
    division by zero. *)
Theorem X24_nanoseconds_per_cycle (S : Type) (s : S) (timer_resolution : Z) :
  0 < timer_resolution ->
  exists q, NSecPerCycle timer_resolution s = Done (q, s)
            /\ q * timer_resolution <= kNSecInSecond < (q + 1) * timer_resolution
            /\ (q = 0 <-> kNSecInSecond < timer_resolution)
            /\ NSecPerCycle 0 s = Fatal DivideByZero.
Proof.
  intros Hr. exists (kNSecInSecond / timer_resolution).
  split; [unfold NSecPerCycle; apply udiv_pos; exact Hr |].
  pose proof (Z.mul_div_le kNSecInSecond timer_resolution Hr) as Hle.
  pose proof (Z.mul_succ_div_gt kNSecInSecond timer_resolution Hr) as Hgt.
  split; [split; lia |].
  split; [| reflexivity].
  split.
  - intros Hq. rewrite Hq in Hgt. lia.
  - intros Hlt. apply Z.div_small. unfold kNSecInSecond in *. lia.
Qed.

Lemma X24_nanoseconds_per_cycle_witness :
  exists q, NSecPerCycle 12500000 tt = Done (q, tt) /\ q * 12500000 <= kNSecInSecond.
Proof.
  destruct (X24_nanoseconds_per_cycle unit tt 12500000 ltac:(lia))
    as (q & Hrun & [Hle _] & _).
  exists q. split; assumption.
Defined.

(** * A poll that cannot stop *)

Lemma ProcessInstance_succeeds (drv : ZeDriver) (it : ZeKernelInstance)
    (c : ZeKernelCollector) :
  0 < timer_frequency_ c <= NSEC_IN_SEC ->
  name it <> EmptyString ->
  zeEventQueryStatus drv (event it) = ZE_RESULT_SUCCESS ->
  resolvable drv it ->
  exists c', ProcessInstance drv it c = Done (tt, c')
             /\ timer_frequency_ c' = timer_frequency_ c.
Proof.
  intros Hf Hnm Hst (start & finish & Hts & Hs & Hlt & He & Hdestroy).
  destruct (plain_conversion_exact (timer_frequency_ c) start finish c Hf Hs Hlt He)
    as (Hns & Hstrict & _).
  rewrite (ProcessInstance_unfold drv it c start finish _ _ _ Hst Hts Hns).
  unfold bind. rewrite (AddKernelInfo_done _ _ _ c Hnm).
  set (c1 := info_after (name it) _ (simd_width it) c).
  assert (Hf1 : timer_frequency_ c1 = timer_frequency_ c)
    by (apply info_after_frame).
  unfold AddKernelInterval, bind, PTI_ASSERT.
  rewrite (nonempty_true _ Hnm). cbn [ret].
  destruct (Z.ltb_spec (start * NSEC_IN_SEC / timer_frequency_ c)
              (finish * NSEC_IN_SEC / timer_frequency_ c)) as [_ | Hge]; [| lia].
  cbn [modify]. unfold release_owned_event. fold (is_owned it).
  destruct (is_owned it) eqn:Ho.
  - destruct (Hdestroy eq_refl) as [Hd Hp].
    unfold call_zeEventDestroy, call_zeEventPoolDestroy, bind, modify.
    rewrite Hd, Hp. cbn. eexists. split; [reflexivity | exact Hf1].
  - eexists. split; [reflexivity | exact Hf1].
Qed.

Lemma poll_all_succeeds (drv : ZeDriver) (l : list ZeKernelInstance) :
  forall c,
    0 < timer_frequency_ c <= NSEC_IN_SEC ->
    Forall instance_ok l -> Forall (answers_well drv) l ->
    exists l' c', poll_all drv l c = Done (l', c').
Proof.
  induction l as [| it rest IH]; intros c Hf Hok Hwell.
  - exists [], c. reflexivity.
  - inversion Hok as [| x l0 [Hnm Hev] Hok']; subst.
    inversion Hwell as [| x l0 Hit Hwell']; subst.
    cbn [poll_all]. unfold bind at 1, PTI_ASSERT.
    destruct (Z.eqb_spec (event it) nullptr) as [E | _]; [contradiction |].
    cbn [negb ret]. destruct Hit as [Hnr | [Hst Hres]].
    + rewrite Hnr. unfold bind.
      destruct (IH c Hf Hok' Hwell') as (l' & c' & Hrun). rewrite Hrun.
      eexists _, _. reflexivity.
    + rewrite Hst. unfold bind.
      destruct (ProcessInstance_succeeds drv it c Hf Hnm Hst Hres) as (c1 & Hrun1 & Hf1).
      rewrite Hrun1.
      destruct (IH c1 ltac:(rewrite Hf1; exact Hf) Hok' Hwell') as (l' & c' & Hrun).
      exists l', c'. exact Hrun.
Qed.

(** X25.  With a timer of at most 1 GHz the poll does not stop the
    traced program on a driver that answers well.  When every instance
    in flight is named and has a signal, and the driver answers each
    signal either not ready, or ready with a successful timestamp query
    of raw ticks [start < end <= 18446744073] (and successful destroy
    calls where the signal is the collector's own), a successful queue
    synchronize and a successful queue destroy run to their end, keep
    exactly the instances whose signal was not ready, and record one
    interval for every other one. *)
Theorem X25_poll_runs_on_a_well_answering_driver (drv : ZeDriver)
    (c : ZeKernelCollector) :
  0 < timer_frequency_ c <= NSEC_IN_SEC ->
  Forall instance_ok (kernel_instance_list_ c) ->
  Forall (answers_well drv) (kernel_instance_list_ c) ->
  exists c',
    OnExitCommandQueueSynchronize drv ZE_RESULT_SUCCESS c = Done (tt, c')
    /\ OnExitCommandQueueDestroy drv ZE_RESULT_SUCCESS c = Done (tt, c')
    /\ kernel_instance_list_ c' = not_ready drv (kernel_instance_list_ c)
    /\ exists ivs,
         kernel_interval_list_ c' = kernel_interval_list_ c ++ ivs
         /\ map interval_name ivs = map name (ready drv (kernel_instance_list_ c)).
Proof.
  intros Hf Hok Hwell.
  destruct (poll_all_succeeds drv (kernel_instance_list_ c) c Hf Hok Hwell)
    as (l' & c1 & Hpoll).
  assert (Hrun : ProcessInstances drv c = Done (tt, set_instance_list l' c1)).
  { unfold ProcessInstances, bind, get. rewrite Hpoll. reflexivity. }
  exists (set_instance_list l' c1).
  split; [exact Hrun |]. split; [exact Hrun |].
  apply ProcessInstances_done in Hrun.
  destruct Hrun as (Hl & _ & _ & Hivs). split; [exact Hl | exact Hivs].
Qed.

Lemma X25_poll_runs_on_a_well_answering_driver_witness :
  exists c',
    OnExitCommandQueueSynchronize driver_mixed ZE_RESULT_SUCCESS two_in_flight
      = Done (tt, c')
    /\ OnExitCommandQueueDestroy driver_mixed ZE_RESULT_SUCCESS two_in_flight
       = Done (tt, c')
    /\ kernel_instance_list_ c'
       = not_ready driver_mixed (kernel_instance_list_ two_in_flight)
    /\ exists ivs,
         kernel_interval_list_ c' = kernel_interval_list_ two_in_flight ++ ivs
         /\ map interval_name ivs
            = map name (ready driver_mixed (kernel_instance_list_ two_in_flight)).
Proof.
  apply (X25_poll_runs_on_a_well_answering_driver driver_mixed two_in_flight).
  - cbn. unfold NSEC_IN_SEC. lia.
  - cbn. constructor; [split; [discriminate | discriminate] |].
    constructor; [split; [discriminate | discriminate] |]. constructor.
  - cbn. constructor; [left; reflexivity |].
    constructor; [| constructor].
    right. split; [reflexivity |].
    exists 100, 200. cbn. split; [reflexivity |].
    split; [lia |]. split; [lia |]. split; [lia |]. discriminate.
Defined.

(** * Waiting for the traced program *)

Lemma check_exit_loop_skips (pre : list (Z * WaitStatus)) :
  forall (rest : list (Z * WaitStatus)) (rv : Z) (out : list WaitLine),
    Forall (fun r => 0 <= fst r /\ is_terminal r = false) pre ->
    check_exit_loop (pre ++ rest) rv out
    = check_exit_loop rest rv (out ++ wait_lines pre).
Proof.
  induction pre as [| [result status] pre IH]; intros rest rv out Hpre.
  - cbn. rewrite app_nil_r. reflexivity.
  - inversion Hpre as [| x l0 [Hres Hterm] Hpre']; subst.
    cbn [fst] in Hres. cbn [app check_exit_loop]. unfold bind at 1, Wait.
    destruct (Z.ltb_spec result 0) as [Hneg | _]; [lia |].
    cbn [ret]. unfold is_terminal in Hterm. cbn [snd] in Hterm.
    destruct status; try discriminate Hterm.
    + unfold bind, modify. rewrite (IH rest rv _ Hpre').
      cbn [wait_lines flat_map snd]. rewrite <- app_assoc. reflexivity.
    + unfold bind, modify. rewrite (IH rest rv _ Hpre').
      cbn [wait_lines flat_map snd]. rewrite <- app_assoc. reflexivity.
    + rewrite (IH rest rv out Hpre'). reflexivity.
Qed.

(** X26.  [CheckExitStatus] returns what the first report of an exit or
    of a killing signal carries: reports of a stop or a continue before
    it only leave their line on the output, the reports after it are
    never asked for, and the starting value 1 of the result is never
    what decides.  A report whose [waitpid] result is negative throws
    instead, and reports without an exit or a kill leave the loop
    waiting. *)
Theorem X26_exit_status_of_first_terminal_report
    (pre post : list (Z * WaitStatus)) (r : Z * WaitStatus)
    (out : list WaitLine) :
  Forall (fun r => 0 <= fst r /\ is_terminal r = false) pre ->
  (0 <= fst r -> is_terminal r = true ->
   CheckExitStatus (pre ++ r :: post) out
   = Done (Some (terminal_value r), out ++ wait_lines (pre ++ [r])))
  /\ (fst r < 0 -> CheckExitStatus (pre ++ r :: post) out = Fatal Thrown)
  /\ CheckExitStatus pre out = Done (None, out ++ wait_lines pre).
Proof.
  intros Hpre. unfold CheckExitStatus.
  split; [| split].
  - intros Hres Hterm. rewrite (check_exit_loop_skips pre _ _ _ Hpre).
    destruct r as [result status]. cbn [fst] in Hres.
    unfold is_terminal in Hterm. cbn [snd] in Hterm.
    cbn [check_exit_loop]. unfold bind at 1, Wait.
    destruct (Z.ltb_spec result 0) as [Hneg | _]; [lia |].
    cbn [ret]. unfold wait_lines. rewrite flat_map_app. fold (wait_lines pre).
    destruct status; try discriminate Hterm.
    + cbn. rewrite app_nil_r. reflexivity.
    + cbn. rewrite app_assoc. reflexivity.
  - intros Hneg. rewrite (check_exit_loop_skips pre _ _ _ Hpre).
    destruct r as [result status]. cbn [fst] in Hneg.
    cbn [check_exit_loop]. unfold bind, Wait.
    destruct (Z.ltb_spec result 0) as [_ | Hge]; [reflexivity | lia].
  - rewrite <- (app_nil_r pre) at 1.
    rewrite (check_exit_loop_skips pre [] _ _ Hpre). reflexivity.
Qed.

Lemma X26_exit_status_of_first_terminal_report_witness :
  (0 <= 5 -> is_terminal (5, Exited 3) = true ->
   CheckExitStatus ([(5, Stopped 19); (5, Continued)] ++ (5, Exited 3) :: [(5, Exited 9)]) []
   = Done (Some (terminal_value (5, Exited 3)),
           [] ++ wait_lines ([(5, Stopped 19); (5, Continued)] ++ [(5, Exited 3)])))
  /\ (5 < 0 ->
      CheckExitStatus ([(5, Stopped 19); (5, Continued)] ++ (5, Exited 3) :: [(5, Exited 9)]) []
      = Fatal Thrown)
  /\ CheckExitStatus [(5, Stopped 19); (5, Continued)] []
     = Done (None, [] ++ wait_lines [(5, Stopped 19); (5, Continued)]).
Proof.
  apply (X26_exit_status_of_first_terminal_report
           [(5, Stopped 19); (5, Continued)] [(5, Exited 9)] (5, Exited 3) []).
  constructor; [split; [cbn; lia | reflexivity] |].
  constructor; [split; [cbn; lia | reflexivity] |]. constructor.
Defined.
